(** * Card visibility and slot matching: a shallow embedding of the game core

    The development follows the JavaScript sources class by class:
    [Card] and [CardManager] (card field and overlap test), [ScoreManager]
    (score and combo), [SlotManager] (the seven-slot queue and its
    elimination pass), [LevelManager] (configurations and layout
    generation), [LeaderboardManager] and the [Game] controller.

    Conventions of the embedding.
    - JavaScript numbers that hold counts, ids, layers, scores and card
      types are integers ([Z], or [nat] for the counts of a level
      configuration).
    - A card coordinate is the rational ([Q]) that a finite binary64
      number denotes.  The sums of [checkOverlap] are rounded to binary64
      as IEEE 754 prescribes (to nearest, ties to even); the arithmetic
      that lays the positions out is kept exact, no statement depends on
      its values.  NaN, the infinities and overflow are outside the model.
    - A mutable object is a record; a method that mutates [this] is a
      function from the old record to the new one, paired with the
      returned value when there is one.
    - The DOM (elements, class lists, modals) is not modelled; the
      document-wide event bus is modelled by the handler that the
      dispatching code calls synchronously. *)

From Stdlib Require Import ZArith QArith Qabs Qround Lqa Lia Bool String DecimalString Sorted.
From Stdlib Require Qcanon.
From stdpp Require Import base list.

Local Open Scope Z_scope.

(** ** Card *)

Module Card.

Record Card := mk {
  id : Z;
  type : Z;
  x : Q;
  y : Q;
  layer : Z;
  isDisabled : bool;
  inSlot : bool
}.

(** [new Card(id, type, x, y, layer)] *)
Definition new (id type : Z) (x y : Q) (layer : Z) : Card :=
  mk id type x y layer false false.

Definition set_isDisabled (b : bool) (c : Card) : Card :=
  mk (id c) (type c) (x c) (y c) (layer c) b (inSlot c).

Definition set_inSlot (b : bool) (c : Card) : Card :=
  mk (id c) (type c) (x c) (y c) (layer c) (isDisabled c) b.

Definition disable : Card -> Card := set_isDisabled true.
Definition enable : Card -> Card := set_isDisabled false.

(** [moveToSlot(slotIndex)]: the index is only used for styling. *)
Definition moveToSlot (slotIndex : Z) : Card -> Card := set_inSlot true.

Definition destroy : Card -> Card := set_inSlot false.

(** [getIcon()]: the entry of the icon array at index [type]; [None] is
    [undefined], what an index outside the array reads. *)
Definition icons : list string :=
  ["🐵"; "🦁"; "🐯"; "🐨"; "🦊"; "🐀"; "🐭"]%string.

Definition getIcon (c : Card) : option string :=
  if Z.ltb (type c) 0 then None else icons !! Z.to_nat (type c).

End Card.

(** ** JavaScript numbers

    A finite Number is the rational it denotes.  [+] and [-] return the
    exact result rounded to the nearest binary64 number, ties to the even
    significand: a significand of 53 bits, and a unit in the last place
    that is never below [2^-1074] (subnormal numbers).  Results of
    magnitude [2^1024] or more (an infinity in JavaScript) are outside the
    model.  The rational is reduced first, so that equal rationals round
    to the same number. *)

Module JsNumber.

Definition pow2 (e : Z) : Q :=
  if Z.leb 0 e then inject_Z (2 ^ e) else 1 # Z.to_pos (2 ^ (- e)).

(** [floor (log2 q)] for [q > 0]. *)
Definition log2floor (q : Q) : Z :=
  let l := Z.log2 (Qnum q) - Z.log2 (Zpos (Qden q)) in
  if Qle_bool (pow2 l) q then l else l - 1.

(** The nearest integer, ties to even. *)
Definition roundHalfEven (q : Q) : Z :=
  let f := Qfloor q in
  match Qcompare (q - inject_Z f) (1 # 2) with
  | Lt => f
  | Gt => f + 1
  | Eq => if Z.even f then f else f + 1
  end.

(** The exponent of the unit in the last place of the binary64 numbers
    around [q], for [q <> 0]. *)
Definition ulpExponent (q : Q) : Z :=
  Z.max (-1074) (log2floor (Qabs q) - 52).

Definition round (q : Q) : Q :=
  let q := Qred q in
  if Qeq_bool q 0 then 0
  else let e := ulpExponent q in
       (inject_Z (roundHalfEven (q / pow2 e)) * pow2 e)%Q.

(** [x + y] and [x - y] on Numbers. *)
Definition add (x y : Q) : Q := round (x + y).
Definition sub (x y : Q) : Q := round (x - y).


End JsNumber.

(** ** JavaScript containers *)

(** [Array.prototype.sort(compare)] is stable; it is modelled by a stable
    insertion sort, where [le a b] stands for [compare(a, b) <= 0]. *)
Module JsArray.

Fixpoint insert_sorted {A} (le : A -> A -> bool) (a : A) (l : list A) : list A :=
  match l with
  | [] => [a]
  | b :: l' => if le b a then b :: insert_sorted le a l' else a :: b :: l'
  end.

Definition sort {A} (le : A -> A -> bool) (l : list A) : list A :=
  fold_left (fun acc a => insert_sorted le a acc) l [].

(** [findIndex(pred)]: the least index whose element satisfies [pred]. *)
Fixpoint findIndex {A} (pred : A -> bool) (l : list A) : option nat :=
  match l with
  | [] => None
  | a :: l' => if pred a then Some O else option_map S (findIndex pred l')
  end.

End JsArray.

(** A [Map] keyed by numbers: its entries in insertion order.  [set] on a
    present key replaces the value in place, on a fresh key it appends. *)
Module JsMap.

Abbreviation t V := (list (Z * V)) (only parsing).

Definition empty {V} : t V := [].

Fixpoint get {V} (k : Z) (m : t V) : option V :=
  match m with
  | [] => None
  | (k', v) :: m' => if Z.eqb k' k then Some v else get k m'
  end.

Fixpoint set {V} (k : Z) (v : V) (m : t V) : t V :=
  match m with
  | [] => [(k, v)]
  | (k', v') :: m' => if Z.eqb k' k then (k', v) :: m' else (k', v') :: set k v m'
  end.

Definition delete {V} (k : Z) (m : t V) : t V :=
  List.filter (fun kv => negb (Z.eqb (fst kv) k)) m.

Definition values {V} (m : t V) : list V := List.map snd m.

(** The object stored under key [k], mutated in place by [f]. *)
Fixpoint mutate {V} (f : V -> V) (k : Z) (m : t V) : t V :=
  match m with
  | [] => []
  | (k', v) :: m' => if Z.eqb k' k then (k', f v) :: m' else (k', v) :: mutate f k m'
  end.

End JsMap.

(** ** CardManager *)

Module CardManager.

Record CardManager := mk {
  cards : JsMap.t Card.Card;
  nextId : Z
}.

(** [constructor()] *)
Definition new : CardManager := mk JsMap.empty 0.

(** [createCard(type, x, y, layer)]: returns the card and the manager. *)
Definition createCard (type : Z) (x y : Q) (layer : Z) (cm : CardManager)
  : Card.Card * CardManager :=
  let card := Card.new (nextId cm) type x y layer in
  (card, mk (JsMap.set (Card.id card) card (cards cm)) (nextId cm + 1)).

Definition getCard (id : Z) (cm : CardManager) : option Card.Card :=
  JsMap.get id (cards cm).

Definition getAllCards (cm : CardManager) : list Card.Card :=
  JsMap.values (cards cm).

Definition getCardsByType (type : Z) (cm : CardManager) : list Card.Card :=
  List.filter (fun card => Z.eqb (Card.type card) type) (getAllCards cm).

(** [removeCard(id)]: no change when the id is absent. *)
Definition removeCard (id : Z) (cm : CardManager) : CardManager :=
  match JsMap.get id (cards cm) with
  | Some _ => mk (JsMap.delete id (cards cm)) (nextId cm)
  | None => cm
  end.

(** [clearAll()] *)
Definition clearAll (cm : CardManager) : CardManager := mk JsMap.empty 0.

(** The two constants of [checkOverlap]. *)
Definition cardSize : Q := 70.
Definition offset : Q := 5.

(** [checkOverlap(card1, card2)]; [a >= b] is written [b <= a].  Each
    [+] and [-] rounds its result to binary64; [a + cardSize - offset] is
    [(a + cardSize) - offset].  The comparisons are exact. *)
Definition checkOverlap (card1 card2 : Card.Card) : bool :=
  negb (Qle_bool (JsNumber.sub (JsNumber.add (Card.x card1) cardSize) offset)
                 (Card.x card2)
        || Qle_bool (JsNumber.add (Card.x card2) cardSize)
                    (JsNumber.add (Card.x card1) offset)
        || Qle_bool (JsNumber.sub (JsNumber.add (Card.y card1) cardSize) offset)
                    (Card.y card2)
        || Qle_bool (JsNumber.add (Card.y card2) cardSize)
                    (JsNumber.add (Card.y card1) offset)).

(** The three sums that [checkOverlap] computes from a coordinate incur
    no rounding. *)
Definition exactSumsOf (a : Q) : bool :=
  Qeq_bool (JsNumber.add a cardSize) (a + cardSize)
  && Qeq_bool (JsNumber.sub (JsNumber.add a cardSize) offset) (a + cardSize - offset)
  && Qeq_bool (JsNumber.add a offset) (a + offset).

Definition exactSums (card : Card.Card) : bool :=
  exactSumsOf (Card.x card) && exactSumsOf (Card.y card).

(** [updateCardStates()].

    The array [cards] of the source holds references to the card objects
    of the map.  A reference is modelled by the position of the entry in
    the map, paired with the card read there.  The loop only writes
    [isDisabled] and only reads [layer], [inSlot], [x] and [y], so the
    values read from [cards] are those of the live objects. *)
Definition cardRefs (m : JsMap.t Card.Card) : list (nat * Card.Card) :=
  imap (fun i kv => (i, snd kv)) m.

Definition layer_le (a b : nat * Card.Card) : bool :=
  Z.leb (Card.layer (snd a) - Card.layer (snd b)) 0.

Definition isCoveredIn (cards : list (nat * Card.Card)) (card : Card.Card) : bool :=
  existsb (fun other =>
             negb (Z.leb (Card.layer (snd other)) (Card.layer card))
             && negb (Card.inSlot (snd other))
             && checkOverlap card (snd other))
          cards.

(** The tail of the [forEach] callback: [disable()] or [enable()]. *)
Definition setCovered (isCovered : bool) (card : Card.Card) : Card.Card :=
  if isCovered then Card.disable card else Card.enable card.

(** One call of the [forEach] callback on the reference [rc]. *)
Definition updateStep (cards : list (nat * Card.Card))
           (store : JsMap.t Card.Card) (rc : nat * Card.Card) : JsMap.t Card.Card :=
  let isCovered := isCoveredIn cards (snd rc) in
  alter (fun kv => (fst kv, setCovered isCovered (snd kv))) (fst rc) store.

Definition updateCardStates (cm : CardManager) : CardManager :=
  let cards0 :=
    List.filter (fun rc => negb (Card.inSlot (snd rc))) (cardRefs (cards cm)) in
  let cards1 := JsArray.sort layer_le cards0 in
  mk (fold_left (updateStep cards1) cards1 (cards cm)) (nextId cm).

(** [getClickabledCards()] *)
Definition getClickabledCards (cm : CardManager) : list Card.Card :=
  List.filter (fun card => negb (Card.inSlot card) && negb (Card.isDisabled card))
              (getAllCards cm).

End CardManager.

(** A session of the card manager: the calls made on it, in order, and
    the ids its [createCard] calls hand out. *)
Module CardSession.

Inductive Call :=
| createCard (type : Z) (x y : Q) (layer : Z)
| removeCard (id : Z)
| clearAll
| updateCardStates.

Definition call (c : Call) (cm : CardManager.CardManager)
  : option Z * CardManager.CardManager :=
  match c with
  | createCard type x y layer =>
      let '(card, cm') := CardManager.createCard type x y layer cm in
      (Some (Card.id card), cm')
  | removeCard id => (None, CardManager.removeCard id cm)
  | clearAll => (None, CardManager.clearAll cm)
  | updateCardStates => (None, CardManager.updateCardStates cm)
  end.

(** The ids assigned by the creations of [calls], in call order. *)
Fixpoint assignedIds (calls : list Call) (cm : CardManager.CardManager) : list Z :=
  match calls with
  | [] => []
  | c :: calls' =>
      let '(assigned, cm') := call c cm in
      match assigned with
      | Some id => id :: assignedIds calls' cm'
      | None => assignedIds calls' cm'
      end
  end.

Definition isClearAll (c : Call) : bool :=
  match c with clearAll => true | _ => false end.

End CardSession.

(** ** Persisted key-value store

    [localStorage] holds two items.  They are kept typed: the number that
    [parseInt] reads back from the stored high score, and the list that
    [JSON.parse] reads back from the stored leaderboard.  [throws] models a
    store whose accesses raise (the callers catch and log). *)

Module LeaderboardEntry.

Record Entry := mk {
  rank : Z;
  score : Z;
  level : Z;
  combo : Z;
  date : string;
  playerName : string
}.

Definition set_rank (r : Z) (e : Entry) : Entry :=
  mk r (score e) (level e) (combo e) (date e) (playerName e).

End LeaderboardEntry.

Module LocalStorage.

Record t := mk {
  throws : bool;
  tileGameHighScore : option Z;
  tileGameLeaderboard : option (list LeaderboardEntry.Entry)
}.

Definition empty : t := mk false None None.

Definition set_tileGameHighScore (v : option Z) (st : t) : t :=
  mk (throws st) v (tileGameLeaderboard st).

Definition set_tileGameLeaderboard (v : option (list LeaderboardEntry.Entry))
           (st : t) : t :=
  mk (throws st) (tileGameHighScore st) v.

End LocalStorage.

(** ** ScoreManager *)

Module ScoreManager.

Record ScoreManager := mk {
  currentScore : Z;
  highScore : Z;
  combo : Z;
  maxCombo : Z;
  eliminationCount : Z
}.

(** [loadHighScore()] *)
Definition loadHighScore (st : LocalStorage.t) (sm : ScoreManager) : ScoreManager :=
  if LocalStorage.throws st then sm
  else match LocalStorage.tileGameHighScore st with
       | Some saved =>
           mk (currentScore sm) saved (combo sm) (maxCombo sm) (eliminationCount sm)
       | None => sm
       end.

(** [saveHighScore()] *)
Definition saveHighScore (sm : ScoreManager) (st : LocalStorage.t) : LocalStorage.t :=
  if LocalStorage.throws st then st
  else LocalStorage.set_tileGameHighScore (Some (highScore sm)) st.

(** [constructor()] *)
Definition new (st : LocalStorage.t) : ScoreManager :=
  loadHighScore st (mk 0 0 0 0 0).

(** The shared tail of the two scoring methods: raise and persist the
    high score when the current score exceeds it. *)
Definition updateHighScore (sm : ScoreManager) (st : LocalStorage.t)
  : ScoreManager * LocalStorage.t :=
  if Z.ltb (highScore sm) (currentScore sm) then
    let sm' := mk (currentScore sm) (currentScore sm) (combo sm) (maxCombo sm)
                  (eliminationCount sm) in
    (sm', saveHighScore sm' st)
  else (sm, st).

(** [addEliminationScore(cardsEliminated)]: the points, the tracker and
    the store afterwards. *)
Definition addEliminationScore (cardsEliminated : Z) (sm : ScoreManager)
           (st : LocalStorage.t) : Z * ScoreManager * LocalStorage.t :=
  let eliminationCount1 := eliminationCount sm + 1 in
  let baseScore := cardsEliminated * 10 in
  let combo1 := combo sm + 1 in
  let comboBonus := combo1 * 20 in
  let totalScore := baseScore + comboBonus in
  let currentScore1 := currentScore sm + totalScore in
  let maxCombo1 := if Z.ltb (maxCombo sm) combo1 then combo1 else maxCombo sm in
  let '(sm', st') :=
    updateHighScore (mk currentScore1 (highScore sm) combo1 maxCombo1 eliminationCount1)
                    st in
  (totalScore, sm', st').

(** [resetCombo()] *)
Definition resetCombo (sm : ScoreManager) : ScoreManager :=
  mk (currentScore sm) (highScore sm) 0 (maxCombo sm) (eliminationCount sm).

(** [getLevelCompletionBonus(level)] *)
Definition getLevelCompletionBonus (level : Z) (sm : ScoreManager)
           (st : LocalStorage.t) : Z * ScoreManager * LocalStorage.t :=
  let bonus := level * 100 + eliminationCount sm * 5 in
  let '(sm', st') :=
    updateHighScore (mk (currentScore sm + bonus) (highScore sm) (combo sm)
                        (maxCombo sm) (eliminationCount sm))
                    st in
  (bonus, sm', st').

Definition getCurrentScore := currentScore.
Definition getHighScore := highScore.
Definition getCombo := combo.
Definition getMaxCombo := maxCombo.
Definition getEliminationCount := eliminationCount.

(** [reset()]: the high score survives. *)
Definition reset (sm : ScoreManager) : ScoreManager :=
  mk 0 (highScore sm) 0 0 0.

End ScoreManager.

(** A session of the score tracker: the calls made on it, in order, on
    the tracker and the store it persists to. *)
Module ScoreSession.

Inductive Call :=
| addEliminationScore (cardsEliminated : Z)
| resetCombo
| getLevelCompletionBonus (level : Z)
| reset.

Definition call (c : Call) (s : ScoreManager.ScoreManager * LocalStorage.t)
  : ScoreManager.ScoreManager * LocalStorage.t :=
  match c with
  | addEliminationScore cardsEliminated =>
      let '(_, sm', st') :=
        ScoreManager.addEliminationScore cardsEliminated (fst s) (snd s) in
      (sm', st')
  | resetCombo => (ScoreManager.resetCombo (fst s), snd s)
  | getLevelCompletionBonus level =>
      let '(_, sm', st') :=
        ScoreManager.getLevelCompletionBonus level (fst s) (snd s) in
      (sm', st')
  | reset => (ScoreManager.reset (fst s), snd s)
  end.

Definition run (calls : list Call) (s : ScoreManager.ScoreManager * LocalStorage.t)
  : ScoreManager.ScoreManager * LocalStorage.t :=
  fold_left (fun s c => call c s) calls s.

End ScoreSession.

(** ** SlotManager *)

(** A plain object used as a dictionary keyed by numbers.  The entries are
    kept in creation order; [for ... in] visits the keys that are array
    indices (integers from 0 to 2^32 - 2) in ascending order first, then
    the other keys in creation order. *)
Module JsObject.

Definition isArrayIndex (k : Z) : bool :=
  Z.leb 0 k && Z.ltb k (2 ^ 32 - 1).

Definition key_le {V} (a b : Z * V) : bool := Z.leb (fst a) (fst b).

Definition forInEntries {V} (o : JsMap.t V) : list (Z * V) :=
  JsArray.sort key_le (List.filter (fun kv => isArrayIndex (fst kv)) o)
  ++ List.filter (fun kv => negb (isArrayIndex (fst kv))) o.

End JsObject.

Module SlotManager.

(** The object literal [{id, type, card}] handed to [addCard]; the card
    reference is represented by the card's id. *)
Record CardData := mkCardData {
  id : Z;
  type : Z
}.

Record SlotManager := mk {
  slots : list (option CardData);
  initialized : bool
}.

Definition maxSlots : nat := 7.

(** [constructor()]: the slot array is empty until [initialize()]. *)
Definition new : SlotManager := mk [] false.

(** [initialize()] *)
Definition initialize (sm : SlotManager) : SlotManager :=
  if initialized sm then sm else mk (replicate maxSlots None) true.

(** The detail of a [cardsEliminated] event. *)
Record Eliminated := mkEliminated {
  ev_type : Z;
  ev_indices : list nat
}.

Definition isNull {A} (slot : option A) : bool :=
  match slot with None => true | Some _ => false end.

(** [compactSlots()] *)
Definition compactSlots (sm : SlotManager) : SlotManager :=
  let cards := List.filter (fun slot => negb (isNull slot)) (slots sm) in
  let cleared := replicate (length (slots sm)) None in
  mk (fold_left (fun sl ic => <[fst ic := snd ic]> sl)
                (imap (fun index card => (index, card)) cards) cleared)
     (initialized sm).

(** The first loop of [checkForElimination]: occupied indices by type. *)
Definition typeCount (sl : list (option CardData)) : JsMap.t (list nat) :=
  fold_left
    (fun tc islot =>
       match snd islot with
       | Some slot =>
           let tc1 := match JsMap.get (type slot) tc with
                      | Some _ => tc
                      | None => JsMap.set (type slot) [] tc
                      end in
           JsMap.mutate (fun l => l ++ [fst islot]) (type slot) tc1
       | None => tc
       end)
    (imap (fun index slot => (index, slot)) sl) [].

Section Dispatch.

(** [document.dispatchEvent] runs the listeners of the event before it
    returns.  [X] is the state the listeners work on; they read the
    slot manager but do not write it. *)
Context {X : Type}.
Variable dispatchEvent : Eliminated -> SlotManager -> X -> X.

(** The body of the [for ... in] loop of [checkForElimination]. *)
Definition eliminateType (st : bool * SlotManager * X) (entry : Z * list nat)
  : bool * SlotManager * X :=
  let '(eliminated, sm, x) := st in
  if Nat.leb 3 (length (snd entry)) then
    let indicesToRemove := take 3 (snd entry) in
    let x' := dispatchEvent (mkEliminated (fst entry) indicesToRemove) sm x in
    let sl := fold_left (fun sl index => <[index := None]> sl)
                        indicesToRemove (slots sm) in
    (true, mk sl (initialized sm), x')
  else st.

(** [checkForElimination()] *)
Definition checkForElimination (sm : SlotManager) (x : X)
  : bool * SlotManager * X :=
  let '(eliminated, sm1, x1) :=
    fold_left eliminateType (JsObject.forInEntries (typeCount (slots sm)))
              (false, sm, x) in
  if eliminated then (true, compactSlots sm1, x1) else (false, sm1, x1).

(** [addCard(cardData)] *)
Definition addCard (cardData : CardData) (sm : SlotManager) (x : X)
  : bool * SlotManager * X :=
  match JsArray.findIndex isNull (slots sm) with
  | None => (false, sm, x)
  | Some emptyIndex =>
      let sm1 := mk (<[emptyIndex := Some cardData]> (slots sm)) (initialized sm) in
      let '(_, sm2, x2) := checkForElimination sm1 x in
      (true, sm2, x2)
  end.

End Dispatch.

(** [isFull()] *)
Definition isFull (sm : SlotManager) : bool :=
  forallb (fun slot => negb (isNull slot)) (slots sm).

(** [getCardCount()] *)
Definition getCardCount (sm : SlotManager) : nat :=
  length (List.filter (fun slot => negb (isNull slot)) (slots sm)).

(** [getEmptySlotCount()] *)
Definition getEmptySlotCount (sm : SlotManager) : nat :=
  length (List.filter isNull (slots sm)).

(** [canContinue()] *)
Definition canContinue (sm : SlotManager) : bool :=
  if isFull sm then
    let typeCount :=
      fold_left
        (fun tc slot =>
           match slot with
           | Some slot =>
               let n := match JsMap.get (type slot) tc with
                        | Some n => n
                        | None => 0%nat
                        end in
               JsMap.set (type slot) (n + 1)%nat tc
           | None => tc
           end)
        (slots sm) [] in
    existsb (fun entry => Nat.leb 3 (snd entry)) (JsObject.forInEntries typeCount)
  else true.

(** [clearAll()] *)
Definition clearAll (sm : SlotManager) : SlotManager :=
  mk (replicate (length (slots sm)) None) (initialized sm).

(** [getSlotState()] *)
Definition getSlotState (sm : SlotManager) : list (option CardData) :=
  List.map (fun slot => match slot with
                        | Some slot => Some (mkCardData (id slot) (type slot))
                        | None => None
                        end) (slots sm).

(** The slot queue on its own: the listener records the events. *)
Definition record (e : Eliminated) (_ : SlotManager) (log : list Eliminated)
  : list Eliminated := log ++ [e].

(** The states a slot manager goes through: built by the constructor,
    then driven by its methods. *)
Inductive reachable : SlotManager -> Prop :=
  | reach_new : reachable new
  | reach_initialize sm : reachable sm -> reachable (initialize sm)
  | reach_addCard sm cardData log :
    reachable sm -> reachable (snd (fst (addCard record cardData sm log)))
  | reach_checkForElimination sm log :
    reachable sm -> reachable (snd (fst (checkForElimination record sm log)))
  | reach_compactSlots sm : reachable sm -> reachable (compactSlots sm)
  | reach_clearAll sm : reachable sm -> reachable (clearAll sm).

End SlotManager.

(** Quantities read off the slot array, used to state what the slot
    manager does; the source has no function for them. *)
Module SlotCount.

(** The slot holds a card of type [t]. *)
Definition hasType (t : Z) (slot : option SlotManager.CardData) : bool :=
  match slot with
  | Some cardData => Z.eqb (SlotManager.type cardData) t
  | None => false
  end.

(** How many slots hold a card of type [t]. *)
Definition ofType (t : Z) (sl : list (option SlotManager.CardData)) : nat :=
  length (List.filter (hasType t) sl).

(** The indices of the slots that hold a card of type [t], ascending. *)
Definition indicesOfType (t : Z) (sl : list (option SlotManager.CardData))
  : list nat :=
  List.map fst (List.filter (fun islot => hasType t (snd islot))
                            (imap (fun index slot => (index, slot)) sl)).

(** The slot at [index], emptied when it holds one of the first three
    cards of a type that has three cards or more in [sl]. *)
Definition afterElimination (sl : list (option SlotManager.CardData))
           (index : nat) (slot : option SlotManager.CardData)
  : option SlotManager.CardData :=
  match slot with
  | Some cardData =>
      if Nat.leb 3 (ofType (SlotManager.type cardData) sl)
         && Nat.ltb (ofType (SlotManager.type cardData) (take index sl)) 3
      then None else slot
  | None => None
  end.

End SlotCount.

(** ** LevelManager *)

(** What an expression evaluates to: a value, or the error it throws. *)
Module Js.

Inductive Error :=
| ReferenceError (name : string).

Definition Result (A : Type) : Type := Error + A.

Definition ret {A} (a : A) : Result A := inr a.
Definition throw {A} (e : Error) : Result A := inl e.

Definition bind {A B} (r : Result A) (k : A -> Result B) : Result B :=
  match r with
  | inl e => inl e
  | inr a => k a
  end.

(** The bindings an identifier is resolved against once the locals and the
    parameters of the running function do not declare it. *)
Definition Scope : Type := string -> option Q.

Definition resolve (scope : Scope) (name : string) : Result Q :=
  match scope name with
  | Some v => ret v
  | None => throw (ReferenceError name)
  end.

(** The scripts declare classes at top level and nothing else, so no
    number is bound to a name there. *)
Definition topLevel : Scope := fun _ => None.

(** [Math.random()]: the [k]-th draw of the generator, a multiple of
    [2^-53] in the interval from 0 (included) to 1 (excluded). *)
Definition Random : Type := nat -> N.

Definition random (rnd : Random) (k : nat) : Q :=
  inject_Z (Z.of_N (rnd k mod 2 ^ 53)) / inject_Z (2 ^ 53).

End Js.

Notation "x <- r ;; k" := (Js.bind r (fun x => k))
  (at level 100, r at next level, right associativity).

Module LevelManager.

Record LevelConfig := mkConfig {
  level : nat;
  cardTypes : nat;
  cardsPerType : nat;
  layers : nat;
  offsetX : Z;
  offsetY : Z;
  cardGap : Z;
  maxCards : nat
}.

Record LevelManager := mk {
  currentLevel : nat
}.

Definition maxLevel : nat := 10.

(** [generateLevels()]: one configuration per level from 1 to [maxLevel]. *)
Definition levelConfig (level : nat) : LevelConfig :=
  mkConfig level
           (Nat.min 7 (3 + level / 2))
           (3 + level / 3)
           (Nat.min 5 (1 + level / 2))
           20 20 10
           (Nat.min 50 (15 + level * 5)).

Definition generateLevels : list LevelConfig :=
  List.map levelConfig (seq 1 maxLevel).

(** [constructor()]; the fields [maxLevel] and [levels] never change and
    are the two definitions above. *)
Definition new : LevelManager := mk 1.


(** [getLevelConfig(level)]; [None] is [null]. *)
Definition getLevelConfig (level : nat) : option LevelConfig :=
  if Nat.ltb level 1 || Nat.ltb maxLevel level then None
  else generateLevels !! (level - 1)%nat.


Definition resetToFirstLevel (lm : LevelManager) : LevelManager := mk 1.


Definition getCurrentLevel (lm : LevelManager) : nat := currentLevel lm.
Definition getMaxLevel (lm : LevelManager) : nat := maxLevel.

(** [restartLevel()]: the level number is kept. *)
Definition restartLevel (lm : LevelManager) : LevelManager := lm.

(** [getDifficultyDescription(level)] *)
Definition getDifficultyDescription (level : nat) : string :=
  if Nat.leb level 2 then "简单"
  else if Nat.leb level 5 then "中等"
  else if Nat.leb level 8 then "困难"
  else "专家".

(** [getRequiredScore(level)] *)
Definition getRequiredScore (level : nat) : nat := level * 100.

(** The type array of [generateLevelLayout]: for each type, [cardsPerType]
    groups of three equal entries. *)
Definition buildCardTypes (config : LevelConfig) : list nat :=
  fold_left
    (fun cardTypes type =>
       fold_left (fun cardTypes group => cardTypes ++ [type; type; type])
                 (seq 0 (cardsPerType config)) cardTypes)
    (seq 0 (cardTypes config)) [].

(** [Array.prototype.pop()], which leaves an empty array empty. *)
Definition pop {A} (l : list A) : list A := removelast l.

(** [Math.ceil(a / 3)] on a count. *)
Definition ceilThird (a : nat) : nat :=
  Z.to_nat (Qceiling (inject_Z (Z.of_nat a) / 3)).

(** The trimming step of [generateLevelLayout]. *)
Definition trimCardTypes (config : LevelConfig) (cardTypes : list nat) : list nat :=
  let totalCards := length cardTypes in
  if Nat.ltb (maxCards config) totalCards then
    let removeCount := (totalCards - maxCards config)%nat in
    let removeGroups := ceilThird removeCount in
    Nat.iter removeGroups (fun cardTypes => pop (pop (pop cardTypes))) cardTypes
  else cardTypes.

(** [shuffleArray(array)]: [i] runs from [length - 1] down to 1; the draw
    counter is threaded through. *)
Definition swap {A} (i j : nat) (array : list A) : list A :=
  match array !! i, array !! j with
  | Some ai, Some aj => <[j := ai]> (<[i := aj]> array)
  | _, _ => array
  end.

Fixpoint shuffleFrom {A} (rnd : Js.Random) (i : nat) (k : nat) (array : list A)
  : list A * nat :=
  match i with
  | O => (array, k)
  | S i' =>
      let j := Z.to_nat (Qfloor (Js.random rnd k * inject_Z (Z.of_nat i + 1))) in
      shuffleFrom rnd i' (S k) (swap i j array)
  end.

Definition shuffleArray {A} (rnd : Js.Random) (k : nat) (array : list A)
  : list A * nat :=
  shuffleFrom rnd (length array - 1) k array.

Record Position := mkPosition {
  x : Q;
  y : Q;
  layer : Z
}.

Section Positions.

(** [generateCardPositions] reads [effectiveWidth] and [effectiveHeight],
    which are neither parameters nor locals of it (they are constants
    local to [generateLevelLayout]); [scope] is what those names are
    resolved against. *)
Variable scope : Js.Scope.
Variable rnd : Js.Random.
Variables count layers cols rows cardSize gap offsetX offsetY : Z.

(** The inner loop, [n] iterations left.  The boolean of the result tells
    whether the loop ended on its [break]. *)
Fixpoint layerLoop (layer layerCols layerRows : Z) (n : nat)
         (positions : list Position) (k : nat)
  : Js.Result (bool * list Position * nat) :=
  match n with
  | O => Js.ret (false, positions, k)
  | S n' =>
      let col := (Js.random rnd k * inject_Z (layerCols - 1))%Q in
      let row := (Js.random rnd (S k) * inject_Z (layerRows - 1))%Q in
      effectiveWidth <- Js.resolve scope "effectiveWidth" ;;
      let layerStartX :=
        ((effectiveWidth - inject_Z (layerCols * (cardSize + gap))) / 2)%Q in
      effectiveHeight <- Js.resolve scope "effectiveHeight" ;;
      let layerStartY :=
        ((effectiveHeight - inject_Z (layerRows * (cardSize + gap))) / 2)%Q in
      let x := (inject_Z offsetX + layerStartX + col * inject_Z (cardSize + gap))%Q in
      let y := (inject_Z offsetY + layerStartY + row * inject_Z (cardSize + gap))%Q in
      let positions' := positions ++ [mkPosition x y layer] in
      if Z.leb count (Z.of_nat (length positions'))
      then Js.ret (true, positions', S (S k))
      else layerLoop layer layerCols layerRows n' positions' (S (S k))
  end.

(** The outer loop, from [layer] on, [n] layers left. *)
Fixpoint layersLoop (layer : Z) (n : nat) (positions : list Position) (k : nat)
  : Js.Result (list Position * nat) :=
  match n with
  | O => Js.ret (positions, k)
  | S n' =>
      let cardsInLayer := Qceiling (inject_Z count / inject_Z layers) in
      let layerOffset := layer * 2 in
      let layerCols := Z.max 3 (cols - layerOffset) in
      let layerRows := Z.max 3 (rows - layerOffset) in
      r <- layerLoop layer layerCols layerRows (Z.to_nat cardsInLayer) positions k ;;
      let '(_, positions', k') := r in
      if Z.leb count (Z.of_nat (length positions'))
      then Js.ret (positions', k')
      else layersLoop (layer + 1) n' positions' k'
  end.

End Positions.

(** [generateCardPositions(count, layers, cols, rows, areaWidth, areaHeight,
    cardSize, gap, offsetX, offsetY)]; the body uses neither [areaWidth]
    nor [areaHeight]. *)
Definition generateCardPositions (scope : Js.Scope) (rnd : Js.Random)
           (count layers cols rows areaWidth areaHeight cardSize gap offsetX offsetY : Z)
           (k : nat) : Js.Result (list Position * nat) :=
  layersLoop scope rnd count layers cols rows cardSize gap offsetX offsetY
             0 (Z.to_nat layers) [] k.

(** The card-creating loop of [generateLevelLayout]. *)
Definition createCards (cardTypes : list nat) (positions : list Position)
           (cm : CardManager.CardManager) : CardManager.CardManager :=
  fold_left
    (fun cm it =>
       match positions !! fst it with
       | Some pos =>
           snd (CardManager.createCard (Z.of_nat (snd it)) (x pos) (y pos) (layer pos) cm)
       | None => cm
       end)
    (imap (fun index type => (index, type)) cardTypes) cm.

(** [generateLevelLayout(config, cardManager, cardArea)].  [offsetWidth]
    and [offsetHeight] are the sizes read from the card area; [k] counts
    the draws of [Math.random()] made so far, and the count afterwards is
    the value of a normal return.  The card manager is returned in both
    outcomes: what was done before a throw stays done. *)
Definition generateLevelLayout (scope : Js.Scope) (rnd : Js.Random) (k : nat)
           (config : LevelConfig) (cardManager : CardManager.CardManager)
           (offsetWidth offsetHeight : Z)
  : Js.Result nat * CardManager.CardManager :=
  let cm0 := CardManager.clearAll cardManager in
  let cardTypes := trimCardTypes config (buildCardTypes config) in
  let '(cardTypes, k1) := shuffleArray rnd k cardTypes in
  let areaWidth := if Z.eqb offsetWidth 0 then 500 else offsetWidth in
  let areaHeight := if Z.eqb offsetHeight 0 then 400 else offsetHeight in
  let cardSize := 70 in
  let effectiveWidth := if Z.ltb 0 areaWidth then areaWidth else 500 in
  let effectiveHeight := if Z.ltb 0 areaHeight then areaHeight else 400 in
  let cols :=
    Qfloor (inject_Z (effectiveWidth - offsetX config * 2)
            / inject_Z (cardSize + cardGap config)) in
  let rows :=
    Qfloor (inject_Z (effectiveHeight - offsetY config * 2)
            / inject_Z (cardSize + cardGap config)) in
  match generateCardPositions scope rnd (Z.of_nat (length cardTypes))
          (Z.of_nat (layers config)) cols rows areaWidth areaHeight cardSize
          (cardGap config) (offsetX config) (offsetY config) k1 with
  | inl e => (inl e, cm0)
  | inr (positions, k2) =>
      let cm1 := createCards cardTypes positions cm0 in
      (inr k2, CardManager.updateCardStates cm1)
  end.

End LevelManager.

(** ** LeaderboardManager *)

Module LeaderboardManager.

Record LeaderboardManager := mk {
  leaderboard : list LeaderboardEntry.Entry
}.

Definition maxEntries : nat := 10.

(** The argument of [addScore]: an object whose properties may be absent. *)
Record ScoreData := mkScoreData {
  score : option Z;
  level : option Z;
  combo : option Z;
  date : option string;
  playerName : option string
}.

(** [v || d] on a number and on a string: 0, the empty string and
    [undefined] are falsy. *)
Definition numberOr (v : option Z) (d : Z) : Z :=
  match v with
  | Some n => if Z.eqb n 0 then d else n
  | None => d
  end.

Definition stringOr (v : option string) (d : string) : string :=
  match v with
  | Some s => if String.eqb s EmptyString then d else s
  | None => d
  end.

(** [loadLeaderboard()] *)
Definition loadLeaderboard (st : LocalStorage.t) (lm : LeaderboardManager)
  : LeaderboardManager :=
  if LocalStorage.throws st then mk []
  else match LocalStorage.tileGameLeaderboard st with
       | Some saved => mk saved
       | None => lm
       end.

(** [saveLeaderboard()] *)
Definition saveLeaderboard (lm : LeaderboardManager) (st : LocalStorage.t)
  : LocalStorage.t :=
  if LocalStorage.throws st then st
  else LocalStorage.set_tileGameLeaderboard (Some (leaderboard lm)) st.

(** [constructor()] *)
Definition new (st : LocalStorage.t) : LeaderboardManager :=
  loadLeaderboard st (mk []).

(** The comparator [(a, b) => b.score - a.score] of [addScore]. *)
Definition score_desc (a b : LeaderboardEntry.Entry) : bool :=
  Z.leb (LeaderboardEntry.score b - LeaderboardEntry.score a) 0.

(** The default player name: the prefix and [Math.floor(Math.random() * 1000)]. *)
Definition defaultPlayerName (random : Q) : string :=
  String.append "玩家"
    (NilZero.string_of_uint (N.to_uint (Z.to_N (Qfloor (random * 1000))))).

(** [addScore(scoreData)].  [now] is [new Date().toISOString()] and
    [random] is [Math.random()], both read when the call is made. *)
Definition addScore (now : string) (random : Q) (scoreData : ScoreData)
           (lm : LeaderboardManager) (st : LocalStorage.t)
  : bool * LeaderboardManager * LocalStorage.t :=
  let entry :=
    LeaderboardEntry.mk 0
      (numberOr (score scoreData) 0)
      (numberOr (level scoreData) 1)
      (numberOr (combo scoreData) 0)
      (stringOr (date scoreData) now)
      (stringOr (playerName scoreData) (defaultPlayerName random)) in
  let pushed := leaderboard lm ++ [entry] in
  let sorted := JsArray.sort score_desc pushed in
  let kept := take maxEntries sorted in
  let ranked :=
    imap (fun index entry => LeaderboardEntry.set_rank (Z.of_nat index + 1) entry) kept in
  let lm' := mk ranked in
  let st' := saveLeaderboard lm' st in
  (existsb (fun entry =>
              Z.eqb (LeaderboardEntry.score entry) (LeaderboardEntry.score entry)
              && String.eqb (LeaderboardEntry.date entry) (LeaderboardEntry.date entry)
              && Z.eqb (LeaderboardEntry.level entry) (LeaderboardEntry.level entry)
              && Z.eqb (LeaderboardEntry.combo entry) (LeaderboardEntry.combo entry))
           (leaderboard lm'),
   lm', st').

(** [getLeaderboard()] *)
Definition getLeaderboard (lm : LeaderboardManager) : list LeaderboardEntry.Entry :=
  leaderboard lm.

(** [canEnterLeaderboard(score)].  The last entry exists whenever the
    first test fails. *)
Definition canEnterLeaderboard (score : Z) (lm : LeaderboardManager) : bool :=
  if Nat.ltb (length (leaderboard lm)) maxEntries then true
  else match leaderboard lm !! (length (leaderboard lm) - 1)%nat with
       | Some lowest => Z.ltb (LeaderboardEntry.score lowest) score
       | None => false
       end.

(** [getHighestScore()] *)
Definition getHighestScore (lm : LeaderboardManager) : Z :=
  match leaderboard lm with
  | first :: _ => LeaderboardEntry.score first
  | [] => 0
  end.

(** [clearLeaderboard()] *)
Definition clearLeaderboard (lm : LeaderboardManager) (st : LocalStorage.t)
  : LeaderboardManager * LocalStorage.t :=
  (mk [], if LocalStorage.throws st then st
          else LocalStorage.set_tileGameLeaderboard None st).

End LeaderboardManager.

(** ** Game: the listeners of the two custom events *)

Module Game.

Record Game := mk {
  cardManager : CardManager.CardManager;
  slotManager : SlotManager.SlotManager;
  levelManager : LevelManager.LevelManager;
  scoreManager : ScoreManager.ScoreManager;
  leaderboardManager : LeaderboardManager.LeaderboardManager;
  localStorage : LocalStorage.t;
  isPaused : bool;
  isGameOver : bool;
  isPlaying : bool;
  (** the [startNextLevel] timers set by [gameOver(true)] and not yet run *)
  pendingNextLevel : nat
}.

(** What a listener reads from the host when it runs:
    [new Date().toISOString()] and [Math.random()]. *)
Record Host := mkHost {
  now : string;
  random : Q
}.

Definition set_cardManager (cm : CardManager.CardManager) (g : Game) : Game :=
  mk cm (slotManager g) (levelManager g) (scoreManager g) (leaderboardManager g)
     (localStorage g) (isPaused g) (isGameOver g) (isPlaying g) (pendingNextLevel g).

Definition set_slotManager (sm : SlotManager.SlotManager) (g : Game) : Game :=
  mk (cardManager g) sm (levelManager g) (scoreManager g) (leaderboardManager g)
     (localStorage g) (isPaused g) (isGameOver g) (isPlaying g) (pendingNextLevel g).

Definition set_score (sc : ScoreManager.ScoreManager) (st : LocalStorage.t) (g : Game)
  : Game :=
  mk (cardManager g) (slotManager g) (levelManager g) sc (leaderboardManager g)
     st (isPaused g) (isGameOver g) (isPlaying g) (pendingNextLevel g).

(** [gameOver(isWin)] *)
Definition gameOver (host : Host) (isWin : bool) (g : Game) : Game :=
  if isWin then
    let level := Z.of_nat (LevelManager.getCurrentLevel (levelManager g)) in
    let '(_, sc, st) :=
      ScoreManager.getLevelCompletionBonus level (scoreManager g) (localStorage g) in
    mk (cardManager g) (slotManager g) (levelManager g) sc (leaderboardManager g)
       st (isPaused g) true false (S (pendingNextLevel g))
  else
    let sc := ScoreManager.resetCombo (scoreManager g) in
    let '(lb, st) :=
      if LeaderboardManager.canEnterLeaderboard (ScoreManager.getCurrentScore sc)
                                                (leaderboardManager g)
      then
        let '(_, lb, st) :=
          LeaderboardManager.addScore (now host) (random host)
            (LeaderboardManager.mkScoreData
               (Some (ScoreManager.getCurrentScore sc))
               (Some (Z.of_nat (LevelManager.getCurrentLevel (levelManager g))))
               (Some (ScoreManager.getMaxCombo sc))
               (Some (now host))
               None)
            (leaderboardManager g) (localStorage g) in
        (lb, st)
      else (leaderboardManager g, localStorage g) in
    mk (cardManager g) (slotManager g) (levelManager g) sc lb st
       (isPaused g) true false (pendingNextLevel g).

(** [checkWinCondition()] *)
Definition checkWinCondition (host : Host) (g : Game) : Game :=
  let remainingCards := CardManager.getAllCards (cardManager g) in
  let cardsInPlay := List.filter (fun card => negb (Card.inSlot card)) remainingCards in
  if Nat.eqb (length cardsInPlay) 0
     && Nat.eqb (SlotManager.getCardCount (slotManager g)) 0
  then gameOver host true g
  else g.

(** [checkGameState()] *)
Definition checkGameState (host : Host) (g : Game) : Game :=
  if negb (SlotManager.canContinue (slotManager g)) then gameOver host false g else g.

(** [handleCardsEliminated(type, indices)], the listener of
    [cardsEliminated]. *)
Definition handleCardsEliminated (host : Host) (type : Z) (indices : list nat)
           (g : Game) : Game :=
  let '(_, sc, st) :=
    ScoreManager.addEliminationScore 3 (scoreManager g) (localStorage g) in
  let g1 := set_score sc st g in
  let cm :=
    fold_left
      (fun cm slotIndex =>
         match SlotManager.slots (slotManager g1) !! slotIndex with
         | Some (Some slotData) => CardManager.removeCard (SlotManager.id slotData) cm
         | _ => cm
         end)
      indices (cardManager g1) in
  let g2 := set_cardManager (CardManager.updateCardStates cm) g1 in
  checkWinCondition host g2.

(** How the listener sees a dispatch made by the slot manager: the slot
    manager of the game is the dispatching one. *)
Definition onCardsEliminated (host : Host) (e : SlotManager.Eliminated)
           (sm : SlotManager.SlotManager) (g : Game) : Game :=
  handleCardsEliminated host (SlotManager.ev_type e) (SlotManager.ev_indices e)
                        (set_slotManager sm g).

(** [handleCardClick(card)].  [card] is the object found in the card map
    under its id; [moveToSlot] reaches it there unless the elimination has
    removed it from the map meanwhile. *)
Definition handleCardClick (host : Host) (card : Card.Card) (g : Game) : Game :=
  let '(success, sm, g1) :=
    SlotManager.addCard (onCardsEliminated host)
                        (SlotManager.mkCardData (Card.id card) (Card.type card))
                        (slotManager g) g in
  let g2 := set_slotManager sm g1 in
  if success then
    let cm :=
      CardManager.mk (JsMap.mutate (Card.moveToSlot (-1)) (Card.id card)
                                   (CardManager.cards (cardManager g2)))
                     (CardManager.nextId (cardManager g2)) in
    let g3 := set_cardManager (CardManager.updateCardStates cm) g2 in
    checkGameState host g3
  else g2.

(** [pauseGame()] *)
Definition pauseGame (g : Game) : Game :=
  if negb (isPlaying g) || isGameOver g then g
  else mk (cardManager g) (slotManager g) (levelManager g) (scoreManager g)
          (leaderboardManager g) (localStorage g) (negb (isPaused g))
          (isGameOver g) (isPlaying g) (pendingNextLevel g).

(** The listener of [cardClicked] bound by [bindGameEvents]. *)
Definition cardClicked (host : Host) (cardId : Z) (g : Game) : Game :=
  if negb (isPlaying g) || isPaused g then g
  else match CardManager.getCard cardId (cardManager g) with
       | Some card => if negb (Card.isDisabled card) then handleCardClick host card g
                      else g
       | None => g
       end.

End Game.

(** ** Concrete states *)

Module Examples.

(** A full leaderboard: scores 100, 90, ..., 10 with ranks 1 to 10. *)
Definition fullLeaderboard : LeaderboardManager.LeaderboardManager :=
  LeaderboardManager.mk
    (List.map (fun i => LeaderboardEntry.mk (Z.of_nat i) (110 - 10 * Z.of_nat i) 1 1
                          "2024-01-01T00:00:00.000Z" "p")
              (seq 1 10)).

(** What [Game.gameOver] passes to [addScore]: no player name. *)
Definition scoreData (score : Z) : LeaderboardManager.ScoreData :=
  LeaderboardManager.mkScoreData (Some score) (Some 3) (Some 2)
                                 (Some "2024-06-01T00:00:00.000Z"%string) None.

(** A field of two cards in which card 0 lies under card 1. *)
Definition stackedCards : CardManager.CardManager :=
  let cm1 := snd (CardManager.createCard 0 0 0 0 CardManager.new) in
  snd (CardManager.createCard 1 10 10 1 cm1).

Definition stackedField : CardManager.CardManager :=
  CardManager.updateCardStates stackedCards.

(** A field of three cards that do not overlap. *)
Definition flatField : CardManager.CardManager :=
  let cm1 := snd (CardManager.createCard 0 0 0 0 CardManager.new) in
  let cm2 := snd (CardManager.createCard 1 100 0 0 cm1) in
  let cm3 := snd (CardManager.createCard 2 200 0 0 cm2) in
  CardManager.updateCardStates cm3.



Definition host : Game.Host := Game.mkHost "2024-06-01T00:00:00.000Z" 0.

Definition gameOn (field : CardManager.CardManager) : Game.Game :=
  Game.mk field (SlotManager.initialize SlotManager.new) LevelManager.new
          (ScoreManager.new LocalStorage.empty)
          (LeaderboardManager.new LocalStorage.empty)
          LocalStorage.empty false false true 0.

(** The flat field after a click on card 0: the card is in the first slot. *)
Definition afterFirstClick : Game.Game :=
  Game.cardClicked host 0 (gameOn flatField).

(** A field of seven cards of seven types that do not overlap, and the
    game after clicks on the first six of them. *)
Definition sevenTypes : CardManager.CardManager :=
  CardManager.updateCardStates
    (fold_left
       (fun cm i =>
          snd (CardManager.createCard (Z.of_nat i) (inject_Z (100 * Z.of_nat i)) 0 0 cm))
       (seq 0 7) CardManager.new).

Definition sixClicked : Game.Game :=
  fold_left (fun g i => Game.cardClicked host (Z.of_nat i) g) (seq 0 6)
            (gameOn sevenTypes).

(** A slot queue filled with seven cards of seven types. *)
Definition fullSlots : SlotManager.SlotManager :=
  fold_left
    (fun sm i =>
       snd (fst (SlotManager.addCard SlotManager.record
                   (SlotManager.mkCardData (Z.of_nat i) (Z.of_nat i)) sm [])))
    (seq 0 7) (SlotManager.initialize SlotManager.new).

End Examples.

(** * Properties *)


(** *** Rounding is exact on the integers up to [2^53] *)

Lemma pow2_nonpos (e : Z) :
  (e <= 0)%Z -> (JsNumber.pow2 e == 1 / inject_Z (2 ^ (- e)))%Q.
Proof.
  intros He. unfold JsNumber.pow2.
  assert (Hpos : (0 < 2 ^ (- e))%Z) by (apply Z.pow_pos_nonneg; lia).
  destruct (Z.leb_spec 0 e) as [H0|Hneg].
  - assert (e = 0%Z) as -> by lia. reflexivity.
  - unfold Qeq, Qdiv, Qinv, Qmult, inject_Z. cbn [Qnum Qden].
    destruct (2 ^ (- e))%Z as [|p|p] eqn:E; try lia. reflexivity.
Qed.

Lemma roundHalfEven_Z (q : Q) (m : Z) :
  (q == inject_Z m)%Q -> JsNumber.roundHalfEven q = m.
Proof.
  intros Hq. unfold JsNumber.roundHalfEven.
  assert (Hf : Qfloor q = m) by (rewrite Hq; apply Qfloor_Z).
  rewrite Hf.
  assert (Hlt : Qcompare (q - inject_Z m) (1 # 2) = Lt).
  { apply Qlt_alt. rewrite Hq.
    assert (H0 : (inject_Z m - inject_Z m == 0)%Q) by ring.
    rewrite H0. reflexivity. }
  now rewrite Hlt.
Qed.

Lemma log2floor_Z_le (n : Z) :
  (JsNumber.log2floor (inject_Z n) <= Z.log2 n)%Z.
Proof.
  unfold JsNumber.log2floor, inject_Z. cbn [Qnum Qden].
  change (Z.log2 1) with 0%Z. rewrite Z.sub_0_r.
  destruct (Qle_bool _ _); lia.
Qed.

Lemma round_Z (q : Q) (n : Z) :
  (q == inject_Z n)%Q -> (Z.abs n < 2 ^ 53)%Z -> (JsNumber.round q == inject_Z n)%Q.
Proof.
  intros Hq Hn. unfold JsNumber.round.
  assert (Hred : Qred q = inject_Z n).
  { rewrite (Qred_complete _ _ Hq). apply Qcanon.Qred_identity. cbn. apply Z.gcd_1_r. }
  rewrite Hred.
  destruct (Qeq_bool (inject_Z n) 0) eqn:E0.
  - apply Qeq_bool_iff in E0. now rewrite E0.
  - set (e := JsNumber.ulpExponent (inject_Z n)).
    assert (He : (e <= 0)%Z).
    { subst e. unfold JsNumber.ulpExponent.
      assert (Habs : Qabs (inject_Z n) = inject_Z (Z.abs n)) by reflexivity.
      rewrite Habs. pose proof (log2floor_Z_le (Z.abs n)) as Hl.
      assert (Z.log2 (Z.abs n) < 53)%Z; [|lia].
      destruct (Z.eq_dec (Z.abs n) 0) as [->|Hne]; [cbn; lia|].
      apply Z.log2_lt_pow2; lia. }
    assert (Hpos : (0 < 2 ^ (- e))%Z) by (apply Z.pow_pos_nonneg; lia).
    assert (Hpow : ~ (inject_Z (2 ^ (- e)) == 0)%Q).
    { intros H. unfold Qeq, inject_Z in H. cbn [Qnum Qden] in H. lia. }
    rewrite (roundHalfEven_Z _ (n * 2 ^ (- e))).
    + rewrite (pow2_nonpos e He), inject_Z_mult. field. exact Hpow.
    + rewrite (pow2_nonpos e He), inject_Z_mult. field. exact Hpow.
Qed.

Lemma exactSumsOf_integer (a : Q) (n : Z) :
  (a == inject_Z n)%Q -> (Z.abs n <= 2 ^ 52)%Z -> CardManager.exactSumsOf a = true.
Proof.
  intros Ha Hn.
  unfold CardManager.exactSumsOf, JsNumber.add, JsNumber.sub,
    CardManager.cardSize, CardManager.offset.
  assert (H70 : (JsNumber.round (a + 70) == inject_Z (n + 70))%Q).
  { apply round_Z; [rewrite Ha, inject_Z_plus; reflexivity|lia]. }
  assert (H65 : (JsNumber.round (JsNumber.round (a + 70) - 5) == inject_Z (n + 65))%Q).
  { apply round_Z; [|lia]. rewrite H70, !inject_Z_plus. change (inject_Z 70) with 70%Q.
    change (inject_Z 65) with 65%Q. ring. }
  assert (H5 : (JsNumber.round (a + 5) == inject_Z (n + 5))%Q).
  { apply round_Z; [rewrite Ha, inject_Z_plus; reflexivity|lia]. }
  rewrite !andb_true_iff, !Qeq_bool_iff.
  repeat split.
  - eapply Qeq_trans; [exact H70|]. rewrite Ha, inject_Z_plus. reflexivity.
  - eapply Qeq_trans; [exact H65|]. rewrite Ha, inject_Z_plus.
    change (inject_Z 65) with 65%Q. ring.
  - eapply Qeq_trans; [exact H5|]. rewrite Ha, inject_Z_plus. reflexivity.
Qed.

(** Cards at integer coordinates of magnitude up to [2^52] have exact
    sums. *)
Lemma exactSums_integer (card : Card.Card) (n m : Z) :
  (Card.x card == inject_Z n)%Q -> (Card.y card == inject_Z m)%Q ->
  (Z.abs n <= 2 ^ 52)%Z -> (Z.abs m <= 2 ^ 52)%Z ->
  CardManager.exactSums card = true.
Proof.
  intros Hx Hy Hn Hm. unfold CardManager.exactSums.
  now rewrite (exactSumsOf_integer _ n Hx Hn), (exactSumsOf_integer _ m Hy Hm).
Qed.






(** ** Visibility recomputation *)

Lemma insert_sorted_Permutation {A} (le : A -> A -> bool) (a : A) (l : list A) :
  Permutation (JsArray.insert_sorted le a l) (a :: l).
Proof.
  induction l as [|b l IH]; simpl; [reflexivity|].
  destruct (le b a); [|reflexivity].
  rewrite IH. apply perm_swap.
Qed.

Lemma sort_acc_Permutation {A} (le : A -> A -> bool) (l acc : list A) :
  Permutation (fold_left (fun acc a => JsArray.insert_sorted le a acc) l acc)
              (l ++ acc).
Proof.
  revert acc. induction l as [|a l IH]; intros acc; simpl; [reflexivity|].
  rewrite IH, insert_sorted_Permutation.
  symmetry. apply Permutation_middle.
Qed.

Lemma sort_Permutation {A} (le : A -> A -> bool) (l : list A) :
  Permutation (JsArray.sort le l) l.
Proof.
  unfold JsArray.sort. rewrite sort_acc_Permutation. now rewrite app_nil_r.
Qed.

Lemma elem_of_cardRefs (m : JsMap.t Card.Card) (i : nat) (c : Card.Card) :
  (i, c) ∈ CardManager.cardRefs m <-> exists k, m !! i = Some (k, c).
Proof.
  unfold CardManager.cardRefs. rewrite elem_of_lookup_imap. split.
  - intros (j & [k c'] & Heq & Hj). simpl in Heq. inversion Heq; subst. eauto.
  - intros (k & Hk). exists i, (k, c). auto.
Qed.

Lemma setCovered_setCovered (b b' : bool) (c : Card.Card) :
  CardManager.setCovered b (CardManager.setCovered b' c) = CardManager.setCovered b c.
Proof. now destruct b, b'. Qed.

Lemma forEach_updateStep_lookup (cs l : list (nat * Card.Card))
      (m : JsMap.t Card.Card) :
  (forall i c, (i, c) ∈ l -> exists k, m !! i = Some (k, c)) ->
  forall j : nat,
    fold_left (CardManager.updateStep cs) l m !! j =
    if decide (j ∈ l.*1)
    then (fun kv => (fst kv, CardManager.setCovered
                               (CardManager.isCoveredIn cs (snd kv)) (snd kv)))
           <$> m !! j
    else m !! j.
Proof.
  induction l as [|a l IH] using rev_ind; intros Hl j.
  - simpl. destruct (decide (j ∈ [])) as [Hj|Hj]; [|reflexivity].
    now apply elem_of_nil in Hj.
  - destruct a as [i c]. rewrite fold_left_app.
    assert (Hl' : forall i c, (i, c) ∈ l -> exists k, m !! i = Some (k, c)).
    { intros i' c' Hin. apply Hl. apply elem_of_app. now left. }
    specialize (IH Hl').
    assert (Hmem : j ∈ (l ++ [(i, c)]).*1 <-> j ∈ l.*1 \/ j = i).
    { rewrite fmap_app, elem_of_app. cbn [fmap list_fmap fst].
      now rewrite list_elem_of_singleton. }
    cbn [fold_left]. unfold CardManager.updateStep at 1. cbn [fst snd].
    destruct (decide (i = j)) as [->|Hne].
    + rewrite list_lookup_alter_eq, IH.
      destruct (Hl j c) as [k Hk].
      { apply elem_of_app. right. now apply list_elem_of_singleton. }
      rewrite Hk.
      destruct (decide (j ∈ (l ++ [(j, c)]).*1)) as [_|Hn];
        [|exfalso; apply Hn, Hmem; now right].
      destruct (decide (j ∈ l.*1)); cbn;
        [now rewrite setCovered_setCovered | reflexivity].
    + rewrite list_lookup_alter_ne by assumption. rewrite IH.
      destruct (decide (j ∈ l.*1)) as [Hin|Hnin];
        destruct (decide (j ∈ (l ++ [(i, c)]).*1)) as [Hin'|Hnin'];
        try reflexivity; exfalso.
      * apply Hnin', Hmem. now left.
      * apply Hmem in Hin'. destruct Hin'; [tauto|congruence].
Qed.

Lemma elem_of_unslotted_refs (m : JsMap.t Card.Card) (i : nat) (c : Card.Card) :
  (i, c) ∈ JsArray.sort CardManager.layer_le
             (List.filter (fun rc => negb (Card.inSlot (snd rc)))
                          (CardManager.cardRefs m))
  <-> (exists k, m !! i = Some (k, c)) /\ Card.inSlot c = false.
Proof.
  rewrite (sort_Permutation CardManager.layer_le).
  rewrite list_elem_of_In, filter_In, <- list_elem_of_In, elem_of_cardRefs.
  cbn [snd]. rewrite negb_true_iff. reflexivity.
Qed.

Lemma isCoveredIn_true (cs : list (nat * Card.Card)) (c : Card.Card) :
  CardManager.isCoveredIn cs c = true <->
  exists j o, (j, o) ∈ cs /\ (Card.layer c < Card.layer o)%Z
              /\ Card.inSlot o = false /\ CardManager.checkOverlap c o = true.
Proof.
  unfold CardManager.isCoveredIn. rewrite existsb_exists. split.
  - intros [[j o] [Hin H]]. cbn [snd] in H.
    apply andb_true_iff in H as [H Hov]. apply andb_true_iff in H as [Hlay Hslot].
    apply negb_true_iff in Hlay, Hslot. apply Z.leb_gt in Hlay.
    exists j, o. rewrite list_elem_of_In. auto.
  - intros (j & o & Hin & Hlay & Hslot & Hov). exists (j, o).
    rewrite <- list_elem_of_In. split; [assumption|]. cbn [snd].
    rewrite Hov, Hslot. apply Z.leb_gt in Hlay. now rewrite Hlay.
Qed.

Lemma updateCardStates_lookup (cm : CardManager.CardManager) (j : nat) :
  CardManager.cards (CardManager.updateCardStates cm) !! j =
  (fun kv =>
     if Card.inSlot (snd kv) then kv
     else (fst kv,
           CardManager.setCovered
             (CardManager.isCoveredIn
                (JsArray.sort CardManager.layer_le
                   (List.filter (fun rc => negb (Card.inSlot (snd rc)))
                                (CardManager.cardRefs (CardManager.cards cm))))
                (snd kv))
             (snd kv)))
    <$> CardManager.cards cm !! j.
Proof.
  unfold CardManager.updateCardStates. cbn [CardManager.cards].
  rewrite forEach_updateStep_lookup.
  2:{ intros i c Hin. now apply elem_of_unslotted_refs in Hin as [Hex _]. }
  destruct (CardManager.cards cm !! j) as [[k c]|] eqn:Hj; cbn.
  - destruct (decide _) as [Hin|Hnin].
    + apply list_elem_of_fmap in Hin as ([j' c'] & Heq & Hin). cbn in Heq. subst j'.
      apply elem_of_unslotted_refs in Hin as [[k' Hk'] Hslot].
      rewrite Hj in Hk'. inversion Hk'; subst. cbn. now rewrite Hslot.
    + destruct (Card.inSlot c) eqn:Hslot; [reflexivity|].
      exfalso. apply Hnin. apply list_elem_of_fmap. exists (j, c). split; [reflexivity|].
      apply elem_of_unslotted_refs. eauto.
  - now destruct (decide _).
Qed.

Lemma setCovered_fields (b : bool) (c : Card.Card) :
  Card.id (CardManager.setCovered b c) = Card.id c
  /\ Card.type (CardManager.setCovered b c) = Card.type c
  /\ Card.x (CardManager.setCovered b c) = Card.x c
  /\ Card.y (CardManager.setCovered b c) = Card.y c
  /\ Card.layer (CardManager.setCovered b c) = Card.layer c
  /\ Card.inSlot (CardManager.setCovered b c) = Card.inSlot c
  /\ Card.isDisabled (CardManager.setCovered b c) = b.
Proof. destruct b; cbn; auto 10. Qed.

Lemma checkOverlap_setCovered (b b' : bool) (c o : Card.Card) :
  CardManager.checkOverlap (CardManager.setCovered b c) (CardManager.setCovered b' o)
  = CardManager.checkOverlap c o.
Proof. now destruct b, b'. Qed.

(** What one entry of the map becomes: a slotted card is left alone, any
    other card keeps every field but [isDisabled]. *)
Lemma updateCardStates_entry (cm : CardManager.CardManager) (j : nat) (k : Z)
      (c' : Card.Card) :
  CardManager.cards (CardManager.updateCardStates cm) !! j = Some (k, c') ->
  exists c b, CardManager.cards cm !! j = Some (k, c)
              /\ c' = (if Card.inSlot c then c else CardManager.setCovered b c)
              /\ (Card.inSlot c = false ->
                  b = CardManager.isCoveredIn
                        (JsArray.sort CardManager.layer_le
                           (List.filter (fun rc => negb (Card.inSlot (snd rc)))
                              (CardManager.cardRefs (CardManager.cards cm)))) c).
Proof.
  rewrite updateCardStates_lookup.
  destruct (CardManager.cards cm !! j) as [[k0 c]|]; cbn; [|discriminate].
  intros H. destruct (Card.inSlot c) eqn:Hs.
  - inversion H; subst. exists c', false. rewrite Hs.
    repeat split; congruence.
  - inversion H; subst. eexists c, _. rewrite Hs. split; [reflexivity|].
    split; [reflexivity|]. reflexivity.
Qed.

(** C1. After [updateCardStates], a non-slotted card of the field is
    disabled exactly when another non-slotted card of the field has a
    strictly greater layer and overlaps it ([checkOverlap]); every other
    non-slotted card is enabled.  Cards are named by their position [i]
    in the map, so "another" is [j <> i]. *)
Theorem updateCardStates_disabled_iff_covered
        (cm : CardManager.CardManager) (i : nat) (k : Z) (c : Card.Card) :
  CardManager.cards (CardManager.updateCardStates cm) !! i = Some (k, c) ->
  Card.inSlot c = false ->
  (Card.isDisabled c = true <->
   exists (j : nat) (k' : Z) (o : Card.Card),
     CardManager.cards (CardManager.updateCardStates cm) !! j = Some (k', o)
     /\ j <> i
     /\ Card.inSlot o = false
     /\ (Card.layer c < Card.layer o)%Z
     /\ CardManager.checkOverlap c o = true)
  /\ (Card.isDisabled c = false <->
      ~ exists (j : nat) (k' : Z) (o : Card.Card),
          CardManager.cards (CardManager.updateCardStates cm) !! j = Some (k', o)
          /\ j <> i
          /\ Card.inSlot o = false
          /\ (Card.layer c < Card.layer o)%Z
          /\ CardManager.checkOverlap c o = true).
Proof.
  intros Hi Hslot.
  assert (Hmain :
    Card.isDisabled c = true <->
    exists (j : nat) (k' : Z) (o : Card.Card),
      CardManager.cards (CardManager.updateCardStates cm) !! j = Some (k', o)
      /\ j <> i /\ Card.inSlot o = false
      /\ (Card.layer c < Card.layer o)%Z
      /\ CardManager.checkOverlap c o = true).
  { destruct (updateCardStates_entry cm i k c Hi) as (c0 & b & H0 & -> & Hb).
    destruct (Card.inSlot c0) eqn:Hs0; [congruence|].
    specialize (Hb eq_refl).
    destruct (setCovered_fields b c0) as (_ & _ & _ & _ & Hlay & _ & Hdis).
    rewrite Hdis, Hlay, Hb, isCoveredIn_true. split.
    - intros (j & o & Hin & Hlt & Hso & Hov).
      apply elem_of_unslotted_refs in Hin as [[k' Hj] _].
      exists j, k'.
      exists (CardManager.setCovered
                (CardManager.isCoveredIn
                   (JsArray.sort CardManager.layer_le
                      (List.filter (fun rc => negb (Card.inSlot (snd rc)))
                         (CardManager.cardRefs (CardManager.cards cm)))) o) o).
      destruct (setCovered_fields
                  (CardManager.isCoveredIn
                     (JsArray.sort CardManager.layer_le
                        (List.filter (fun rc => negb (Card.inSlot (snd rc)))
                           (CardManager.cardRefs (CardManager.cards cm)))) o) o)
        as (_ & _ & _ & _ & Hlay' & Hs' & _).
      rewrite updateCardStates_lookup, Hj. cbn. rewrite Hso, Hs', Hlay'.
      rewrite <- Hb, checkOverlap_setCovered.
      repeat split; try assumption.
      intros ->. rewrite H0 in Hj. inversion Hj; subst. lia.
    - intros (j & k' & o & Hj & Hne & Hso & Hlt & Hov).
      destruct (updateCardStates_entry cm j k' o Hj) as (o0 & b' & Hj0 & -> & _).
      destruct (Card.inSlot o0) eqn:Hso0; [congruence|].
      destruct (setCovered_fields b' o0) as (_ & _ & _ & _ & Hlay' & _ & _).
      rewrite <- Hb, checkOverlap_setCovered in Hov. rewrite Hlay' in Hlt.
      exists j, o0. repeat split; try assumption.
      apply elem_of_unslotted_refs. eauto. }
  split; [exact Hmain|].
  rewrite <- Hmain. destruct (Card.isDisabled c); split; congruence.
Qed.

Lemma updateCardStates_disabled_iff_covered_witness :
  Card.isDisabled (Card.mk 0 0 0 0 0 true false) = true <->
  exists (j : nat) (k' : Z) (o : Card.Card),
    CardManager.cards (CardManager.updateCardStates Examples.stackedCards) !! j
    = Some (k', o)
    /\ j <> 0%nat
    /\ Card.inSlot o = false
    /\ (Card.layer (Card.mk 0 0 0 0 0 true false) < Card.layer o)%Z
    /\ CardManager.checkOverlap (Card.mk 0 0 0 0 0 true false) o = true.
Proof.
  apply (updateCardStates_disabled_iff_covered Examples.stackedCards 0 0
           (Card.mk 0 0 0 0 0 true false)).
  - vm_compute. reflexivity.
  - reflexivity.
Defined.


(** ** Score and combo *)

Lemma addEliminationScore_fields (n : Z) (sm : ScoreManager.ScoreManager)
      (st : LocalStorage.t) :
  let '(points, sm1, _) := ScoreManager.addEliminationScore n sm st in
  points = n * 10 + (ScoreManager.combo sm + 1) * 20
  /\ ScoreManager.combo sm1 = ScoreManager.combo sm + 1
  /\ ScoreManager.currentScore sm1 = ScoreManager.currentScore sm + points
  /\ ScoreManager.eliminationCount sm1 = ScoreManager.eliminationCount sm + 1.
Proof.
  unfold ScoreManager.addEliminationScore, ScoreManager.updateHighScore.
  destruct (Z.ltb _ _); cbn; auto.
Qed.

(** C4. [addEliminationScore] increments the combo before computing the
    points and returns [cardsEliminated * 10 + combo * 20].  From combo 0
    (and score 0), three calls with 3 cards return 50, 70 and 90, with
    combos 1, 2, 3 and a running total of 210; after [resetCombo] a further
    such call returns 50. *)
Theorem addEliminationScore_combo_sequence
        (sm : ScoreManager.ScoreManager) (st : LocalStorage.t) :
  ScoreManager.combo sm = 0 ->
  ScoreManager.currentScore sm = 0 ->
  (forall (n : Z) (sm0 : ScoreManager.ScoreManager) (st0 : LocalStorage.t),
      let '(points, sm1, _) := ScoreManager.addEliminationScore n sm0 st0 in
      ScoreManager.combo sm1 = ScoreManager.combo sm0 + 1
      /\ points = n * 10 + ScoreManager.combo sm1 * 20)
  /\ let '(p1, sm1, st1) := ScoreManager.addEliminationScore 3 sm st in
     let '(p2, sm2, st2) := ScoreManager.addEliminationScore 3 sm1 st1 in
     let '(p3, sm3, st3) := ScoreManager.addEliminationScore 3 sm2 st2 in
     let '(p4, sm4, _) :=
       ScoreManager.addEliminationScore 3 (ScoreManager.resetCombo sm3) st3 in
     [p1; p2; p3] = [50; 70; 90]
     /\ [ScoreManager.combo sm1; ScoreManager.combo sm2; ScoreManager.combo sm3]
        = [1; 2; 3]
     /\ ScoreManager.currentScore sm3 = 210
     /\ ScoreManager.combo (ScoreManager.resetCombo sm3) = 0
     /\ ScoreManager.currentScore (ScoreManager.resetCombo sm3) = 210
     /\ p4 = 50
     /\ ScoreManager.combo sm4 = 1.
Proof.
  intros Hcombo Hscore. split.
  - intros n sm0 st0. pose proof (addEliminationScore_fields n sm0 st0) as H.
    destruct (ScoreManager.addEliminationScore n sm0 st0) as [[points sm1] st1].
    destruct H as (Hp & Hc & _). split; [exact Hc|]. rewrite Hc. exact Hp.
  - pose proof (addEliminationScore_fields 3 sm st) as H1.
    destruct (ScoreManager.addEliminationScore 3 sm st) as [[p1 sm1] st1].
    pose proof (addEliminationScore_fields 3 sm1 st1) as H2.
    destruct (ScoreManager.addEliminationScore 3 sm1 st1) as [[p2 sm2] st2].
    pose proof (addEliminationScore_fields 3 sm2 st2) as H3.
    destruct (ScoreManager.addEliminationScore 3 sm2 st2) as [[p3 sm3] st3].
    pose proof (addEliminationScore_fields 3 (ScoreManager.resetCombo sm3) st3) as H4.
    destruct (ScoreManager.addEliminationScore 3 (ScoreManager.resetCombo sm3) st3)
      as [[p4 sm4] st4].
    cbn [ScoreManager.resetCombo ScoreManager.combo ScoreManager.currentScore] in *.
    destruct H1 as (? & ? & ? & _), H2 as (? & ? & ? & _), H3 as (? & ? & ? & _),
      H4 as (? & ? & ? & _).
    assert (p1 = 50) by lia. assert (p2 = 70) by lia. assert (p3 = 90) by lia.
    assert (p4 = 50) by lia.
    assert (ScoreManager.combo sm1 = 1) by lia.
    assert (ScoreManager.combo sm2 = 2) by lia.
    assert (ScoreManager.combo sm3 = 3) by lia.
    repeat split; try congruence; lia.
Qed.

Lemma addEliminationScore_combo_sequence_witness :
  let sm := ScoreManager.new LocalStorage.empty in
  let st := LocalStorage.empty in
  let '(p1, sm1, st1) := ScoreManager.addEliminationScore 3 sm st in
  let '(p2, sm2, st2) := ScoreManager.addEliminationScore 3 sm1 st1 in
  let '(p3, sm3, st3) := ScoreManager.addEliminationScore 3 sm2 st2 in
  let '(p4, sm4, _) :=
    ScoreManager.addEliminationScore 3 (ScoreManager.resetCombo sm3) st3 in
  [p1; p2; p3] = [50; 70; 90]
  /\ [ScoreManager.combo sm1; ScoreManager.combo sm2; ScoreManager.combo sm3]
     = [1; 2; 3]
  /\ ScoreManager.currentScore sm3 = 210
  /\ ScoreManager.combo (ScoreManager.resetCombo sm3) = 0
  /\ ScoreManager.currentScore (ScoreManager.resetCombo sm3) = 210
  /\ p4 = 50
  /\ ScoreManager.combo sm4 = 1.
Proof.
  apply (addEliminationScore_combo_sequence
           (ScoreManager.new LocalStorage.empty) LocalStorage.empty).
  - reflexivity.
  - reflexivity.
Defined.


(** ** Slot queue *)

Lemma typeCount_AABACBB (A B C : Z) (i0 i1 i2 i3 i4 i5 i6 : Z) :
  A <> B -> A <> C -> B <> C ->
  SlotManager.typeCount
    [Some (SlotManager.mkCardData i0 A); Some (SlotManager.mkCardData i1 A);
     Some (SlotManager.mkCardData i2 B); Some (SlotManager.mkCardData i3 A);
     Some (SlotManager.mkCardData i4 C); Some (SlotManager.mkCardData i5 B);
     Some (SlotManager.mkCardData i6 B)]
  = [(A, [0; 1; 3]%nat); (B, [2; 5; 6]%nat); (C, [4]%nat)].
Proof.
  intros HAB HAC HBC.
  assert (EAB : Z.eqb A B = false) by now apply Z.eqb_neq.
  assert (EAC : Z.eqb A C = false) by now apply Z.eqb_neq.
  assert (EBC : Z.eqb B C = false) by now apply Z.eqb_neq.
  assert (EBA : Z.eqb B A = false) by (apply Z.eqb_neq; congruence).
  assert (ECA : Z.eqb C A = false) by (apply Z.eqb_neq; congruence).
  assert (ECB : Z.eqb C B = false) by (apply Z.eqb_neq; congruence).
  unfold SlotManager.typeCount.
  cbn -[Z.eqb].
  repeat (rewrite ?Z.eqb_refl, ?EAB, ?EAC, ?EBC, ?EBA, ?ECA, ?ECB; cbn -[Z.eqb]).
  reflexivity.
Qed.

(** The enumeration order of three entries is one of their six orders. *)
Lemma forInEntries_three {V} (a b c : Z * V) :
  In (JsObject.forInEntries [a; b; c])
     [[a; b; c]; [a; c; b]; [b; a; c]; [b; c; a]; [c; a; b]; [c; b; a]].
Proof.
  unfold JsObject.forInEntries. cbn [List.filter].
  destruct (JsObject.isArrayIndex (fst a)), (JsObject.isArrayIndex (fst b)),
    (JsObject.isArrayIndex (fst c));
    cbn [negb app]; unfold JsArray.sort; cbn [fold_left JsArray.insert_sorted];
    repeat (match goal with
            | |- context [JsObject.key_le ?u ?v] => destruct (JsObject.key_le u v)
            end; cbn [JsArray.insert_sorted]);
    cbn [app In]; tauto.
Qed.

(** C2. On the slot types [[A; A; B; A; C; B; B]] with [A], [B], [C]
    pairwise distinct, one pass of [checkForElimination] clears the
    indices 0, 1, 3 (the first three of type [A]) and 2, 5, 6 (the first
    three of type [B]), raises exactly two events, one for [A] and one for
    [B], and after compaction the only occupied slot is the first one, with
    the entry of type [C]. *)
Theorem checkForElimination_AABACBB (A B C : Z) (i0 i1 i2 i3 i4 i5 i6 : Z)
        (init : bool) :
  A <> B -> A <> C -> B <> C ->
  let sm :=
    SlotManager.mk
      [Some (SlotManager.mkCardData i0 A); Some (SlotManager.mkCardData i1 A);
       Some (SlotManager.mkCardData i2 B); Some (SlotManager.mkCardData i3 A);
       Some (SlotManager.mkCardData i4 C); Some (SlotManager.mkCardData i5 B);
       Some (SlotManager.mkCardData i6 B)] init in
  let '(_, cleared, _) :=
    fold_left (SlotManager.eliminateType SlotManager.record)
              (JsObject.forInEntries (SlotManager.typeCount (SlotManager.slots sm)))
              (false, sm, []) in
  let '(eliminated, sm', events) :=
    SlotManager.checkForElimination SlotManager.record sm [] in
  SlotManager.slots cleared
  = [None; None; None; None; Some (SlotManager.mkCardData i4 C); None; None]
  /\ eliminated = true
  /\ length events = 2%nat
  /\ Permutation events [SlotManager.mkEliminated A [0; 1; 3]%nat;
                         SlotManager.mkEliminated B [2; 5; 6]%nat]
  /\ SlotManager.slots sm'
     = [Some (SlotManager.mkCardData i4 C); None; None; None; None; None; None]
  /\ SlotManager.getCardCount sm' = 1%nat.
Proof.
  intros HAB HAC HBC. cbv zeta.
  unfold SlotManager.checkForElimination. cbn [SlotManager.slots].
  rewrite typeCount_AABACBB by assumption.
  pose proof (forInEntries_three (A, [0; 1; 3]%nat) (B, [2; 5; 6]%nat) (C, [4]%nat))
    as Horder.
  destruct Horder as [<- | [<- | [<- | [<- | [<- | [<- | []]]]]]];
    vm_compute; repeat split; try reflexivity; apply perm_swap.
Qed.

Lemma checkForElimination_AABACBB_witness :
  let sm :=
    SlotManager.mk
      [Some (SlotManager.mkCardData 10 0); Some (SlotManager.mkCardData 11 0);
       Some (SlotManager.mkCardData 12 1); Some (SlotManager.mkCardData 13 0);
       Some (SlotManager.mkCardData 14 2); Some (SlotManager.mkCardData 15 1);
       Some (SlotManager.mkCardData 16 1)] true in
  let '(_, cleared, _) :=
    fold_left (SlotManager.eliminateType SlotManager.record)
              (JsObject.forInEntries (SlotManager.typeCount (SlotManager.slots sm)))
              (false, sm, []) in
  let '(eliminated, sm', events) :=
    SlotManager.checkForElimination SlotManager.record sm [] in
  SlotManager.slots cleared
  = [None; None; None; None; Some (SlotManager.mkCardData 14 2); None; None]
  /\ eliminated = true
  /\ length events = 2%nat
  /\ Permutation events [SlotManager.mkEliminated 0 [0; 1; 3]%nat;
                         SlotManager.mkEliminated 1 [2; 5; 6]%nat]
  /\ SlotManager.slots sm'
     = [Some (SlotManager.mkCardData 14 2); None; None; None; None; None; None]
  /\ SlotManager.getCardCount sm' = 1%nat.
Proof.
  apply (checkForElimination_AABACBB 0 1 2 10 11 12 13 14 15 16 true); lia.
Defined.


Lemma findIndex_None {A} (p : A -> bool) (l : list A) :
  JsArray.findIndex p l = None <-> forall a, In a l -> p a = false.
Proof.
  induction l as [|b l IH]; cbn.
  - split; [intros _ a []|reflexivity].
  - destruct (p b) eqn:Hb.
    + split; [discriminate|]. intros H. specialize (H b (or_introl eq_refl)). congruence.
    + destruct (JsArray.findIndex p l); cbn.
      * split; [discriminate|]. intros H.
        assert (None = Some n :> option nat); [|discriminate].
        symmetry. apply IH. intros a Ha. apply H. now right.
      * split; [|reflexivity]. intros _ a [<-|Ha]; [assumption|].
        now apply (proj1 IH).
Qed.

Lemma findIndex_Some {A} (p : A -> bool) (l : list A) (i : nat) :
  JsArray.findIndex p l = Some i <->
  (exists a, l !! i = Some a /\ p a = true)
  /\ (forall j b, (j < i)%nat -> l !! j = Some b -> p b = false).
Proof.
  revert i. induction l as [|b l IH]; intros i; cbn.
  - split; [discriminate|]. intros [(a & Ha & _) _]. discriminate.
  - destruct (p b) eqn:Hb.
    + split.
      * intros [= <-]. split; [exists b; auto|]. intros j c Hj. lia.
      * intros [(a & Ha & Hpa) Hlt]. destruct i as [|i]; [reflexivity|].
        specialize (Hlt 0%nat b ltac:(lia) eq_refl). congruence.
    + destruct i as [|i].
      * split.
        -- destruct (JsArray.findIndex p l); discriminate.
        -- intros [(a & Ha & Hpa) _]. cbn in Ha. congruence.
      * specialize (IH i). split.
        -- intros H. destruct (JsArray.findIndex p l) as [i'|]; [|discriminate].
           cbn in H. assert (i' = i) by congruence. subst i'.
           destruct (proj1 IH eq_refl) as [Hex Hlt]. split; [exact Hex|].
           intros [|j] c Hj Hc; cbn in Hc; [congruence|]. apply (Hlt j); [lia|assumption].
        -- intros [Hex Hlt].
           rewrite (proj2 IH); [reflexivity|]. split; [exact Hex|].
           intros j c Hj Hc. apply (Hlt (S j)); [lia|exact Hc].
Qed.

Lemma length_filter_le {A} (f : A -> bool) (l : list A) :
  (length (List.filter f l) <= length l)%nat.
Proof.
  induction l as [|a l IH]; cbn; [lia|]. destruct (f a); cbn; lia.
Qed.

Lemma length_filter_all {A} (f : A -> bool) (l : list A) :
  length (List.filter f l) = length l -> forall a, In a l -> f a = true.
Proof.
  induction l as [|b l IH]; cbn; [intros _ a []|].
  pose proof (length_filter_le f l) as Hle.
  destruct (f b) eqn:Hb; cbn; intros Hlen a [<-|Ha]; try assumption; try lia.
  apply IH; [lia|assumption].
Qed.

Lemma length_fold_insert {A B} (f : B -> nat) (g : B -> A) (l : list B) (sl : list A) :
  length (fold_left (fun sl b => <[f b := g b]> sl) l sl) = length sl.
Proof.
  revert sl. induction l as [|b l IH]; intros sl; cbn; [reflexivity|].
  now rewrite IH, length_insert.
Qed.

Lemma compactSlots_length (sm : SlotManager.SlotManager) :
  length (SlotManager.slots (SlotManager.compactSlots sm))
  = length (SlotManager.slots sm).
Proof.
  unfold SlotManager.compactSlots. cbn [SlotManager.slots].
  now rewrite (length_fold_insert fst snd), length_replicate.
Qed.

Lemma eliminateType_length {X} (d : SlotManager.Eliminated -> SlotManager.SlotManager -> X -> X)
      (st : bool * SlotManager.SlotManager * X) (entry : Z * list nat) :
  length (SlotManager.slots (snd (fst (SlotManager.eliminateType d st entry))))
  = length (SlotManager.slots (snd (fst st))).
Proof.
  destruct st as [[e sm] x]. unfold SlotManager.eliminateType.
  destruct (Nat.leb 3 _); cbn; [|reflexivity].
  apply (length_fold_insert (fun i => i) (fun _ => None)).
Qed.

Lemma forIn_eliminateType_length {X}
      (d : SlotManager.Eliminated -> SlotManager.SlotManager -> X -> X)
      (entries : list (Z * list nat)) (st : bool * SlotManager.SlotManager * X) :
  length (SlotManager.slots
            (snd (fst (fold_left (SlotManager.eliminateType d) entries st))))
  = length (SlotManager.slots (snd (fst st))).
Proof.
  revert st. induction entries as [|entry entries IH]; intros st; cbn; [reflexivity|].
  now rewrite IH, eliminateType_length.
Qed.

Lemma checkForElimination_length {X}
      (d : SlotManager.Eliminated -> SlotManager.SlotManager -> X -> X)
      (sm : SlotManager.SlotManager) (x : X) :
  length (SlotManager.slots (snd (fst (SlotManager.checkForElimination d sm x))))
  = length (SlotManager.slots sm).
Proof.
  unfold SlotManager.checkForElimination.
  pose proof (forIn_eliminateType_length d
                (JsObject.forInEntries (SlotManager.typeCount (SlotManager.slots sm)))
                (false, sm, x)) as H.
  destruct (fold_left _ _ _) as [[e sm1] x1]. cbn in H.
  destruct e; cbn [fst snd]; [now rewrite compactSlots_length|assumption].
Qed.

Lemma addCard_length {X}
      (d : SlotManager.Eliminated -> SlotManager.SlotManager -> X -> X)
      (cardData : SlotManager.CardData) (sm : SlotManager.SlotManager) (x : X) :
  length (SlotManager.slots (snd (fst (SlotManager.addCard d cardData sm x))))
  = length (SlotManager.slots sm).
Proof.
  unfold SlotManager.addCard.
  destruct (JsArray.findIndex _ _) as [i|]; [|reflexivity].
  pose proof (checkForElimination_length d
                (SlotManager.mk (<[i := Some cardData]> (SlotManager.slots sm))
                                (SlotManager.initialized sm)) x) as H.
  destruct (SlotManager.checkForElimination _ _ _) as [[e sm2] x2].
  cbn in *. now rewrite H, length_insert.
Qed.

(** The slot array has length 0 before [initialize()] and 7 ever after. *)
Lemma reachable_length (sm : SlotManager.SlotManager) :
  SlotManager.reachable sm ->
  length (SlotManager.slots sm) = 0%nat
  \/ length (SlotManager.slots sm) = SlotManager.maxSlots.
Proof.
  induction 1 as [|sm _ IH|sm cd log _ IH|sm log _ IH|sm _ IH|sm _ IH].
  - now left.
  - unfold SlotManager.initialize. destruct (SlotManager.initialized sm); [exact IH|].
    right. reflexivity.
  - now rewrite addCard_length.
  - now rewrite checkForElimination_length.
  - now rewrite compactSlots_length.
  - unfold SlotManager.clearAll. cbn. now rewrite length_replicate.
Qed.

Lemma forIn_eliminateType_initialized {X}
      (d : SlotManager.Eliminated -> SlotManager.SlotManager -> X -> X)
      (entries : list (Z * list nat)) (st : bool * SlotManager.SlotManager * X) :
  SlotManager.initialized
    (snd (fst (fold_left (SlotManager.eliminateType d) entries st)))
  = SlotManager.initialized (snd (fst st)).
Proof.
  revert st. induction entries as [|entry entries IH]; intros st; cbn; [reflexivity|].
  rewrite IH. destruct st as [[e sm] x]. unfold SlotManager.eliminateType.
  now destruct (Nat.leb 3 _).
Qed.

Lemma checkForElimination_initialized {X}
      (d : SlotManager.Eliminated -> SlotManager.SlotManager -> X -> X)
      (sm : SlotManager.SlotManager) (x : X) :
  SlotManager.initialized (snd (fst (SlotManager.checkForElimination d sm x)))
  = SlotManager.initialized sm.
Proof.
  unfold SlotManager.checkForElimination.
  pose proof (forIn_eliminateType_initialized d
                (JsObject.forInEntries (SlotManager.typeCount (SlotManager.slots sm)))
                (false, sm, x)) as H.
  destruct (fold_left _ _ _) as [[e sm1] x1]. cbn in H.
  now destruct e.
Qed.

Lemma addCard_initialized {X}
      (d : SlotManager.Eliminated -> SlotManager.SlotManager -> X -> X)
      (cardData : SlotManager.CardData) (sm : SlotManager.SlotManager) (x : X) :
  SlotManager.initialized (snd (fst (SlotManager.addCard d cardData sm x)))
  = SlotManager.initialized sm.
Proof.
  unfold SlotManager.addCard.
  destruct (JsArray.findIndex _ _) as [i|]; [|reflexivity].
  pose proof (checkForElimination_initialized d
                (SlotManager.mk (<[i := Some cardData]> (SlotManager.slots sm))
                                (SlotManager.initialized sm)) x) as H.
  destruct (SlotManager.checkForElimination _ _ _) as [[e sm2] x2].
  exact H.
Qed.

(** Once initialized, the slot array has its 7 slots. *)
Lemma reachable_initialized_length (sm : SlotManager.SlotManager) :
  SlotManager.reachable sm ->
  SlotManager.initialized sm = true ->
  length (SlotManager.slots sm) = SlotManager.maxSlots.
Proof.
  induction 1 as [|sm _ IH|sm cd log _ IH|sm log _ IH|sm _ IH|sm _ IH].
  - discriminate.
  - unfold SlotManager.initialize.
    destruct (SlotManager.initialized sm) eqn:Hi; [intros _; now apply IH|reflexivity].
  - rewrite addCard_initialized, addCard_length. exact IH.
  - rewrite checkForElimination_initialized, checkForElimination_length. exact IH.
  - rewrite compactSlots_length. exact IH.
  - unfold SlotManager.clearAll. cbn. rewrite length_replicate. exact IH.
Qed.

Lemma filter_all {A} (f : A -> bool) (l : list A) :
  (forall a, In a l -> f a = true) -> List.filter f l = l.
Proof.
  induction l as [|b l IH]; intros H; cbn; [reflexivity|].
  rewrite (H b (or_introl eq_refl)). f_equal. apply IH. intros a Ha. apply H. now right.
Qed.

(** A slot array with fewer occupied slots than slots has a first empty
    slot. *)
Lemma first_empty_slot (sl : list (option SlotManager.CardData)) :
  (length (List.filter (fun slot => negb (SlotManager.isNull slot)) sl) < length sl)%nat ->
  exists i, JsArray.findIndex SlotManager.isNull sl = Some i
            /\ sl !! i = Some None
            /\ (forall j, (j < i)%nat -> sl !! j <> Some None).
Proof.
  intros Hlt.
  destruct (JsArray.findIndex SlotManager.isNull sl) as [i|] eqn:Hfind.
  - exists i. split; [reflexivity|].
    apply findIndex_Some in Hfind as [(slot & Hi & Hnull) Hfirst].
    destruct slot; [discriminate|]. split; [exact Hi|].
    intros j Hj Hnone. specialize (Hfirst j None Hj Hnone). discriminate.
  - exfalso. rewrite filter_all in Hlt; [lia|].
    intros slot Hin. apply negb_true_iff. revert slot Hin. now apply findIndex_None.
Qed.

Lemma eliminateType_flag {X}
      (d : SlotManager.Eliminated -> SlotManager.SlotManager -> X -> X)
      (st : bool * SlotManager.SlotManager * X) (entry : Z * list nat) :
  (fst (fst st) = true -> fst (fst (SlotManager.eliminateType d st entry)) = true)
  /\ (fst (fst (SlotManager.eliminateType d st entry)) = false ->
      SlotManager.eliminateType d st entry = st).
Proof.
  destruct st as [[e sm] x]. unfold SlotManager.eliminateType.
  destruct (Nat.leb 3 _); cbn; split; congruence.
Qed.

Lemma forIn_eliminateType_flag {X}
      (d : SlotManager.Eliminated -> SlotManager.SlotManager -> X -> X)
      (entries : list (Z * list nat)) (st : bool * SlotManager.SlotManager * X) :
  (fst (fst st) = true ->
   fst (fst (fold_left (SlotManager.eliminateType d) entries st)) = true)
  /\ (fst (fst (fold_left (SlotManager.eliminateType d) entries st)) = false ->
      fold_left (SlotManager.eliminateType d) entries st = st).
Proof.
  revert st. induction entries as [|entry entries IH]; intros st; cbn.
  - split; [auto|reflexivity].
  - destruct (IH (SlotManager.eliminateType d st entry)) as [IHt IHf].
    destruct (eliminateType_flag d st entry) as [Ht Hf]. split.
    + auto.
    + intros H. rewrite (IHf H). apply Hf.
      destruct (fst (fst (SlotManager.eliminateType d st entry))) eqn:E; [|reflexivity].
      rewrite (IHt eq_refl) in H. discriminate.
Qed.

(** A pass that eliminates nothing leaves the slots and the listeners'
    state as they were. *)
Lemma checkForElimination_false {X}
      (d : SlotManager.Eliminated -> SlotManager.SlotManager -> X -> X)
      (sm : SlotManager.SlotManager) (x : X) :
  fst (fst (SlotManager.checkForElimination d sm x)) = false ->
  SlotManager.checkForElimination d sm x = (false, sm, x).
Proof.
  unfold SlotManager.checkForElimination.
  destruct (forIn_eliminateType_flag d
              (JsObject.forInEntries (SlotManager.typeCount (SlotManager.slots sm)))
              (false, sm, x)) as [_ Hf].
  destruct (fold_left _ _ _) as [[e sm1] x1]. destruct e; cbn; [discriminate|].
  intros _. cbn in Hf. now rewrite (Hf eq_refl).
Qed.

(** C3. In every state the slot manager can reach, at most 7 slots are
    occupied, also after [addCard]; [addCard] on a queue with 7 occupied
    slots returns [false] and changes neither the slots nor anything else;
    an initialized queue with fewer than 7 occupied slots has a first empty
    slot; and when [i] is the first empty slot, [addCard] returns [true]
    after writing the card into slot [i] and running the elimination pass
    on the result: if that pass eliminates nothing, the slots afterwards
    are the old ones with the card at [i]. *)
Theorem addCard_capacity (sm : SlotManager.SlotManager)
        (cardData : SlotManager.CardData) (log : list SlotManager.Eliminated) :
  SlotManager.reachable sm ->
  (SlotManager.getCardCount sm <= SlotManager.maxSlots)%nat
  /\ (SlotManager.getCardCount
        (snd (fst (SlotManager.addCard SlotManager.record cardData sm log)))
      <= SlotManager.maxSlots)%nat
  /\ (SlotManager.getCardCount sm = SlotManager.maxSlots ->
      SlotManager.addCard SlotManager.record cardData sm log = (false, sm, log))
  /\ (SlotManager.initialized sm = true ->
      (SlotManager.getCardCount sm < SlotManager.maxSlots)%nat ->
      exists i : nat,
        SlotManager.slots sm !! i = Some None
        /\ (forall j, (j < i)%nat -> SlotManager.slots sm !! j <> Some None)
        /\ fst (fst (SlotManager.addCard SlotManager.record cardData sm log)) = true)
  /\ (forall i : nat,
         SlotManager.slots sm !! i = Some None ->
         (forall j, (j < i)%nat -> SlotManager.slots sm !! j <> Some None) ->
         let placed :=
           SlotManager.mk (<[i := Some cardData]> (SlotManager.slots sm))
                          (SlotManager.initialized sm) in
         SlotManager.slots placed !! i = Some (Some cardData)
         /\ SlotManager.addCard SlotManager.record cardData sm log
            = (let '(_, sm', log') :=
                 SlotManager.checkForElimination SlotManager.record placed log in
               (true, sm', log'))
         /\ (fst (fst (SlotManager.checkForElimination SlotManager.record placed log))
             = false ->
             SlotManager.addCard SlotManager.record cardData sm log
             = (true, placed, log))).
Proof.
  intros Hreach.
  assert (Hcount : forall sm0, SlotManager.reachable sm0 ->
                     (SlotManager.getCardCount sm0 <= SlotManager.maxSlots)%nat).
  { intros sm0 H0. unfold SlotManager.getCardCount.
    pose proof (length_filter_le (fun slot => negb (SlotManager.isNull slot))
                                 (SlotManager.slots sm0)) as Hle.
    destruct (reachable_length sm0 H0) as [H|H]; rewrite H in Hle;
      unfold SlotManager.maxSlots in *; lia. }
  split; [now apply Hcount|].
  split; [apply Hcount; now constructor|].
  split.
  - intros Hfull. unfold SlotManager.addCard.
    assert (Hnone : JsArray.findIndex SlotManager.isNull (SlotManager.slots sm) = None).
    { apply findIndex_None. intros slot Hin.
      unfold SlotManager.getCardCount in Hfull.
      apply negb_true_iff.
      apply (length_filter_all (fun slot => negb (SlotManager.isNull slot))
                               (SlotManager.slots sm)); [|assumption].
      pose proof (length_filter_le (fun slot => negb (SlotManager.isNull slot))
                                   (SlotManager.slots sm)) as Hle.
      destruct (reachable_length sm Hreach) as [H|H]; rewrite H in *;
        unfold SlotManager.maxSlots in *; lia. }
    now rewrite Hnone.
  - split.
    { intros Hinit Hlt.
      destruct (first_empty_slot (SlotManager.slots sm)) as (i & Hfind & Hi & Hfirst).
      { unfold SlotManager.getCardCount in Hlt.
        now rewrite (reachable_initialized_length sm Hreach Hinit). }
      exists i. split; [exact Hi|]. split; [exact Hfirst|].
      unfold SlotManager.addCard. rewrite Hfind.
      now destruct (SlotManager.checkForElimination _ _ _) as [[e sm2] x2]. }
    intros i Hi Hfirst placed.
    assert (Hfind : JsArray.findIndex SlotManager.isNull (SlotManager.slots sm) = Some i).
    { apply findIndex_Some. split; [exists None; auto|].
      intros j [slot|] Hj Hsl; [reflexivity|]. now apply Hfirst in Hj. }
    split.
    { subst placed. cbn [SlotManager.slots]. apply list_lookup_insert_eq.
      now apply lookup_lt_Some in Hi. }
    unfold SlotManager.addCard. rewrite Hfind. fold placed.
    split; [reflexivity|].
    intros Hnone. now rewrite (checkForElimination_false _ _ _ Hnone).
Qed.

Lemma fullSlots_reachable : SlotManager.reachable Examples.fullSlots.
Proof.
  unfold Examples.fullSlots. cbn [fold_left seq].
  repeat apply SlotManager.reach_addCard.
  apply SlotManager.reach_initialize, SlotManager.reach_new.
Qed.

Lemma addCard_capacity_witness :
  (SlotManager.getCardCount Examples.fullSlots <= SlotManager.maxSlots)%nat
  /\ SlotManager.addCard SlotManager.record (SlotManager.mkCardData 7 7)
       Examples.fullSlots []
     = (false, Examples.fullSlots, []).
Proof.
  destruct (addCard_capacity Examples.fullSlots (SlotManager.mkCardData 7 7) []
                             fullSlots_reachable) as (Hle & _ & Hfull & _).
  split; [exact Hle|].
  apply Hfull. vm_compute. reflexivity.
Defined.


(** ** Level layout: the type array *)

Lemma fold_push_groups (type : nat) (groups : list nat) (acc : list nat) :
  fold_left (fun cardTypes group => cardTypes ++ [type; type; type]) groups acc
  = acc ++ flat_map (fun t => [t; t; t]) (repeat type (length groups)).
Proof.
  revert acc. induction groups as [|g groups IH]; intros acc; cbn.
  - now rewrite app_nil_r.
  - rewrite IH, <- app_assoc. reflexivity.
Qed.

Lemma buildCardTypes_groups (config : LevelManager.LevelConfig) :
  LevelManager.buildCardTypes config
  = flat_map (fun t => [t; t; t])
      (flat_map (fun type => repeat type (LevelManager.cardsPerType config))
                (seq 0 (LevelManager.cardTypes config))).
Proof.
  unfold LevelManager.buildCardTypes.
  assert (H : forall (types acc : list nat),
             fold_left
               (fun (cardTypes : list nat) (type : nat) =>
                  fold_left (fun cardTypes group => cardTypes ++ [type; type; type])
                            (seq 0 (LevelManager.cardsPerType config)) cardTypes)
               types acc
             = acc ++ flat_map (fun t => [t; t; t])
                        (flat_map (fun type => repeat type (LevelManager.cardsPerType config))
                                  types)).
  { induction types as [|type types IH]; intros acc; cbn [fold_left flat_map].
    - now rewrite app_nil_r.
    - rewrite IH, fold_push_groups, length_seq, flat_map_app, app_assoc. reflexivity. }
  now rewrite H.
Qed.

Lemma length_groups (groups : list nat) :
  length (flat_map (fun t => [t; t; t]) groups) = (3 * length groups)%nat.
Proof. induction groups as [|g groups IH]; cbn in *; lia. Qed.

Lemma take_groups (k : nat) (groups : list nat) :
  take (3 * k) (flat_map (fun t => [t; t; t]) groups)
  = flat_map (fun t => [t; t; t]) (take k groups).
Proof.
  revert groups. induction k as [|k IH]; intros groups.
  - reflexivity.
  - destruct groups as [|g groups]; [reflexivity|].
    replace (3 * S k)%nat with (S (S (S (3 * k)))) by lia.
    cbn [flat_map app take]. now rewrite IH.
Qed.

Lemma pop_take {A} (l : list A) : LevelManager.pop l = take (length l - 1) l.
Proof.
  unfold LevelManager.pop. rewrite removelast_firstn_len.
  f_equal. lia.
Qed.

Lemma iter_pop3_take {A} (n : nat) (l : list A) :
  Nat.iter n (fun cardTypes => LevelManager.pop (LevelManager.pop (LevelManager.pop cardTypes))) l
  = take (length l - 3 * n) l.
Proof.
  induction n as [|n IH].
  - cbn. rewrite Nat.sub_0_r. now rewrite firstn_all.
  - rewrite Nat.iter_succ, IH. rewrite !pop_take, !length_take, !take_take.
    f_equal. lia.
Qed.

Lemma ceilThird_bounds (a : nat) :
  (a <= 3 * LevelManager.ceilThird a < a + 3)%nat.
Proof.
  unfold LevelManager.ceilThird.
  assert (H : Qceiling (inject_Z (Z.of_nat a) / 3) = (- ((- Z.of_nat a) / 3))%Z).
  { unfold Qceiling, Qfloor. cbn. now rewrite Z.mul_1_r. }
  rewrite H. pose proof (Z.div_mod (- Z.of_nat a) 3 ltac:(lia)) as Hdm.
  pose proof (Z.mod_pos_bound (- Z.of_nat a) 3 ltac:(lia)) as Hb.
  lia.
Qed.

(** C5. For every level configuration the type array has a length that is
    a multiple of 3, before and after the trimming for [maxCards]; after
    the trimming its length is at most [maxCards]; and the trimming only
    removes whole groups of three from the end: the array is a sequence of
    groups of three equal types, and the trimmed array is a prefix of that
    sequence of groups. *)
Theorem trimCardTypes_multiple_of_three (config : LevelManager.LevelConfig) :
  let before := LevelManager.buildCardTypes config in
  let after := LevelManager.trimCardTypes config before in
  (length before mod 3 = 0)%nat
  /\ (length after mod 3 = 0)%nat
  /\ (length after <= LevelManager.maxCards config)%nat
  /\ exists (groups : list nat) (kept : nat),
       before = flat_map (fun t => [t; t; t]) groups
       /\ after = flat_map (fun t => [t; t; t]) (take kept groups)
       /\ before = after ++ flat_map (fun t => [t; t; t]) (drop kept groups).
Proof.
  intros before after.
  pose proof (buildCardTypes_groups config) as Hb. fold before in Hb.
  set (groups := flat_map (fun type => repeat type (LevelManager.cardsPerType config))
                          (seq 0 (LevelManager.cardTypes config))) in Hb.
  assert (Hlen : length before = (3 * length groups)%nat)
    by (rewrite Hb; apply length_groups).
  assert (Hex : exists kept,
             after = flat_map (fun t => [t; t; t]) (take kept groups)
             /\ (length after <= LevelManager.maxCards config)%nat).
  { subst after. unfold LevelManager.trimCardTypes.
    destruct (Nat.ltb_spec (LevelManager.maxCards config) (length before)) as [Hlt|Hge].
    - rewrite iter_pop3_take.
      pose proof (ceilThird_bounds (length before - LevelManager.maxCards config))
        as [Hlo Hhi].
      set (g := LevelManager.ceilThird (length before - LevelManager.maxCards config))
        in *.
      exists (length groups - g)%nat.
      replace (length before - 3 * g)%nat with (3 * (length groups - g))%nat by lia.
      rewrite Hb, take_groups. split; [reflexivity|].
      rewrite length_groups, length_take. lia.
    - exists (length groups). rewrite firstn_all. split; [exact Hb|lia]. }
  destruct Hex as (kept & Hafter & Hmax).
  split; [rewrite Hlen; now rewrite Nat.mul_comm, Nat.Div0.mod_mul|].
  split; [rewrite Hafter, length_groups; now rewrite Nat.mul_comm, Nat.Div0.mod_mul|].
  split; [exact Hmax|].
  exists groups, kept. split; [exact Hb|]. split; [exact Hafter|].
  rewrite Hafter, Hb, <- flat_map_app, take_drop. reflexivity.
Qed.

(** ** Level layout: positions *)

Lemma Qceiling_pos (q : Q) : (0 < q)%Q -> (1 <= Qceiling q)%Z.
Proof.
  intros Hq. pose proof (Qle_ceiling q) as Hc.
  assert (H : (0 < inject_Z (Qceiling q))%Q) by (eapply Qlt_le_trans; eassumption).
  assert (0 < Qceiling q)%Z; [|lia].
  rewrite Zlt_Qlt. exact H.
Qed.

Lemma cardsInLayer_pos (count layers : Z) :
  (1 <= count)%Z -> (1 <= layers)%Z ->
  exists m, Z.to_nat (Qceiling (inject_Z count / inject_Z layers)) = S m.
Proof.
  intros Hc Hl.
  assert (H : (1 <= Qceiling (inject_Z count / inject_Z layers))%Z).
  { apply Qceiling_pos. apply Qlt_shift_div_l.
    - rewrite <- (Zlt_Qlt 0). lia.
    - rewrite Qmult_0_l. rewrite <- (Zlt_Qlt 0). lia. }
  exists (Z.to_nat (Qceiling (inject_Z count / inject_Z layers)) - 1)%nat. lia.
Qed.

(** With no binding for [effectiveWidth] in scope, the first pass through
    the inner loop throws. *)
Lemma generateCardPositions_throws (rnd : Js.Random)
      (count layers cols rows areaWidth areaHeight cardSize gap offsetX offsetY : Z)
      (k : nat) :
  (1 <= count)%Z -> (1 <= layers)%Z ->
  LevelManager.generateCardPositions Js.topLevel rnd count layers cols rows
    areaWidth areaHeight cardSize gap offsetX offsetY k
  = inl (Js.ReferenceError "effectiveWidth").
Proof.
  intros Hc Hl. unfold LevelManager.generateCardPositions.
  destruct (Z.to_nat layers) as [|n] eqn:Hn; [lia|].
  cbn [LevelManager.layersLoop].
  destruct (cardsInLayer_pos count layers Hc Hl) as [m ->].
  reflexivity.
Qed.

Lemma swap_length {A} (i j : nat) (array : list A) :
  length (LevelManager.swap i j array) = length array.
Proof.
  unfold LevelManager.swap.
  destruct (array !! i), (array !! j); try reflexivity.
  now rewrite !length_insert.
Qed.

Lemma shuffleArray_length {A} (rnd : Js.Random) (k : nat) (array : list A) :
  length (fst (LevelManager.shuffleArray rnd k array)) = length array.
Proof.
  unfold LevelManager.shuffleArray.
  generalize (length array - 1)%nat as i. intros i. revert k array.
  induction i as [|i IH]; intros k array; cbn [LevelManager.shuffleFrom];
    [reflexivity|].
  now rewrite IH, swap_length.
Qed.

(** *** What the loops do once the two names are bound

    The three lemmas below are about the same loops with [effectiveWidth]
    and [effectiveHeight] bound in scope: they then return exactly [count]
    positions for any layer count from 1 on. *)

Lemma layerLoop_bound (scope : Js.Scope) (rnd : Js.Random) (w h : Q)
      (count cardSize gap offsetX offsetY layer layerCols layerRows : Z) :
  scope "effectiveWidth"%string = Some w ->
  scope "effectiveHeight"%string = Some h ->
  forall (n : nat) (positions : list LevelManager.Position) (k : nat),
    (Z.of_nat (length positions) < count)%Z ->
    exists b ps k',
      LevelManager.layerLoop scope rnd count cardSize gap offsetX offsetY
        layer layerCols layerRows n positions k = inr (b, ps, k')
      /\ ((b = true /\ Z.of_nat (length ps) = count)
          \/ (b = false /\ length ps = (length positions + n)%nat
                        /\ (Z.of_nat (length ps) < count)%Z)).
Proof.
  intros Hw Hh. induction n as [|n IH]; intros positions k Hlt.
  - exists false, positions, k. split; [reflexivity|]. right.
    repeat split; [lia|assumption].
  - cbn [LevelManager.layerLoop]. unfold Js.resolve. rewrite Hw, Hh.
    cbn [Js.bind Js.ret].
    match goal with
    | |- context [Z.leb count (Z.of_nat (length (positions ++ [?p])))] =>
        set (pos := p)
    end.
    assert (Hlen : length (positions ++ [pos]) = S (length positions))
      by (rewrite length_app; cbn; lia).
    destruct (Z.leb_spec count (Z.of_nat (length (positions ++ [pos])))) as [Hge|Hlt'].
    + exists true, (positions ++ [pos]), (S (S k)). split; [reflexivity|].
      left. split; [reflexivity|]. lia.
    + destruct (IH (positions ++ [pos]) (S (S k)) Hlt') as (b & ps & k' & Heq & Hres).
      exists b, ps, k'. split; [exact Heq|].
      destruct Hres as [Ht|(Hb & Hl & Hc)]; [now left|].
      right. repeat split; [assumption|lia|assumption].
Qed.

Lemma layersLoop_bound (scope : Js.Scope) (rnd : Js.Random) (w h : Q)
      (count layers cols rows cardSize gap offsetX offsetY : Z) :
  scope "effectiveWidth"%string = Some w ->
  scope "effectiveHeight"%string = Some h ->
  forall (n : nat) (layer : Z) (positions : list LevelManager.Position) (k : nat),
    (Z.of_nat (length positions) < count)%Z ->
    (count <= Z.of_nat (length positions
                        + n * Z.to_nat (Qceiling (inject_Z count / inject_Z layers))))%Z ->
    exists ps k',
      LevelManager.layersLoop scope rnd count layers cols rows cardSize gap
        offsetX offsetY layer n positions k = inr (ps, k')
      /\ Z.of_nat (length ps) = count.
Proof.
  intros Hw Hh. induction n as [|n IH]; intros layer positions k Hlt Hge.
  - exfalso. lia.
  - cbn [LevelManager.layersLoop].
    destruct (layerLoop_bound scope rnd w h count cardSize gap offsetX offsetY layer
                (Z.max 3 (cols - layer * 2)) (Z.max 3 (rows - layer * 2)) Hw Hh
                (Z.to_nat (Qceiling (inject_Z count / inject_Z layers)))
                positions k Hlt) as (b & ps & k' & Heq & Hres).
    rewrite Heq. cbn [Js.bind].
    destruct Hres as [[_ Hc]|(_ & Hl & Hc)].
    + destruct (Z.leb_spec count (Z.of_nat (length ps))); [|lia].
      exists ps, k'. split; [reflexivity|exact Hc].
    + destruct (Z.leb_spec count (Z.of_nat (length ps))); [lia|].
      apply IH; [exact Hc|]. rewrite Hl. lia.
Qed.

Lemma layers_cover_count (count layers : Z) :
  (1 <= layers)%Z ->
  (count <= layers * Qceiling (inject_Z count / inject_Z layers))%Z.
Proof.
  intros Hl. pose proof (Qle_ceiling (inject_Z count / inject_Z layers)) as Hc.
  assert (Hpos : (0 < inject_Z layers)%Q) by (rewrite <- (Zlt_Qlt 0); lia).
  apply (Qmult_le_compat_r _ _ (inject_Z layers)) in Hc; [|now apply Qlt_le_weak].
  rewrite Qmult_comm, Qmult_div_r in Hc by (intros H; rewrite H in Hpos; inversion Hpos).
  rewrite <- inject_Z_mult, <- Zle_Qle in Hc. lia.
Qed.

Lemma generateCardPositions_length (scope : Js.Scope) (rnd : Js.Random) (w h : Q)
      (count layers cols rows areaWidth areaHeight cardSize gap offsetX offsetY : Z)
      (k : nat) :
  scope "effectiveWidth"%string = Some w ->
  scope "effectiveHeight"%string = Some h ->
  (0 <= count)%Z -> (1 <= layers)%Z ->
  exists ps k',
    LevelManager.generateCardPositions scope rnd count layers cols rows
      areaWidth areaHeight cardSize gap offsetX offsetY k = inr (ps, k')
    /\ Z.of_nat (length ps) = count.
Proof.
  intros Hw Hh Hc Hl. unfold LevelManager.generateCardPositions.
  destruct (Z.eq_dec count 0) as [->|Hne].
  - destruct (Z.to_nat layers) as [|n] eqn:Hn; [lia|].
    cbn [LevelManager.layersLoop].
    assert (H0 : Qceiling (inject_Z 0 / inject_Z layers) = 0%Z).
    { unfold Qdiv. rewrite Qmult_0_l. reflexivity. }
    rewrite H0. cbn. exists [], k. split; reflexivity.
  - apply (layersLoop_bound scope rnd w h); try assumption; cbn [length]; [lia|].
    pose proof (layers_cover_count count layers Hl) as Hcov.
    assert (0 <= Qceiling (inject_Z count / inject_Z layers))%Z.
    { pose proof (Qceiling_pos (inject_Z count / inject_Z layers)) as Hp.
      assert (0 < inject_Z count / inject_Z layers)%Q; [|lia].
      apply Qlt_shift_div_l.
      - rewrite <- (Zlt_Qlt 0). lia.
      - rewrite Qmult_0_l. rewrite <- (Zlt_Qlt 0). lia. }
    rewrite Nat.add_0_l, Nat2Z.inj_mul, !Z2Nat.id by lia. exact Hcov.
Qed.

(** C6, on the code: the layout of the first level (27 types trimmed to
    18 cards, 1 layer, a 500 by 400 area, hence 5 columns and 4 rows)
    cannot be generated.
    [generateCardPositions] throws a [ReferenceError] on [effectiveWidth],
    a constant of [generateLevelLayout] that is not in the scope of
    [generateCardPositions]; no position is returned and
    [generateLevelLayout] leaves the card manager cleared, with no card
    created. *)
Theorem generateLevelLayout_first_level_throws
        (rnd : Js.Random) (k : nat) (cardManager : CardManager.CardManager) :
  length (LevelManager.trimCardTypes (LevelManager.levelConfig 1)
            (LevelManager.buildCardTypes (LevelManager.levelConfig 1))) = 18%nat
  /\ LevelManager.generateCardPositions Js.topLevel rnd 18 1 5 4 500 400 70 10 20 20 k
     = inl (Js.ReferenceError "effectiveWidth")
  /\ LevelManager.generateLevelLayout Js.topLevel rnd k (LevelManager.levelConfig 1)
       cardManager 500 400
     = (inl (Js.ReferenceError "effectiveWidth"), CardManager.clearAll cardManager)
  /\ CardManager.getAllCards (CardManager.clearAll cardManager) = [].
Proof.
  split; [reflexivity|].
  split; [apply generateCardPositions_throws; lia|].
  split; [|reflexivity].
  unfold LevelManager.generateLevelLayout.
  pose proof (shuffleArray_length rnd k
                (LevelManager.trimCardTypes (LevelManager.levelConfig 1)
                   (LevelManager.buildCardTypes (LevelManager.levelConfig 1)))) as Hlen.
  destruct (LevelManager.shuffleArray rnd k _) as [cardTypes k1].
  cbn [fst] in Hlen. rewrite generateCardPositions_throws; [reflexivity| |].
  - rewrite Hlen. vm_compute. discriminate.
  - vm_compute. discriminate.
Qed.

(** ** Leaderboard *)

Lemma sort_nonempty {A} (le : A -> A -> bool) (l : list A) :
  l <> [] -> JsArray.sort le l <> [].
Proof.
  intros Hl Hs. apply Hl. apply Permutation_nil.
  rewrite <- Hs. apply sort_Permutation.
Qed.

(** Whatever is added, [addScore] returns [true]: each entry of the list
    is compared with itself. *)
Lemma addScore_returns_true (now : string) (random : Q)
      (scoreData : LeaderboardManager.ScoreData)
      (lm : LeaderboardManager.LeaderboardManager) (st : LocalStorage.t) :
  fst (fst (LeaderboardManager.addScore now random scoreData lm st)) = true.
Proof.
  unfold LeaderboardManager.addScore. cbn [fst LeaderboardManager.leaderboard].
  match goal with
  | |- context [JsArray.sort LeaderboardManager.score_desc ?l] =>
      pose proof (sort_nonempty LeaderboardManager.score_desc l) as Hne;
      destruct (JsArray.sort LeaderboardManager.score_desc l) as [|e sorted]
  end.
  - exfalso. apply Hne; [|reflexivity]. now destruct (LeaderboardManager.leaderboard lm).
  - cbn. now rewrite !Z.eqb_refl, String.eqb_refl.
Qed.

(** *** The list kept by [addScore]

    The lemmas below are about the list, not about the returned boolean:
    on a list sorted by decreasing score, a new entry goes after the
    entries that are not below it, and the first ten are kept. *)

Lemma insert_sorted_last {A} (le : A -> A -> bool) (a : A) (l : list A) :
  (forall b, In b l -> le b a = true) -> JsArray.insert_sorted le a l = l ++ [a].
Proof.
  induction l as [|b l IH]; intros H; cbn; [reflexivity|].
  rewrite (H b (or_introl eq_refl)). f_equal. apply IH. intros c Hc. apply H. now right.
Qed.

Lemma insert_sorted_split {A} (le : A -> A -> bool) (a : A) (l : list A) :
  exists l1 l2,
    l = l1 ++ l2
    /\ JsArray.insert_sorted le a l = l1 ++ a :: l2
    /\ (forall b, In b l1 -> le b a = true)
    /\ (forall c l2', l2 = c :: l2' -> le c a = false).
Proof.
  induction l as [|b l IH]; cbn.
  - exists [], []. repeat split; try reflexivity; [intros b []|discriminate].
  - destruct (le b a) eqn:Hb.
    + destruct IH as (l1 & l2 & -> & Hins & H1 & H2).
      exists (b :: l1), l2. rewrite Hins. repeat split; try reflexivity; [|exact H2].
      intros c [<-|Hc]; [exact Hb|now apply H1].
    + exists [], (b :: l). repeat split; try reflexivity; [intros c []|].
      intros c l2' [= <- <-]. exact Hb.
Qed.

Lemma sort_sorted_acc {A} (le : A -> A -> bool) (l acc : list A) :
  StronglySorted (fun b a => le b a = true) (acc ++ l) ->
  fold_left (fun acc a => JsArray.insert_sorted le a acc) l acc = acc ++ l.
Proof.
  revert acc. induction l as [|a l IH]; intros acc Hs; cbn.
  - now rewrite app_nil_r.
  - rewrite insert_sorted_last.
    + rewrite IH; rewrite <- app_assoc; [reflexivity|exact Hs].
    + intros b Hb. clear IH.
      induction acc as [|c acc IHacc]; [destruct Hb|].
      cbn in Hs. apply StronglySorted_inv in Hs as [Hs Hall].
      destruct Hb as [<-|Hb]; [|now apply IHacc].
      rewrite List.Forall_forall in Hall. apply Hall.
      apply in_or_app. right. now left.
Qed.

Lemma sort_sorted {A} (le : A -> A -> bool) (l : list A) :
  StronglySorted (fun b a => le b a = true) l -> JsArray.sort le l = l.
Proof. intros Hs. unfold JsArray.sort. now rewrite sort_sorted_acc. Qed.

Lemma sort_snoc {A} (le : A -> A -> bool) (l : list A) (a : A) :
  JsArray.sort le (l ++ [a]) = JsArray.insert_sorted le a (JsArray.sort le l).
Proof. unfold JsArray.sort. now rewrite fold_left_app. Qed.

Lemma map_unrank_imap (l : list LeaderboardEntry.Entry) (f : nat -> Z) :
  List.map (LeaderboardEntry.set_rank 0)
           (imap (fun index entry => LeaderboardEntry.set_rank (f index) entry) l)
  = List.map (LeaderboardEntry.set_rank 0) l.
Proof.
  revert f. induction l as [|e l IH]; intros f; [reflexivity|].
  cbn [imap List.map]. f_equal. apply (IH (fun i => f (S i))).
Qed.

(** The list after [addScore], ranks set aside: when the new score is
    below every score of a full sorted list, the list is the old one; when
    it is above the lowest (last) score, the last entry is gone and the
    new entry is in. *)
Lemma addScore_kept_entries (now : string) (random : Q)
      (scoreData : LeaderboardManager.ScoreData)
      (lm : LeaderboardManager.LeaderboardManager) (st : LocalStorage.t) :
  let new_score := LeaderboardManager.numberOr (LeaderboardManager.score scoreData) 0 in
  let old := LeaderboardManager.leaderboard lm in
  let result :=
    LeaderboardManager.leaderboard
      (snd (fst (LeaderboardManager.addScore now random scoreData lm st))) in
  length old = LeaderboardManager.maxEntries ->
  StronglySorted (fun b a => LeaderboardManager.score_desc b a = true) old ->
  ((forall b, In b old -> (new_score < LeaderboardEntry.score b)%Z) ->
   List.map (LeaderboardEntry.set_rank 0) result
   = List.map (LeaderboardEntry.set_rank 0) old)
  /\ (forall lowest, last old = Some lowest ->
       (LeaderboardEntry.score lowest < new_score)%Z ->
       exists entry,
         LeaderboardEntry.score entry = new_score
         /\ Permutation (List.map (LeaderboardEntry.set_rank 0) result)
                        (List.map (LeaderboardEntry.set_rank 0)
                                  (entry :: removelast old))).
Proof.
  intros new_score old result Hlen Hsorted.
  subst result. unfold LeaderboardManager.addScore.
  cbn [fst snd LeaderboardManager.leaderboard]. fold old. fold new_score.
  match goal with
  | |- context [JsArray.sort _ (old ++ [?e])] => set (entry := e)
  end.
  rewrite sort_snoc, (sort_sorted _ old Hsorted).
  split.
  - intros Hlow. rewrite map_unrank_imap, insert_sorted_last.
    + rewrite take_app_length'; [reflexivity|now symmetry].
    + intros b Hb. unfold LeaderboardManager.score_desc. apply Z.leb_le.
      specialize (Hlow b Hb). subst entry. cbn [LeaderboardEntry.score]. lia.
  - intros lowest Hlast Hhigh. exists entry. split; [reflexivity|].
    rewrite map_unrank_imap.
    destruct (insert_sorted_split LeaderboardManager.score_desc entry old)
      as (l1 & l2 & Hold & Hins & H1 & H2).
    rewrite Hins.
    destruct l2 as [|c l2] using rev_ind.
    + exfalso. rewrite app_nil_r in Hold. subst l1.
      assert (Hin : In lowest old).
      { apply list_elem_of_In. apply last_Some in Hlast as [l' ->].
        apply elem_of_app. right. now apply list_elem_of_singleton. }
      specialize (H1 lowest Hin). unfold LeaderboardManager.score_desc in H1.
      apply Z.leb_le in H1. subst entry. cbn [LeaderboardEntry.score] in H1.
      fold new_score in H1. lia.
    + clear IHl2.
      assert (Hrm : removelast old = l1 ++ l2).
      { rewrite Hold, app_assoc. apply removelast_last. }
      rewrite Hrm.
      assert (Htake : take LeaderboardManager.maxEntries (l1 ++ entry :: l2 ++ [c])
                      = l1 ++ entry :: l2).
      { replace (l1 ++ entry :: l2 ++ [c]) with ((l1 ++ entry :: l2) ++ [c])
          by (rewrite <- app_assoc; reflexivity).
        apply take_app_length'. rewrite <- Hlen, Hold.
        rewrite !length_app. cbn. lia. }
      rewrite Htake. apply Permutation_map. symmetry. apply Permutation_middle.
Qed.

(** C8, on the code: on the full leaderboard with scores 100, 90, ..., 10,
    adding an entry of score 5 leaves the stored list as it was, and
    [canEnterLeaderboard 5] is [false], yet [addScore] returns [true];
    adding an entry of score 55 removes the entry of score 10. *)
Theorem addScore_rejected_entry_reported_entered
        (now : string) (random : Q) (st : LocalStorage.t) :
  let lm := Examples.fullLeaderboard in
  let '(entered, lm', _) :=
    LeaderboardManager.addScore now random (Examples.scoreData 5) lm st in
  let '(_, lm'', _) :=
    LeaderboardManager.addScore now random (Examples.scoreData 55) lm st in
  length (LeaderboardManager.leaderboard lm) = 10%nat
  /\ LeaderboardManager.canEnterLeaderboard 5 lm = false
  /\ LeaderboardManager.leaderboard lm' = LeaderboardManager.leaderboard lm
  /\ entered = true
  /\ List.map LeaderboardEntry.score (LeaderboardManager.leaderboard lm'')
     = [100; 90; 80; 70; 60; 55; 50; 40; 30; 20].
Proof.
  cbv zeta. unfold LeaderboardManager.addScore.
  repeat split; vm_compute; reflexivity.
Qed.

(** ** Click events *)

(** C9, as amended: a click on a disabled card is ignored, and the whole
    state of the game (slot queue, card field, the card itself, score,
    flags) is what it was. *)
Theorem cardClicked_disabled_ignored (host : Game.Host) (cardId : Z) (g : Game.Game)
        (card : Card.Card) :
  CardManager.getCard cardId (Game.cardManager g) = Some card ->
  Card.isDisabled card = true ->
  Game.cardClicked host cardId g = g.
Proof.
  intros Hcard Hdis. unfold Game.cardClicked.
  destruct (negb (Game.isPlaying g) || Game.isPaused g); [reflexivity|].
  now rewrite Hcard, Hdis.
Qed.

Lemma cardClicked_disabled_ignored_witness :
  Game.cardClicked Examples.host 0 (Examples.gameOn Examples.stackedField)
  = Examples.gameOn Examples.stackedField.
Proof.
  apply (cardClicked_disabled_ignored Examples.host 0
           (Examples.gameOn Examples.stackedField)
           (Card.mk 0 0 0 0 0 true false)).
  - vm_compute. reflexivity.
  - reflexivity.
Defined.

(** C9, as stated, fails for a slotted card: once card 0 of the flat field
    sits in the first slot (it is slotted and not disabled), a second
    click on its id is not ignored; the card is written into the second
    slot as well. *)
Lemma cardClicked_slotted_not_ignored :
  exists card,
    CardManager.getCard 0 (Game.cardManager Examples.afterFirstClick) = Some card
    /\ Card.inSlot card = true
    /\ SlotManager.slots (Game.slotManager Examples.afterFirstClick)
       = [Some (SlotManager.mkCardData 0 0); None; None; None; None; None; None]
    /\ SlotManager.slots
         (Game.slotManager (Game.cardClicked Examples.host 0 Examples.afterFirstClick))
       = [Some (SlotManager.mkCardData 0 0); Some (SlotManager.mkCardData 0 0);
          None; None; None; None; None]
    /\ Game.slotManager (Game.cardClicked Examples.host 0 Examples.afterFirstClick)
       <> Game.slotManager Examples.afterFirstClick.
Proof.
  exists (Card.mk 0 0 0 0 0 false true).
  split; [vm_compute; reflexivity|].
  split; [reflexivity|].
  split; [vm_compute; reflexivity|].
  split; [vm_compute; reflexivity|].
  vm_compute. discriminate.
Qed.

(** ** Card ids *)

Lemma updateCardStates_nextId (cm : CardManager.CardManager) :
  CardManager.nextId (CardManager.updateCardStates cm) = CardManager.nextId cm.
Proof. reflexivity. Qed.

Lemma removeCard_nextId (id : Z) (cm : CardManager.CardManager) :
  CardManager.nextId (CardManager.removeCard id cm) = CardManager.nextId cm.
Proof. unfold CardManager.removeCard. now destruct (JsMap.get id _). Qed.

(** Without [clearAll], the ids handed out are the consecutive integers
    from [nextId] on. *)
Lemma assignedIds_consecutive (calls : list CardSession.Call)
      (cm : CardManager.CardManager) :
  forallb (fun c => negb (CardSession.isClearAll c)) calls = true ->
  CardSession.assignedIds calls cm
  = List.map (fun i => CardManager.nextId cm + Z.of_nat i)%Z
             (seq 0 (length (CardSession.assignedIds calls cm))).
Proof.
  revert cm. induction calls as [|c calls IH]; intros cm Hno; [reflexivity|].
  cbn [forallb] in Hno. apply andb_true_iff in Hno as [Hc Hno].
  destruct c as [type x y layer|id| |]; cbn in Hc; try discriminate;
    cbn [CardSession.assignedIds CardSession.call CardManager.createCard].
  - cbn [length seq List.map Card.id Card.new]. f_equal; [lia|].
    rewrite (IH _ Hno) at 1. cbn [CardManager.nextId].
    rewrite <- seq_shift, map_map. apply map_ext. intros i. lia.
  - rewrite (IH _ Hno) at 1. now rewrite removeCard_nextId.
  - rewrite (IH _ Hno) at 1. now rewrite updateCardStates_nextId.
Qed.

(** C10, as amended: in a run of calls without [clearAll], from any state
    of the card manager, ids are assigned in strictly increasing order (a
    later creation gets a greater id), so that no id is assigned twice. *)
Theorem assignedIds_increasing (calls : list CardSession.Call)
        (cm : CardManager.CardManager) :
  forallb (fun c => negb (CardSession.isClearAll c)) calls = true ->
  (forall (i j : nat) (a b : Z),
      CardSession.assignedIds calls cm !! i = Some a ->
      CardSession.assignedIds calls cm !! j = Some b ->
      (i < j)%nat -> (a < b)%Z)
  /\ NoDup (CardSession.assignedIds calls cm).
Proof.
  intros Hno. pose proof (assignedIds_consecutive calls cm Hno) as Hids.
  set (ids := CardSession.assignedIds calls cm) in *.
  assert (Hnth : forall i a, ids !! i = Some a ->
                             a = (CardManager.nextId cm + Z.of_nat i)%Z).
  { intros i a Hi. rewrite Hids in Hi.
    rewrite list_lookup_fmap in Hi.
    destruct (seq 0 (length ids) !! i) as [i'|] eqn:Hseq; [|discriminate].
    apply lookup_seq in Hseq as [-> _]. cbn in Hi. congruence. }
  assert (Hinc : forall i j a b, ids !! i = Some a -> ids !! j = Some b ->
                                 (i < j)%nat -> (a < b)%Z).
  { intros i j a b Hi Hj Hlt. apply Hnth in Hi, Hj. lia. }
  split; [exact Hinc|].
  apply NoDup_alt. intros i j a Hi Hj.
  destruct (Nat.lt_trichotomy i j) as [Hlt|[Heq|Hgt]]; [|exact Heq|].
  - pose proof (Hinc i j a a Hi Hj Hlt). lia.
  - pose proof (Hinc j i a a Hj Hi Hgt). lia.
Qed.

Lemma assignedIds_increasing_witness :
  NoDup (CardSession.assignedIds
           [CardSession.createCard 0 0 0 0; CardSession.removeCard 0;
            CardSession.createCard 1 10 10 1; CardSession.updateCardStates;
            CardSession.createCard 2 20 20 2]
           CardManager.new).
Proof.
  apply (assignedIds_increasing
           [CardSession.createCard 0 0 0 0; CardSession.removeCard 0;
            CardSession.createCard 1 10 10 1; CardSession.updateCardStates;
            CardSession.createCard 2 20 20 2]
           CardManager.new).
  reflexivity.
Defined.

(** C10, as stated, fails across [clearAll], which sets [nextId] back to
    0: the two creations below both get the id 0. *)
Lemma assignedIds_reused_after_clearAll :
  CardSession.assignedIds
    [CardSession.createCard 0 0 0 0; CardSession.clearAll;
     CardSession.createCard 1 10 10 1]
    CardManager.new
  = [0; 0]
  /\ ~ NoDup (CardSession.assignedIds
                [CardSession.createCard 0 0 0 0; CardSession.clearAll;
                 CardSession.createCard 1 10 10 1]
                CardManager.new).
Proof.
  split; [reflexivity|].
  intros H. change (NoDup [0; 0]) in H.
  apply NoDup_cons in H as [Hnin _]. apply Hnin. now left.
Qed.

(** * Further properties of the card field *)

Lemma JsMap_get_set_eq {V} (k : Z) (v : V) (m : JsMap.t V) :
  JsMap.get k (JsMap.set k v m) = Some v.
Proof.
  induction m as [|[k' v'] m IH]; cbn.
  - now rewrite Z.eqb_refl.
  - destruct (Z.eqb k' k) eqn:E; cbn; rewrite E; [reflexivity|exact IH].
Qed.

Lemma JsMap_get_set_ne {V} (k k' : Z) (v : V) (m : JsMap.t V) :
  k' <> k -> JsMap.get k' (JsMap.set k v m) = JsMap.get k' m.
Proof.
  intros Hne. induction m as [|[k0 v0] m IH]; cbn.
  - destruct (Z.eqb_spec k k'); [congruence|reflexivity].
  - destruct (Z.eqb_spec k0 k) as [->|Hk]; cbn.
    + destruct (Z.eqb_spec k k'); [congruence|reflexivity].
    + destruct (Z.eqb k0 k'); [reflexivity|exact IH].
Qed.

Lemma JsMap_get_delete_eq {V} (k : Z) (m : JsMap.t V) :
  JsMap.get k (JsMap.delete k m) = None.
Proof.
  induction m as [|[k0 v0] m IH]; cbn; [reflexivity|].
  destruct (Z.eqb_spec k0 k) as [->|Hk]; cbn; [exact IH|].
  destruct (Z.eqb_spec k0 k); [congruence|exact IH].
Qed.

Lemma JsMap_get_delete_ne {V} (k k' : Z) (m : JsMap.t V) :
  k' <> k -> JsMap.get k' (JsMap.delete k m) = JsMap.get k' m.
Proof.
  intros Hne. induction m as [|[k0 v0] m IH]; cbn; [reflexivity|].
  destruct (Z.eqb_spec k0 k) as [->|Hk]; cbn.
  - destruct (Z.eqb_spec k k'); [congruence|exact IH].
  - destruct (Z.eqb k0 k'); [reflexivity|exact IH].
Qed.

(** X1. [createCard] stores what it returns: the new card has the id
    [nextId], is enabled and not slotted, [getCard] finds it under its id,
    every other id reads as before, and [nextId] grows by one. *)
Theorem createCard_getCard (type : Z) (x y : Q) (layer : Z)
        (cm : CardManager.CardManager) :
  let card := fst (CardManager.createCard type x y layer cm) in
  let cm' := snd (CardManager.createCard type x y layer cm) in
  card = Card.mk (CardManager.nextId cm) type x y layer false false
  /\ CardManager.getCard (Card.id card) cm' = Some card
  /\ (forall id, id <> Card.id card ->
                 CardManager.getCard id cm' = CardManager.getCard id cm)
  /\ CardManager.nextId cm' = (CardManager.nextId cm + 1)%Z.
Proof.
  cbv zeta. unfold CardManager.createCard, CardManager.getCard. cbn [fst snd].
  cbn [CardManager.cards CardManager.nextId Card.new Card.id].
  split; [reflexivity|]. split; [apply JsMap_get_set_eq|].
  split; [|reflexivity]. intros id Hne. now apply JsMap_get_set_ne.
Qed.

(** X2. [removeCard] deletes exactly one id: afterwards [getCard] finds
    nothing under it, every other id reads as before, [nextId] is kept, and
    removing an id that is not in the field changes nothing. *)
Theorem removeCard_getCard (id : Z) (cm : CardManager.CardManager) :
  CardManager.getCard id (CardManager.removeCard id cm) = None
  /\ (forall id', id' <> id ->
        CardManager.getCard id' (CardManager.removeCard id cm)
        = CardManager.getCard id' cm)
  /\ CardManager.nextId (CardManager.removeCard id cm) = CardManager.nextId cm
  /\ (CardManager.getCard id cm = None -> CardManager.removeCard id cm = cm).
Proof.
  unfold CardManager.removeCard, CardManager.getCard.
  destruct (JsMap.get id (CardManager.cards cm)) eqn:Hget; cbn [CardManager.cards CardManager.nextId].
  - split; [apply JsMap_get_delete_eq|]. split; [|split; [reflexivity|discriminate]].
    intros id' Hne. now apply JsMap_get_delete_ne.
  - repeat split; auto.
Qed.



(** X4. [updateCardStates] only rewrites [isDisabled], and only on cards
    that are not slotted: the map keeps its keys in order, its length and
    [nextId]; every card keeps its id, type, position, layer and [inSlot];
    a slotted card is kept as it is. *)
Theorem updateCardStates_frame (cm : CardManager.CardManager) :
  List.map fst (CardManager.cards (CardManager.updateCardStates cm))
  = List.map fst (CardManager.cards cm)
  /\ CardManager.nextId (CardManager.updateCardStates cm) = CardManager.nextId cm
  /\ forall (j : nat) (k : Z) (c : Card.Card),
       CardManager.cards cm !! j = Some (k, c) ->
       exists b : bool,
         CardManager.cards (CardManager.updateCardStates cm) !! j
         = Some (k, Card.mk (Card.id c) (Card.type c) (Card.x c) (Card.y c)
                            (Card.layer c) b (Card.inSlot c))
         /\ (Card.inSlot c = true -> b = Card.isDisabled c).
Proof.
  split; [|split; [reflexivity|]].
  - apply list_eq. intros j. rewrite !list_lookup_fmap, updateCardStates_lookup.
    destruct (CardManager.cards cm !! j) as [[k c]|]; cbn; [|reflexivity].
    now destruct (Card.inSlot c).
  - intros j k c Hj. rewrite updateCardStates_lookup, Hj. cbn.
    destruct c as [id ty x y lay dis slot]. cbn. destruct slot.
    + exists dis. split; [reflexivity|auto].
    + match goal with
      | |- context [CardManager.setCovered ?b _] =>
          exists b; split; [destruct b; reflexivity|discriminate]
      end.
Qed.

Lemma exists_max {A} (f : A -> Z) (p : A -> bool) (l : list A) :
  (exists a, In a l /\ p a = true) ->
  exists a, In a l /\ p a = true
            /\ forall b, In b l -> p b = true -> (f b <= f a)%Z.
Proof.
  induction l as [|x l IH]; intros (a & Ha & Hp); [destruct Ha|].
  destruct (existsb p l) eqn:Hex.
  - apply existsb_exists in Hex. destruct (IH Hex) as (m & Hm & Hpm & Hmax).
    destruct (p x) eqn:Hpx.
    + destruct (Z.le_gt_cases (f x) (f m)) as [Hle|Hgt].
      * exists m. split; [now right|]. split; [exact Hpm|].
        intros b [<-|Hb] Hpb; [exact Hle|now apply Hmax].
      * exists x. split; [now left|]. split; [exact Hpx|].
        intros b [<-|Hb] Hpb; [lia|]. specialize (Hmax b Hb Hpb). lia.
    + exists m. split; [now right|]. split; [exact Hpm|].
      intros b [<-|Hb] Hpb; [congruence|now apply Hmax].
  - assert (Hnone : forall b, In b l -> p b = false).
    { intros b Hb. destruct (p b) eqn:Hpb; [|reflexivity].
      assert (existsb p l = true) by (apply existsb_exists; eauto). congruence. }
    destruct Ha as [<-|Ha]; [|rewrite (Hnone a Ha) in Hp; discriminate].
    exists x. split; [now left|]. split; [exact Hp|].
    intros b [<-|Hb] Hpb; [lia|]. rewrite (Hnone b Hb) in Hpb. discriminate.
Qed.

(** X5. Occlusion never blocks the whole field: when some card of the
    field is not slotted, [updateCardStates] leaves at least one clickable
    card (a non-slotted card of greatest layer is never covered). *)
Theorem updateCardStates_leaves_clickable (cm : CardManager.CardManager) :
  (exists c, In c (CardManager.getAllCards cm) /\ Card.inSlot c = false) ->
  exists c, In c (CardManager.getClickabledCards (CardManager.updateCardStates cm))
            /\ Card.inSlot c = false /\ Card.isDisabled c = false.
Proof.
  intros (c0 & Hin0 & Hs0).
  destruct (exists_max (fun kc => Card.layer (snd kc))
                       (fun kc => negb (Card.inSlot (snd kc)))
                       (CardManager.cards cm)) as ([k c] & Hin & Hp & Hmax).
  { unfold CardManager.getAllCards, JsMap.values in Hin0.
    apply in_map_iff in Hin0 as ([k c] & <- & Hin). exists (k, c).
    split; [exact Hin|]. cbn in Hs0 |- *. now rewrite Hs0. }
  cbn in Hp, Hmax. apply negb_true_iff in Hp.
  apply list_elem_of_In, list_elem_of_lookup in Hin as [j Hj].
  assert (Hcov : CardManager.isCoveredIn
                   (JsArray.sort CardManager.layer_le
                      (List.filter (fun rc => negb (Card.inSlot (snd rc)))
                                   (CardManager.cardRefs (CardManager.cards cm)))) c
                 = false).
  { destruct (CardManager.isCoveredIn _ c) eqn:E; [|reflexivity].
    apply isCoveredIn_true in E as (j' & o & Ho & Hlt & Hso & _).
    apply elem_of_unslotted_refs in Ho as [[k' Hj'] _].
    assert (Hino : In (k', o) (CardManager.cards cm)).
    { apply list_elem_of_In, list_elem_of_lookup. eauto. }
    specialize (Hmax (k', o) Hino). cbn in Hmax. rewrite Hso in Hmax.
    specialize (Hmax eq_refl). lia. }
  exists (CardManager.setCovered false c).
  destruct (setCovered_fields false c) as (_ & _ & _ & _ & _ & Hs & Hd).
  rewrite Hs, Hd. split; [|auto].
  unfold CardManager.getClickabledCards. apply filter_In. split.
  - unfold CardManager.getAllCards, JsMap.values. apply in_map_iff.
    exists (k, CardManager.setCovered false c). split; [reflexivity|].
    apply list_elem_of_In, list_elem_of_lookup. exists j.
    rewrite updateCardStates_lookup, Hj. cbn. now rewrite Hp, Hcov.
  - now rewrite Hs, Hd, Hp.
Qed.

Lemma updateCardStates_leaves_clickable_witness :
  exists c, In c (CardManager.getClickabledCards
                    (CardManager.updateCardStates Examples.stackedCards))
            /\ Card.inSlot c = false /\ Card.isDisabled c = false.
Proof.
  apply (updateCardStates_leaves_clickable Examples.stackedCards).
  exists (Card.mk 0 0 0 0 0 false false). split; [|reflexivity].
  vm_compute. left. reflexivity.
Defined.

Lemma isCoveredIn_after_update (cm : CardManager.CardManager) (b : bool)
      (c : Card.Card) :
  CardManager.isCoveredIn
    (JsArray.sort CardManager.layer_le
       (List.filter (fun rc => negb (Card.inSlot (snd rc)))
          (CardManager.cardRefs
             (CardManager.cards (CardManager.updateCardStates cm)))))
    (CardManager.setCovered b c)
  = CardManager.isCoveredIn
      (JsArray.sort CardManager.layer_le
         (List.filter (fun rc => negb (Card.inSlot (snd rc)))
            (CardManager.cardRefs (CardManager.cards cm))))
      c.
Proof.
  apply eq_true_iff_eq. rewrite !isCoveredIn_true.
  destruct (setCovered_fields b c) as (_ & _ & _ & _ & Hlay & _ & _).
  split.
  - intros (j & o' & Hin & Hlt & Hso & Hov).
    apply elem_of_unslotted_refs in Hin as [[k Hj] _].
    destruct (updateCardStates_entry cm j k o' Hj) as (o & b' & Hj0 & -> & _).
    exists j, o. destruct (Card.inSlot o) eqn:Hs; [congruence|].
    destruct (setCovered_fields b' o) as (_ & _ & _ & _ & Hlay' & _ & _).
    rewrite checkOverlap_setCovered in Hov.
    repeat split; try assumption; [|lia].
    apply elem_of_unslotted_refs. eauto.
  - intros (j & o & Hin & Hlt & Hso & Hov).
    apply elem_of_unslotted_refs in Hin as [[k Hj] _].
    eexists j, (CardManager.setCovered _ o).
    rewrite checkOverlap_setCovered.
    split; [|split; [|split; [|exact Hov]]].
    + apply elem_of_unslotted_refs. split.
      * exists k. rewrite updateCardStates_lookup, Hj. cbn. rewrite Hso. reflexivity.
      * now destruct (setCovered_fields
                        (CardManager.isCoveredIn
                           (JsArray.sort CardManager.layer_le
                              (List.filter (fun rc => negb (Card.inSlot (snd rc)))
                                 (CardManager.cardRefs (CardManager.cards cm)))) o) o)
          as (_ & _ & _ & _ & _ & -> & _).
    + destruct (setCovered_fields
                  (CardManager.isCoveredIn
                     (JsArray.sort CardManager.layer_le
                        (List.filter (fun rc => negb (Card.inSlot (snd rc)))
                           (CardManager.cardRefs (CardManager.cards cm)))) o) o)
        as (_ & _ & _ & _ & -> & _ & _). lia.
    + now destruct (setCovered_fields
                      (CardManager.isCoveredIn
                         (JsArray.sort CardManager.layer_le
                            (List.filter (fun rc => negb (Card.inSlot (snd rc)))
                               (CardManager.cardRefs (CardManager.cards cm)))) o) o)
        as (_ & _ & _ & _ & _ & -> & _).
Qed.

(** X6. [updateCardStates] is idempotent: run a second time with no
    change in between, it returns the same card manager. *)
Theorem updateCardStates_idempotent (cm : CardManager.CardManager) :
  CardManager.updateCardStates (CardManager.updateCardStates cm)
  = CardManager.updateCardStates cm.
Proof.
  assert (Hcards :
            CardManager.cards (CardManager.updateCardStates (CardManager.updateCardStates cm))
            = CardManager.cards (CardManager.updateCardStates cm)).
  { apply list_eq. intros j.
    rewrite (updateCardStates_lookup (CardManager.updateCardStates cm)).
    rewrite updateCardStates_lookup.
    destruct (CardManager.cards cm !! j) as [[k c]|];
      cbn [fmap option_fmap option_map fst snd]; [|reflexivity].
    destruct (Card.inSlot c) eqn:Hs; cbn [fst snd]; [now rewrite Hs|].
    destruct (setCovered_fields
                (CardManager.isCoveredIn
                   (JsArray.sort CardManager.layer_le
                      (List.filter (fun rc => negb (Card.inSlot (snd rc)))
                         (CardManager.cardRefs (CardManager.cards cm)))) c) c)
      as (_ & _ & _ & _ & _ & Hs' & _).
    rewrite Hs', Hs, isCoveredIn_after_update, setCovered_setCovered. reflexivity. }
  assert (Hnext :
            CardManager.nextId (CardManager.updateCardStates (CardManager.updateCardStates cm))
            = CardManager.nextId (CardManager.updateCardStates cm)) by reflexivity.
  destruct (CardManager.updateCardStates (CardManager.updateCardStates cm)) as [cs n].
  destruct (CardManager.updateCardStates cm) as [cs' n'].
  cbn in Hcards, Hnext. now subst.
Qed.

(** * Further properties of the slot queue *)

Lemma fold_insert_imap {A} (cards base : list A) :
  (length cards <= length base)%nat ->
  fold_left (fun sl ic => <[fst ic := snd ic]> sl)
            (imap (fun index card => (index, card)) cards) base
  = cards ++ drop (length cards) base.
Proof.
  induction cards as [|c cs IH] using rev_ind; intros Hlen; [reflexivity|].
  rewrite length_app in Hlen. cbn in Hlen.
  rewrite imap_app, fold_left_app, IH by lia. cbn [imap fold_left fst snd].
  rewrite insert_app_r.
  destruct (drop (length cs) base) as [|b rest] eqn:Hdrop.
  - exfalso. apply (f_equal length) in Hdrop. rewrite length_drop in Hdrop.
    cbn in Hdrop. lia.
  - cbn. rewrite <- app_assoc. cbn. do 2 f_equal.
    rewrite length_app. cbn.
    assert (H : drop (length cs + 1) base = drop 1 (drop (length cs) base))
      by (rewrite drop_drop; reflexivity).
    rewrite H, Hdrop. reflexivity.
Qed.

Lemma filter_filter_implied {A} (f g : A -> bool) (l : list A) :
  (forall a, f a = true -> g a = true) ->
  List.filter f (List.filter g l) = List.filter f l.
Proof.
  intros Himp. induction l as [|a l IH]; cbn; [reflexivity|].
  destruct (g a) eqn:Hg; cbn.
  - destruct (f a); now rewrite IH.
  - destruct (f a) eqn:Hf; [|exact IH]. rewrite (Himp a Hf) in Hg. discriminate.
Qed.

Lemma filter_replicate_false {A} (f : A -> bool) (a : A) (n : nat) :
  f a = false -> List.filter f (replicate n a) = [].
Proof. intros Hf. induction n as [|n IH]; cbn; [reflexivity|]. now rewrite Hf. Qed.

Lemma hasType_not_null (t : Z) (slot : option SlotManager.CardData) :
  SlotCount.hasType t slot = true -> negb (SlotManager.isNull slot) = true.
Proof. now destruct slot. Qed.

Lemma compactSlots_slots (sm : SlotManager.SlotManager) :
  SlotManager.slots (SlotManager.compactSlots sm)
  = List.filter (fun slot => negb (SlotManager.isNull slot)) (SlotManager.slots sm)
    ++ replicate (length (SlotManager.slots sm) - SlotManager.getCardCount sm) None.
Proof.
  unfold SlotManager.compactSlots, SlotManager.getCardCount. cbn [SlotManager.slots].
  rewrite fold_insert_imap.
  - now rewrite drop_replicate.
  - rewrite length_replicate. apply length_filter_le.
Qed.

(** X7. [compactSlots] is a stable partition: the occupied slots come
    first, in their old order, followed by the empty ones; the number of
    slots, the number of cards and the number of cards of each type are
    kept; compacting twice is compacting once. *)
Theorem compactSlots_stable (sm : SlotManager.SlotManager) :
  SlotManager.slots (SlotManager.compactSlots sm)
  = List.filter (fun slot => negb (SlotManager.isNull slot)) (SlotManager.slots sm)
    ++ replicate (length (SlotManager.slots sm) - SlotManager.getCardCount sm) None
  /\ length (SlotManager.slots (SlotManager.compactSlots sm))
     = length (SlotManager.slots sm)
  /\ SlotManager.getCardCount (SlotManager.compactSlots sm)
     = SlotManager.getCardCount sm
  /\ (forall t, SlotCount.ofType t (SlotManager.slots (SlotManager.compactSlots sm))
                = SlotCount.ofType t (SlotManager.slots sm))
  /\ SlotManager.compactSlots (SlotManager.compactSlots sm)
     = SlotManager.compactSlots sm.
Proof.
  assert (Hocc : List.filter (fun slot => negb (SlotManager.isNull slot))
                   (SlotManager.slots (SlotManager.compactSlots sm))
                 = List.filter (fun slot => negb (SlotManager.isNull slot))
                               (SlotManager.slots sm)).
  { rewrite compactSlots_slots, List.filter_app, filter_filter_implied by auto.
    rewrite filter_replicate_false by reflexivity. apply app_nil_r. }
  split; [apply compactSlots_slots|].
  split; [apply compactSlots_length|].
  split; [unfold SlotManager.getCardCount; now rewrite Hocc|].
  split.
  - intros t. unfold SlotCount.ofType.
    rewrite compactSlots_slots, List.filter_app.
    rewrite filter_filter_implied by apply hasType_not_null.
    rewrite filter_replicate_false by reflexivity. now rewrite app_nil_r.
  - assert (Hs : SlotManager.slots (SlotManager.compactSlots (SlotManager.compactSlots sm))
                 = SlotManager.slots (SlotManager.compactSlots sm)).
    { rewrite (compactSlots_slots (SlotManager.compactSlots sm)).
      unfold SlotManager.getCardCount. rewrite Hocc, compactSlots_length.
      symmetry. apply compactSlots_slots. }
    unfold SlotManager.compactSlots at 1.
    unfold SlotManager.compactSlots at 1 in Hs. cbn [SlotManager.slots] in Hs.
    rewrite Hs. now destruct (SlotManager.compactSlots sm).
Qed.

Lemma length_filter_partition {A} (f : A -> bool) (l : list A) :
  (length (List.filter f l) + length (List.filter (fun a => negb (f a)) l)
   = length l)%nat.
Proof. induction l as [|a l IH]; cbn; [reflexivity|]. destruct (f a); cbn; lia. Qed.

(** X8. The derived queries agree with one another and with [addCard]:
    the card count and the empty-slot count add up to the number of slots;
    [isFull] holds exactly when no slot is empty; and [addCard] reports
    success exactly when the queue is not full, whatever the listeners
    do. *)
Theorem addCard_succeeds_iff_not_full {X}
        (dispatchEvent : SlotManager.Eliminated -> SlotManager.SlotManager -> X -> X)
        (cardData : SlotManager.CardData) (sm : SlotManager.SlotManager) (x : X) :
  (SlotManager.getCardCount sm + SlotManager.getEmptySlotCount sm
   = length (SlotManager.slots sm))%nat
  /\ (SlotManager.isFull sm = true <-> SlotManager.getEmptySlotCount sm = 0%nat)
  /\ fst (fst (SlotManager.addCard dispatchEvent cardData sm x))
     = negb (SlotManager.isFull sm).
Proof.
  assert (Hfull : SlotManager.isFull sm = true <->
                  JsArray.findIndex SlotManager.isNull (SlotManager.slots sm) = None).
  { unfold SlotManager.isFull. rewrite forallb_forall, findIndex_None.
    split; intros H slot Hin; specialize (H slot Hin);
      [now apply negb_true_iff in H|now apply negb_true_iff]. }
  split; [|split].
  - unfold SlotManager.getCardCount, SlotManager.getEmptySlotCount.
    rewrite <- (length_filter_partition (fun slot => negb (SlotManager.isNull slot))
                                        (SlotManager.slots sm)).
    f_equal. f_equal. clear. induction (SlotManager.slots sm) as [|s l IH]; cbn;
      [reflexivity|]. destruct (SlotManager.isNull s); cbn; now rewrite IH.
  - rewrite Hfull, findIndex_None. unfold SlotManager.getEmptySlotCount. split.
    + intros H. rewrite (proj2 (length_zero_iff_nil _)); [reflexivity|].
      clear Hfull. induction (SlotManager.slots sm) as [|s l IH]; cbn; [reflexivity|].
      rewrite (H s (or_introl eq_refl)). apply IH. intros a Ha. apply H. now right.
    + intros H slot Hin. destruct (SlotManager.isNull slot) eqn:E; [|reflexivity].
      assert (Hin' : In slot (List.filter SlotManager.isNull (SlotManager.slots sm)))
        by (apply filter_In; auto).
      apply length_zero_iff_nil in H. rewrite H in Hin'. destruct Hin'.
  - unfold SlotManager.addCard.
    destruct (SlotManager.isFull sm) eqn:F.
    + rewrite (proj1 Hfull eq_refl). reflexivity.
    + destruct (JsArray.findIndex SlotManager.isNull (SlotManager.slots sm)) as [i|] eqn:E.
      * now destruct (SlotManager.checkForElimination _ _ _) as [[e sm2] x2].
      * destruct Hfull as [_ H]. specialize (H eq_refl). discriminate.
Qed.

(** ** The elimination pass in general *)

Lemma JsMap_get_mutate_eq {V} (f : V -> V) (k : Z) (m : JsMap.t V) :
  JsMap.get k (JsMap.mutate f k m) = f <$> JsMap.get k m.
Proof.
  induction m as [|[k0 v0] m IH]; cbn; [reflexivity|].
  destruct (Z.eqb k0 k) eqn:E; cbn; rewrite E; [reflexivity|exact IH].
Qed.

Lemma JsMap_get_mutate_ne {V} (f : V -> V) (k k' : Z) (m : JsMap.t V) :
  k' <> k -> JsMap.get k' (JsMap.mutate f k m) = JsMap.get k' m.
Proof.
  intros Hne. induction m as [|[k0 v0] m IH]; cbn; [reflexivity|].
  destruct (Z.eqb_spec k0 k) as [->|Hk]; cbn.
  - destruct (Z.eqb_spec k k'); [congruence|reflexivity].
  - destruct (Z.eqb k0 k'); [reflexivity|exact IH].
Qed.

Lemma JsMap_keys_mutate {V} (f : V -> V) (k : Z) (m : JsMap.t V) :
  List.map fst (JsMap.mutate f k m) = List.map fst m.
Proof.
  induction m as [|[k0 v0] m IH]; cbn; [reflexivity|].
  destruct (Z.eqb k0 k); cbn; [reflexivity|now rewrite IH].
Qed.

Lemma JsMap_get_None {V} (k : Z) (m : JsMap.t V) :
  JsMap.get k m = None <-> ~ In k (List.map fst m).
Proof.
  induction m as [|[k0 v0] m IH]; cbn; [tauto|].
  destruct (Z.eqb_spec k0 k) as [->|Hk].
  - split; [discriminate|]. intros H. exfalso. apply H. now left.
  - rewrite IH. tauto.
Qed.

Lemma JsMap_set_fresh {V} (k : Z) (v : V) (m : JsMap.t V) :
  JsMap.get k m = None -> JsMap.set k v m = m ++ [(k, v)].
Proof.
  induction m as [|[k0 v0] m IH]; cbn; [reflexivity|].
  destruct (Z.eqb k0 k); [discriminate|]. intros H. now rewrite IH.
Qed.

Lemma JsMap_In_get {V} (k : Z) (v : V) (m : JsMap.t V) :
  List.NoDup (List.map fst m) -> (In (k, v) m <-> JsMap.get k m = Some v).
Proof.
  induction m as [|[k0 v0] m IH]; cbn; intros Hnd.
  - split; [tauto|discriminate].
  - inversion Hnd as [|? ? Hnin Hnd']; subst.
    destruct (Z.eqb_spec k0 k) as [->|Hk].
    + split.
      * intros [[= ->]|Hin]; [reflexivity|].
        exfalso. apply Hnin. apply in_map_iff. now exists (k, v).
      * intros [= ->]. now left.
    + rewrite <- (IH Hnd'). split; [|tauto].
      intros [[= -> ->]|Hin]; [congruence|exact Hin].
Qed.

Lemma typeCount_snoc (sl : list (option SlotManager.CardData))
      (s : option SlotManager.CardData) :
  SlotManager.typeCount (sl ++ [s])
  = match s with
    | Some slot =>
        JsMap.mutate (fun l => l ++ [length sl]) (SlotManager.type slot)
          (match JsMap.get (SlotManager.type slot) (SlotManager.typeCount sl) with
           | Some _ => SlotManager.typeCount sl
           | None => JsMap.set (SlotManager.type slot) [] (SlotManager.typeCount sl)
           end)
    | None => SlotManager.typeCount sl
    end.
Proof.
  unfold SlotManager.typeCount. rewrite imap_app, fold_left_app.
  cbn [imap fold_left snd fst]. rewrite Nat.add_0_r. reflexivity.
Qed.

Lemma indicesOfType_snoc (t : Z) (sl : list (option SlotManager.CardData))
      (s : option SlotManager.CardData) :
  SlotCount.indicesOfType t (sl ++ [s])
  = SlotCount.indicesOfType t sl ++ (if SlotCount.hasType t s then [length sl] else []).
Proof.
  unfold SlotCount.indicesOfType. rewrite imap_app, List.filter_app, List.map_app.
  cbn [imap List.filter snd]. rewrite Nat.add_0_r.
  now destruct (SlotCount.hasType t s).
Qed.

Lemma ofType_snoc (t : Z) (sl : list (option SlotManager.CardData))
      (s : option SlotManager.CardData) :
  SlotCount.ofType t (sl ++ [s])
  = (SlotCount.ofType t sl + (if SlotCount.hasType t s then 1 else 0))%nat.
Proof.
  unfold SlotCount.ofType. rewrite List.filter_app, length_app. cbn.
  now destruct (SlotCount.hasType t s).
Qed.

Lemma length_indicesOfType (t : Z) (sl : list (option SlotManager.CardData)) :
  length (SlotCount.indicesOfType t sl) = SlotCount.ofType t sl.
Proof.
  induction sl as [|s sl IH] using rev_ind; [reflexivity|].
  rewrite indicesOfType_snoc, ofType_snoc, length_app, IH.
  now destruct (SlotCount.hasType t s).
Qed.

(** The object built by the first loop: one property per type present,
    holding the indices of that type in ascending order. *)
Lemma typeCount_spec (sl : list (option SlotManager.CardData)) :
  List.NoDup (List.map fst (SlotManager.typeCount sl))
  /\ forall t, JsMap.get t (SlotManager.typeCount sl)
               = match SlotCount.indicesOfType t sl with
                 | [] => None
                 | _ :: _ => Some (SlotCount.indicesOfType t sl)
                 end.
Proof.
  induction sl as [|s sl [IHnd IHget]] using rev_ind.
  - split; [constructor|reflexivity].
  - rewrite typeCount_snoc. destruct s as [slot|].
    + set (t0 := SlotManager.type slot).
      assert (Hh : forall t, SlotCount.hasType t (Some slot) = Z.eqb t0 t) by reflexivity.
      destruct (JsMap.get t0 (SlotManager.typeCount sl)) as [l0|] eqn:Hget0.
      * split; [now rewrite JsMap_keys_mutate|].
        intros t. rewrite indicesOfType_snoc, Hh.
        destruct (Z.eqb_spec t0 t) as [<-|Hne].
        -- rewrite JsMap_get_mutate_eq, Hget0. rewrite IHget in Hget0.
           destruct (SlotCount.indicesOfType t0 sl); [discriminate|].
           inversion Hget0; subst. reflexivity.
        -- rewrite JsMap_get_mutate_ne by congruence. rewrite app_nil_r. apply IHget.
      * rewrite (JsMap_set_fresh _ _ _ Hget0). split.
        -- rewrite JsMap_keys_mutate, List.map_app. cbn.
           apply NoDup_ListNoDup, NoDup_app. repeat split.
           ++ now apply NoDup_ListNoDup.
           ++ intros k Hk Hk'. apply list_elem_of_singleton in Hk'. subst k.
              apply JsMap_get_None in Hget0. apply Hget0. now apply list_elem_of_In.
           ++ apply NoDup_singleton.
        -- intros t. rewrite indicesOfType_snoc, Hh.
           destruct (Z.eqb_spec t0 t) as [<-|Hne].
           ++ rewrite JsMap_get_mutate_eq.
              rewrite <- (JsMap_set_fresh _ [] _ Hget0), JsMap_get_set_eq.
              rewrite IHget in Hget0.
              destruct (SlotCount.indicesOfType t0 sl); [reflexivity|discriminate].
           ++ rewrite JsMap_get_mutate_ne by congruence.
              rewrite <- (JsMap_set_fresh _ [] _ Hget0), JsMap_get_set_ne by congruence.
              rewrite app_nil_r. apply IHget.
    + split; [exact IHnd|]. intros t. rewrite indicesOfType_snoc. cbn.
      rewrite app_nil_r. apply IHget.
Qed.

Lemma filter_partition_Permutation {A} (p : A -> bool) (l : list A) :
  Permutation (List.filter p l ++ List.filter (fun a => negb (p a)) l) l.
Proof.
  induction l as [|a l IH]; cbn; [reflexivity|].
  destruct (p a); cbn.
  - now rewrite IH.
  - rewrite <- Permutation_middle. now rewrite IH.
Qed.

Lemma forInEntries_Permutation {V} (o : JsMap.t V) :
  Permutation (JsObject.forInEntries o) o.
Proof.
  unfold JsObject.forInEntries. rewrite sort_Permutation.
  apply filter_partition_Permutation.
Qed.

(** What the [for ... in] loop does to the flag and to the slots, for any
    list of entries and any listener: the slots at the first three indices
    of each entry of three indices or more are emptied. *)
Lemma forIn_eliminateType_slots {X}
      (d : SlotManager.Eliminated -> SlotManager.SlotManager -> X -> X)
      (entries : list (Z * list nat)) (st : bool * SlotManager.SlotManager * X) :
  fst (fst (fold_left (SlotManager.eliminateType d) entries st))
  = fst (fst st) || existsb (fun e => Nat.leb 3 (length (snd e))) entries
  /\ SlotManager.slots (snd (fst (fold_left (SlotManager.eliminateType d) entries st)))
     = fold_left (fun sl index => <[index := None]> sl)
                 (flat_map (fun e => if Nat.leb 3 (length (snd e))
                                     then take 3 (snd e) else []) entries)
                 (SlotManager.slots (snd (fst st))).
Proof.
  revert st. induction entries as [|e entries IH]; intros [[b sm] x].
  - cbn. now rewrite orb_false_r.
  - cbn [fold_left flat_map existsb].
    destruct (IH (SlotManager.eliminateType d (b, sm, x) e)) as [IHb IHs]. rewrite IHb, IHs. unfold SlotManager.eliminateType.
    destruct (Nat.leb 3 (length (snd e))); cbn [fst snd SlotManager.slots].
    + rewrite fold_left_app. split; [now rewrite orb_true_r|reflexivity].
    + split; [now rewrite orb_false_l|reflexivity].
Qed.

(** The events recorded by the loop, in loop order. *)
Lemma forIn_eliminateType_events
      (entries : list (Z * list nat))
      (st : bool * SlotManager.SlotManager * list SlotManager.Eliminated) :
  snd (fold_left (SlotManager.eliminateType SlotManager.record) entries st)
  = snd st
    ++ List.map (fun e => SlotManager.mkEliminated (fst e) (take 3 (snd e)))
                (List.filter (fun e => Nat.leb 3 (length (snd e))) entries).
Proof.
  revert st. induction entries as [|e entries IH]; intros [[b sm] log].
  - cbn. now rewrite app_nil_r.
  - cbn [fold_left List.filter]. rewrite IH. unfold SlotManager.eliminateType.
    destruct (Nat.leb 3 (length (snd e))); cbn [snd List.map]; [|reflexivity].
    unfold SlotManager.record. now rewrite <- app_assoc.
Qed.

Lemma lookup_fold_clear {A} (removed : list nat) (sl : list (option A)) (i : nat) :
  fold_left (fun sl index => <[index := None]> sl) removed sl !! i
  = if decide (i ∈ removed) then (fun _ => None) <$> sl !! i else sl !! i.
Proof.
  revert sl. induction removed as [|r removed IH]; intros sl.
  - destruct (decide (i ∈ [])) as [H|H]; [|reflexivity].
    exfalso. revert H. apply not_elem_of_nil.
  - cbn [fold_left]. rewrite IH.
    destruct (decide (i = r)) as [->|Hne].
    + destruct (decide (r ∈ r :: removed)) as [_|Hn]; [|exfalso; apply Hn; now left].
      destruct (lt_dec r (length sl)) as [Hlt|Hge].
      * rewrite list_lookup_insert_eq by assumption.
        destruct (lookup_lt_is_Some_2 sl r Hlt) as [a ->].
        now destruct (decide (r ∈ removed)).
      * rewrite list_insert_ge by lia. rewrite (lookup_ge_None_2 sl r) by lia.
        now destruct (decide (r ∈ removed)).
    + rewrite list_lookup_insert_ne by congruence.
      destruct (decide (i ∈ removed)) as [Hin|Hnin];
        destruct (decide (i ∈ r :: removed)) as [Hin'|Hnin']; try reflexivity; exfalso.
      * apply Hnin'. now right.
      * apply elem_of_cons in Hin' as [?|?]; [congruence|tauto].
Qed.

Lemma elem_take_three (t : Z) (sl : list (option SlotManager.CardData)) (i : nat) :
  i ∈ take 3 (SlotCount.indicesOfType t sl)
  <-> (exists s, sl !! i = Some s /\ SlotCount.hasType t s = true)
      /\ (SlotCount.ofType t (take i sl) < 3)%nat.
Proof.
  induction sl as [|s sl IH] using rev_ind.
  - cbn. split; [intros H; now apply elem_of_nil in H|].
    intros [(s & Hs & _) _]. discriminate.
  - rewrite indicesOfType_snoc, take_app, elem_of_app, IH, length_indicesOfType.
    split.
    + intros [[(s' & Hi & Hty) Hlt]|Hin].
      * pose proof (lookup_lt_Some _ _ _ Hi) as Hlen.
        rewrite lookup_app_l by assumption.
        rewrite take_app_le by lia. eauto.
      * destruct (SlotCount.hasType t s) eqn:Hty;
          [|rewrite take_nil in Hin; now apply elem_of_nil in Hin].
        destruct (3 - SlotCount.ofType t sl)%nat as [|n] eqn:Hn;
          [now apply elem_of_nil in Hin|].
        cbn in Hin. rewrite take_nil in Hin. apply list_elem_of_singleton in Hin.
        subst i. split.
        -- exists s. split; [|exact Hty].
           rewrite lookup_app_r by lia. now rewrite Nat.sub_diag.
        -- rewrite take_app_length. lia.
    + intros [(s' & Hi & Hty) Hlt].
      destruct (lt_dec i (length sl)) as [Hlen|Hlen].
      * left. rewrite lookup_app_l in Hi by assumption.
        rewrite take_app_le in Hlt by lia. eauto.
      * right. pose proof (lookup_lt_Some _ _ _ Hi) as Hlen'.
        rewrite length_app in Hlen'. cbn in Hlen'.
        assert (i = length sl) by lia. subst i.
        rewrite lookup_app_r in Hi by lia. rewrite Nat.sub_diag in Hi.
        cbn in Hi. inversion Hi; subst s'. rewrite Hty.
        rewrite take_app_length in Hlt.
        destruct (3 - SlotCount.ofType t sl)%nat as [|n] eqn:Hn; [lia|].
        cbn. now left.
Qed.

Lemma removed_indices_spec (sl : list (option SlotManager.CardData)) (i : nat) :
  i ∈ flat_map (fun e : Z * list nat =>
                  if Nat.leb 3 (length (snd e)) then take 3 (snd e) else [])
               (JsObject.forInEntries (SlotManager.typeCount sl))
  <-> exists t, (3 <= SlotCount.ofType t sl)%nat
                /\ i ∈ take 3 (SlotCount.indicesOfType t sl).
Proof.
  destruct (typeCount_spec sl) as [Hnd Hget].
  rewrite list_elem_of_In, in_flat_map. split.
  - intros ([t idxs] & Hin & Hi). cbn [snd] in Hi.
    apply (Permutation_in _ (forInEntries_Permutation _)) in Hin.
    apply (JsMap_In_get _ _ _ Hnd) in Hin. rewrite Hget in Hin.
    destruct (SlotCount.indicesOfType t sl) as [|i0 l] eqn:Hidx; [discriminate|].
    inversion Hin; subst idxs. exists t.
    rewrite <- length_indicesOfType, Hidx.
    destruct (Nat.leb_spec 3 (length (i0 :: l))); [|destruct Hi].
    split; [assumption|now apply list_elem_of_In].
  - intros (t & Hge & Hi). exists (t, SlotCount.indicesOfType t sl). split.
    + apply (Permutation_in _ (Permutation_sym (forInEntries_Permutation _))).
      apply (JsMap_In_get _ _ _ Hnd). rewrite Hget.
      rewrite <- length_indicesOfType in Hge.
      destruct (SlotCount.indicesOfType t sl); [cbn in Hge; lia|reflexivity].
    + cbn [snd]. rewrite length_indicesOfType.
      destruct (Nat.leb_spec 3 (SlotCount.ofType t sl)); [|lia].
      now apply list_elem_of_In.
Qed.

(** The slots after the loop, position by position. *)
Lemma cleared_slots_spec (sl : list (option SlotManager.CardData)) :
  fold_left (fun sl index => <[index := None]> sl)
            (flat_map (fun e : Z * list nat =>
                         if Nat.leb 3 (length (snd e)) then take 3 (snd e) else [])
                      (JsObject.forInEntries (SlotManager.typeCount sl)))
            sl
  = imap (SlotCount.afterElimination sl) sl.
Proof.
  apply list_eq. intros i. rewrite lookup_fold_clear, list_lookup_imap.
  destruct (sl !! i) as [[cd|]|] eqn:Hi; cbn [fmap option_fmap option_map].
  - unfold SlotCount.afterElimination.
    destruct (decide _) as [Hin|Hnin].
    + apply removed_indices_spec in Hin as (t & Hge & Hin).
      apply elem_take_three in Hin as [(s & Hs & Hty) Hlt].
      rewrite Hi in Hs. inversion Hs; subst s. cbn in Hty.
      apply Z.eqb_eq in Hty. subst t.
      apply Nat.leb_le in Hge. apply Nat.ltb_lt in Hlt. now rewrite Hge, Hlt.
    + destruct (Nat.leb_spec 3 (SlotCount.ofType (SlotManager.type cd) sl)) as [Hge|];
        [|reflexivity].
      destruct (Nat.ltb_spec (SlotCount.ofType (SlotManager.type cd) (take i sl)) 3)
        as [Hlt|]; [|reflexivity].
      exfalso. apply Hnin. apply removed_indices_spec.
      exists (SlotManager.type cd). split; [exact Hge|].
      apply elem_take_three. split; [|exact Hlt].
      exists (Some cd). split; [exact Hi|]. cbn. apply Z.eqb_refl.
  - now destruct (decide _).
  - now destruct (decide _).
Qed.

Lemma hasType_afterElimination (t : Z) (sl : list (option SlotManager.CardData))
      (i : nat) (s : option SlotManager.CardData) :
  SlotCount.hasType t (SlotCount.afterElimination sl i s)
  = SlotCount.hasType t s
    && negb (Nat.leb 3 (SlotCount.ofType t sl)
             && Nat.ltb (SlotCount.ofType t (take i sl)) 3).
Proof.
  destruct s as [cd|]; [|reflexivity].
  unfold SlotCount.afterElimination. cbn [SlotCount.hasType].
  destruct (Z.eqb_spec (SlotManager.type cd) t) as [Heq|Hne].
  - rewrite Heq.
    destruct (Nat.leb 3 (SlotCount.ofType t sl)
              && Nat.ltb (SlotCount.ofType t (take i sl)) 3); cbn;
      [reflexivity|]. rewrite Heq. apply Z.eqb_refl.
  - destruct (Nat.leb 3 (SlotCount.ofType (SlotManager.type cd) sl)
              && Nat.ltb (SlotCount.ofType (SlotManager.type cd) (take i sl)) 3); cbn;
      [reflexivity|]. now apply Z.eqb_neq.
Qed.

Lemma ofType_take_cleared (t : Z) (sl : list (option SlotManager.CardData)) (i : nat) :
  (i <= length sl)%nat ->
  SlotCount.ofType t (take i (imap (SlotCount.afterElimination sl) sl))
  = if Nat.leb 3 (SlotCount.ofType t sl)
    then (SlotCount.ofType t (take i sl) - 3)%nat
    else SlotCount.ofType t (take i sl).
Proof.
  induction i as [|i IH]; intros Hlen.
  - destruct (Nat.leb 3 (SlotCount.ofType t sl)); reflexivity.
  - destruct (lookup_lt_is_Some_2 sl i ltac:(lia)) as [s Hs].
    rewrite (take_S_r _ _ (SlotCount.afterElimination sl i s))
      by (rewrite list_lookup_imap, Hs; reflexivity).
    rewrite (take_S_r sl i s Hs), !ofType_snoc, IH by lia.
    rewrite hasType_afterElimination.
    destruct (Nat.leb_spec 3 (SlotCount.ofType t sl)) as [Hge|Hlt]; cbn [andb negb].
    + destruct (SlotCount.hasType t s); cbn [andb];
        destruct (Nat.ltb_spec (SlotCount.ofType t (take i sl)) 3); cbn [negb]; lia.
    + destruct (SlotCount.hasType t s); cbn [andb negb]; lia.
Qed.

Lemma ofType_cleared (t : Z) (sl : list (option SlotManager.CardData)) :
  SlotCount.ofType t (imap (SlotCount.afterElimination sl) sl)
  = if Nat.leb 3 (SlotCount.ofType t sl)
    then (SlotCount.ofType t sl - 3)%nat
    else SlotCount.ofType t sl.
Proof.
  pose proof (ofType_take_cleared t sl (length sl) (le_n _)) as H.
  rewrite firstn_all in H.
  rewrite <- (firstn_all (imap (SlotCount.afterElimination sl) sl)).
  now rewrite length_imap.
Qed.

Lemma some_triple_spec (sl : list (option SlotManager.CardData)) :
  existsb (fun e : Z * list nat => Nat.leb 3 (length (snd e)))
          (JsObject.forInEntries (SlotManager.typeCount sl)) = true
  <-> exists t, (3 <= SlotCount.ofType t sl)%nat.
Proof.
  destruct (typeCount_spec sl) as [Hnd Hget].
  rewrite existsb_exists. split.
  - intros ([t idxs] & Hin & Hlen). cbn [snd] in Hlen. apply Nat.leb_le in Hlen.
    apply (Permutation_in _ (forInEntries_Permutation _)) in Hin.
    apply (JsMap_In_get _ _ _ Hnd) in Hin. rewrite Hget in Hin.
    destruct (SlotCount.indicesOfType t sl) as [|i0 l] eqn:Hidx; [discriminate|].
    inversion Hin; subst idxs. exists t. now rewrite <- length_indicesOfType, Hidx.
  - intros (t & Hge). exists (t, SlotCount.indicesOfType t sl). split.
    + apply (Permutation_in _ (Permutation_sym (forInEntries_Permutation _))).
      apply (JsMap_In_get _ _ _ Hnd). rewrite Hget.
      rewrite <- length_indicesOfType in Hge.
      destruct (SlotCount.indicesOfType t sl); [cbn in Hge; lia|reflexivity].
    + cbn [snd]. rewrite length_indicesOfType. now apply Nat.leb_le.
Qed.

Lemma compactSlots_ofType (t : Z) (sm : SlotManager.SlotManager) :
  SlotCount.ofType t (SlotManager.slots (SlotManager.compactSlots sm))
  = SlotCount.ofType t (SlotManager.slots sm).
Proof.
  unfold SlotCount.ofType. rewrite compactSlots_slots, List.filter_app.
  rewrite filter_filter_implied by apply hasType_not_null.
  rewrite filter_replicate_false by reflexivity. now rewrite app_nil_r.
Qed.

Lemma checkForElimination_spec {X}
        (dispatchEvent : SlotManager.Eliminated -> SlotManager.SlotManager -> X -> X)
        (sm : SlotManager.SlotManager) (x : X) :
  let sl := SlotManager.slots sm in
  let result := SlotManager.checkForElimination dispatchEvent sm x in
  let kept :=
    List.filter (fun slot => negb (SlotManager.isNull slot))
                (imap (SlotCount.afterElimination sl) sl) in
  (fst (fst result) = true <-> exists t, (3 <= SlotCount.ofType t sl)%nat)
  /\ SlotManager.slots (snd (fst result))
     = (if fst (fst result)
        then kept ++ replicate (length sl - length kept) None
        else sl)
  /\ (fst (fst result) = false -> snd (fst result) = sm)
  /\ forall t,
       SlotCount.ofType t (SlotManager.slots (snd (fst result)))
       = if Nat.leb 3 (SlotCount.ofType t sl)
         then (SlotCount.ofType t sl - 3)%nat
         else SlotCount.ofType t sl.
Proof.
  intros sl result kept.
  assert (Hflag : fst (fst result) = true <-> exists t, (3 <= SlotCount.ofType t sl)%nat).
  { rewrite <- some_triple_spec. subst result. unfold SlotManager.checkForElimination.
    destruct (forIn_eliminateType_slots dispatchEvent
                (JsObject.forInEntries (SlotManager.typeCount (SlotManager.slots sm)))
                (false, sm, x)) as [Hb _].
    destruct (fold_left _ _ _) as [[e sm1] x1]. cbn [fst snd] in Hb. cbn [orb] in Hb.
    fold sl in Hb. rewrite <- Hb. now destruct e. }
  assert (Hfalse : fst (fst result) = false -> snd (fst result) = sm).
  { intros H. subst result. now rewrite (checkForElimination_false _ _ _ H). }
  assert (Htrue : fst (fst result) = true ->
                  SlotManager.slots (snd (fst result))
                  = kept ++ replicate (length sl - length kept) None
                  /\ forall t, SlotCount.ofType t (SlotManager.slots (snd (fst result)))
                               = SlotCount.ofType t (imap (SlotCount.afterElimination sl) sl)).
  { subst result. unfold SlotManager.checkForElimination.
    destruct (forIn_eliminateType_slots dispatchEvent
                (JsObject.forInEntries (SlotManager.typeCount (SlotManager.slots sm)))
                (false, sm, x)) as [_ Hs].
    destruct (fold_left _ _ _) as [[e sm1] x1]. cbn [fst snd] in Hs.
    fold sl in Hs. rewrite cleared_slots_spec in Hs.
    destruct e; cbn [fst snd]; [intros _|discriminate]. split.
    - rewrite compactSlots_slots. unfold SlotManager.getCardCount.
      rewrite Hs, length_imap. reflexivity.
    - intros t. now rewrite compactSlots_ofType, Hs. }
  split; [exact Hflag|]. split; [|split; [exact Hfalse|]].
  - destruct (fst (fst result)) eqn:E.
    + now apply Htrue.
    + now rewrite (Hfalse eq_refl).
  - intros t. destruct (fst (fst result)) eqn:E.
    + destruct (Htrue eq_refl) as [_ H]. rewrite H. apply ofType_cleared.
    + rewrite (Hfalse eq_refl). fold sl.
      destruct (Nat.leb_spec 3 (SlotCount.ofType t sl)) as [Hge|]; [|reflexivity].
      assert (false = true); [|discriminate].
      apply Hflag. eauto.
Qed.

(** X9. One pass of [checkForElimination], on any slot array and with any
    listener.  It reports an elimination exactly when some type holds
    three slots or more; each such type loses its first three cards (a
    type with [n >= 3] cards keeps [n - 3]), every other card stays; the
    cards that stay keep their order and are moved to the left, the empty
    slots to the right; with nothing to eliminate the slot manager is
    returned as it was. *)
Theorem checkForElimination_general {X}
        (dispatchEvent : SlotManager.Eliminated -> SlotManager.SlotManager -> X -> X)
        (sm : SlotManager.SlotManager) (x : X) :
  let sl := SlotManager.slots sm in
  let result := SlotManager.checkForElimination dispatchEvent sm x in
  let kept :=
    List.filter (fun slot => negb (SlotManager.isNull slot))
                (imap (SlotCount.afterElimination sl) sl) in
  (fst (fst result) = true <-> exists t, (3 <= SlotCount.ofType t sl)%nat)
  /\ SlotManager.slots (snd (fst result))
     = (if fst (fst result)
        then kept ++ replicate (length sl - length kept) None
        else sl)
  /\ (fst (fst result) = false -> snd (fst result) = sm)
  /\ forall t,
       SlotCount.ofType t (SlotManager.slots (snd (fst result)))
       = if Nat.leb 3 (SlotCount.ofType t sl)
         then (SlotCount.ofType t sl - 3)%nat
         else SlotCount.ofType t sl.
Proof. exact (checkForElimination_spec dispatchEvent sm x). Qed.

Lemma NoDup_map_filter {A B} (f : A -> B) (p : A -> bool) (l : list A) :
  List.NoDup (List.map f l) -> List.NoDup (List.map f (List.filter p l)).
Proof.
  induction l as [|a l IH]; cbn; intros Hnd; [constructor|].
  inversion Hnd as [|? ? Hnin Hnd']; subst.
  destruct (p a); cbn; [|now apply IH].
  constructor; [|now apply IH].
  intros Hin. apply Hnin. apply in_map_iff in Hin as (b & Hb & Hin).
  apply filter_In in Hin as [Hin _]. apply in_map_iff. eauto.
Qed.

(** X10. The events of one pass: [checkForElimination] raises one
    [cardsEliminated] event for each type that holds three slots or more,
    and no other; the event of a type carries that type and its first
    three occupied indices, in ascending order. *)
Theorem checkForElimination_events (sm : SlotManager.SlotManager)
        (log : list SlotManager.Eliminated) :
  let sl := SlotManager.slots sm in
  exists events,
    snd (SlotManager.checkForElimination SlotManager.record sm log) = log ++ events
    /\ (forall e, In e events <->
                  exists t, (3 <= SlotCount.ofType t sl)%nat
                            /\ e = SlotManager.mkEliminated
                                     t (take 3 (SlotCount.indicesOfType t sl)))
    /\ List.NoDup (List.map SlotManager.ev_type events)
    /\ (forall e, In e events -> length (SlotManager.ev_indices e) = 3%nat).
Proof.
  intros sl.
  set (entries := JsObject.forInEntries (SlotManager.typeCount sl)).
  exists (List.map (fun e => SlotManager.mkEliminated (fst e) (take 3 (snd e)))
                   (List.filter (fun e => Nat.leb 3 (length (snd e))) entries)).
  destruct (typeCount_spec sl) as [Hnd Hget].
  assert (Hmem : forall e, In e (List.map (fun e => SlotManager.mkEliminated (fst e) (take 3 (snd e)))
                   (List.filter (fun e => Nat.leb 3 (length (snd e))) entries)) <->
                  exists t, (3 <= SlotCount.ofType t sl)%nat
                            /\ e = SlotManager.mkEliminated
                                     t (take 3 (SlotCount.indicesOfType t sl))).
  { intros e. rewrite in_map_iff. split.
    - intros ([t idxs] & <- & Hin). apply filter_In in Hin as [Hin Hlen].
      cbn [fst snd] in *. apply Nat.leb_le in Hlen.
      apply (Permutation_in _ (forInEntries_Permutation _)) in Hin.
      apply (JsMap_In_get _ _ _ Hnd) in Hin. rewrite Hget in Hin.
      destruct (SlotCount.indicesOfType t sl) as [|i0 l] eqn:Hidx; [discriminate|].
      inversion Hin; subst idxs. exists t.
      now rewrite <- length_indicesOfType, Hidx.
    - intros (t & Hge & ->). exists (t, SlotCount.indicesOfType t sl).
      split; [reflexivity|]. apply filter_In. split.
      + apply (Permutation_in _ (Permutation_sym (forInEntries_Permutation _))).
        apply (JsMap_In_get _ _ _ Hnd). rewrite Hget.
        rewrite <- length_indicesOfType in Hge.
        destruct (SlotCount.indicesOfType t sl); [cbn in Hge; lia|reflexivity].
      + cbn [snd]. rewrite length_indicesOfType. now apply Nat.leb_le. }
  split; [|split; [exact Hmem|split]].
  - unfold SlotManager.checkForElimination. fold sl. fold entries.
    pose proof (forIn_eliminateType_events entries (false, sm, log)) as Hev.
    destruct (fold_left _ _ _) as [[e sm1] x1]. cbn [snd] in Hev.
    now destruct e.
  - rewrite List.map_map. cbn [SlotManager.ev_type].
    apply NoDup_map_filter.
    apply (Permutation_NoDup (l := List.map fst (SlotManager.typeCount sl)));
      [|exact Hnd].
    apply Permutation_map. symmetry. apply forInEntries_Permutation.
  - intros e He. apply Hmem in He as (t & Hge & ->). cbn [SlotManager.ev_indices].
    rewrite length_take, length_indicesOfType. lia.
Qed.

Lemma ofType_replicate_None (t : Z) (n : nat) :
  SlotCount.ofType t (replicate n None) = 0%nat.
Proof.
  unfold SlotCount.ofType. now rewrite filter_replicate_false.
Qed.

Lemma ofType_app (t : Z) (l1 l2 : list (option SlotManager.CardData)) :
  SlotCount.ofType t (l1 ++ l2) = (SlotCount.ofType t l1 + SlotCount.ofType t l2)%nat.
Proof. unfold SlotCount.ofType. now rewrite List.filter_app, length_app. Qed.

Lemma ofType_insert_empty (t : Z) (sl : list (option SlotManager.CardData))
      (i : nat) (s : option SlotManager.CardData) :
  sl !! i = Some None ->
  SlotCount.ofType t (<[i := s]> sl)
  = (SlotCount.ofType t sl + (if SlotCount.hasType t s then 1 else 0))%nat.
Proof.
  intros Hi. pose proof (lookup_lt_Some _ _ _ Hi) as Hlen.
  rewrite insert_take_drop by assumption.
  rewrite <- (take_drop_middle sl i None Hi) at 3.
  rewrite !ofType_app.
  change (s :: drop (S i) sl) with ([s] ++ drop (S i) sl).
  change (None :: drop (S i) sl) with ([None] ++ drop (S i) sl).
  rewrite !ofType_app. unfold SlotCount.ofType at 2 5. cbn.
  destruct (SlotCount.hasType t s); cbn; lia.
Qed.

Lemma reachable_ofType (sm : SlotManager.SlotManager) :
  SlotManager.reachable sm ->
  forall t, (SlotCount.ofType t (SlotManager.slots sm) <= 2)%nat.
Proof.
  induction 1 as [|sm _ IH|sm cd log _ IH|sm log _ IH|sm _ IH|sm _ IH]; intros t.
  - cbn. lia.
  - unfold SlotManager.initialize. destruct (SlotManager.initialized sm); [apply IH|].
    cbn [SlotManager.slots]. rewrite ofType_replicate_None. lia.
  - unfold SlotManager.addCard.
    destruct (JsArray.findIndex SlotManager.isNull (SlotManager.slots sm)) as [i|] eqn:Hf;
      [|apply IH].
    apply findIndex_Some in Hf as [(s & Hi & Hnull) _].
    destruct s; [discriminate|].
    destruct (checkForElimination_spec SlotManager.record
                (SlotManager.mk (<[i := Some cd]> (SlotManager.slots sm))
                                (SlotManager.initialized sm)) log)
      as (_ & _ & _ & Hcount).
    specialize (Hcount t). cbn [SlotManager.slots] in Hcount.
    destruct (SlotManager.checkForElimination _ _ _) as [[e sm2] x2].
    cbn [fst snd] in *. rewrite Hcount, (ofType_insert_empty _ _ _ _ Hi).
    specialize (IH t).
    destruct (SlotCount.hasType t (Some cd));
      destruct (Nat.leb_spec 3 (SlotCount.ofType t (SlotManager.slots sm) + 1));
      destruct (Nat.leb_spec 3 (SlotCount.ofType t (SlotManager.slots sm) + 0)); lia.
  - destruct (checkForElimination_spec SlotManager.record sm log) as (_ & _ & _ & Hcount).
    rewrite Hcount. specialize (IH t).
    destruct (Nat.leb_spec 3 (SlotCount.ofType t (SlotManager.slots sm))); lia.
  - rewrite compactSlots_ofType. apply IH.
  - unfold SlotManager.clearAll. cbn [SlotManager.slots].
    rewrite ofType_replicate_None. lia.
Qed.

(** X11. No reachable state of the slot queue holds three cards of one
    type: whatever sequence of [initialize], [addCard],
    [checkForElimination], [compactSlots] and [clearAll] led to it, every
    type occupies at most two slots, so that a further pass of
    [checkForElimination] finds nothing to eliminate. *)
Theorem reachable_at_most_two_of_a_type (sm : SlotManager.SlotManager)
        (log : list SlotManager.Eliminated) :
  SlotManager.reachable sm ->
  (forall t, (SlotCount.ofType t (SlotManager.slots sm) <= 2)%nat)
  /\ SlotManager.checkForElimination SlotManager.record sm log = (false, sm, log).
Proof.
  intros Hreach. split; [now apply reachable_ofType|].
  apply checkForElimination_false.
  destruct (checkForElimination_spec SlotManager.record sm log) as (Hflag & _).
  destruct (fst (fst (SlotManager.checkForElimination SlotManager.record sm log)));
    [|reflexivity].
  destruct (proj1 Hflag eq_refl) as (t & Hge).
  pose proof (reachable_ofType sm Hreach t). lia.
Qed.

Lemma reachable_at_most_two_of_a_type_witness :
  (forall t, (SlotCount.ofType t (SlotManager.slots Examples.fullSlots) <= 2)%nat)
  /\ SlotManager.checkForElimination SlotManager.record Examples.fullSlots []
     = (false, Examples.fullSlots, []).
Proof.
  apply (reachable_at_most_two_of_a_type Examples.fullSlots []).
  exact fullSlots_reachable.
Defined.

Lemma JsMap_keys_set_present {V} (k : Z) (v v0 : V) (m : JsMap.t V) :
  JsMap.get k m = Some v0 -> List.map fst (JsMap.set k v m) = List.map fst m.
Proof.
  induction m as [|[k1 v1] m IH]; cbn; [discriminate|].
  destruct (Z.eqb k1 k); cbn; [reflexivity|]. intros H. now rewrite IH.
Qed.

(** The object built by [canContinue]: one property per type present,
    holding the number of slots of that type. *)
Lemma canContinue_counts_spec (sl : list (option SlotManager.CardData)) :
  let counts :=
    fold_left
      (fun (tc : JsMap.t nat) (slot : option SlotManager.CardData) =>
         match slot with
         | Some slot =>
             let n := match JsMap.get (SlotManager.type slot) tc with
                      | Some n => n
                      | None => 0%nat
                      end in
             JsMap.set (SlotManager.type slot) (n + 1)%nat tc
         | None => tc
         end)
      sl [] in
  List.NoDup (List.map fst counts)
  /\ forall t, JsMap.get t counts
               = match SlotCount.ofType t sl with
                 | O => None
                 | S _ => Some (SlotCount.ofType t sl)
                 end.
Proof.
  cbv zeta. induction sl as [|s sl [IHnd IHget]] using rev_ind.
  - split; [constructor|reflexivity].
  - rewrite fold_left_app. cbn [fold_left].
    set (tc := fold_left _ sl []) in *.
    destruct s as [slot|].
    + set (t0 := SlotManager.type slot).
      assert (Hh : forall t, SlotCount.hasType t (Some slot) = Z.eqb t0 t) by reflexivity.
      split.
      * destruct (JsMap.get t0 tc) as [n0|] eqn:Hget0.
        -- now rewrite (JsMap_keys_set_present _ _ _ _ Hget0).
        -- rewrite (JsMap_set_fresh _ _ _ Hget0), List.map_app. cbn.
           apply NoDup_ListNoDup, NoDup_app. repeat split.
           ++ now apply NoDup_ListNoDup.
           ++ intros k Hk Hk'. apply list_elem_of_singleton in Hk'. subst k.
              apply JsMap_get_None in Hget0. apply Hget0. now apply list_elem_of_In.
           ++ apply NoDup_singleton.
      * intros t. rewrite ofType_snoc, Hh.
        destruct (Z.eqb_spec t0 t) as [<-|Hne].
        -- rewrite JsMap_get_set_eq, IHget.
           destruct (SlotCount.ofType t0 sl) as [|n]; cbn; [reflexivity|].
           replace (n + 1)%nat with (S n) by lia. reflexivity.
        -- rewrite JsMap_get_set_ne by congruence. rewrite Nat.add_0_r. apply IHget.
    + split; [exact IHnd|]. intros t. rewrite ofType_snoc. cbn.
      rewrite Nat.add_0_r. apply IHget.
Qed.

(** X12. [canContinue] answers [true] exactly when some slot is empty or
    some type holds three slots or more.  In a state the slot queue can
    reach, no type does, so [canContinue] is the negation of [isFull]: a
    full queue is the end of the game. *)
Theorem canContinue_iff (sm : SlotManager.SlotManager) :
  (SlotManager.canContinue sm = true <->
   SlotManager.isFull sm = false
   \/ exists t, (3 <= SlotCount.ofType t (SlotManager.slots sm))%nat)
  /\ (SlotManager.reachable sm ->
      SlotManager.canContinue sm = negb (SlotManager.isFull sm)).
Proof.
  assert (Hgen : SlotManager.canContinue sm = true <->
                 SlotManager.isFull sm = false
                 \/ exists t, (3 <= SlotCount.ofType t (SlotManager.slots sm))%nat).
  { unfold SlotManager.canContinue.
    destruct (SlotManager.isFull sm); [|split; auto].
    destruct (canContinue_counts_spec (SlotManager.slots sm)) as [Hnd Hget].
    cbv zeta in Hnd, Hget. rewrite existsb_exists. split.
    - intros ([t n] & Hin & Hn). cbn [snd] in Hn. apply Nat.leb_le in Hn.
      apply (Permutation_in _ (forInEntries_Permutation _)) in Hin.
      apply (JsMap_In_get _ _ _ Hnd) in Hin. rewrite Hget in Hin.
      right. exists t.
      destruct (SlotCount.ofType t (SlotManager.slots sm)); [discriminate|].
      inversion Hin; subst. exact Hn.
    - intros [Hf|(t & Hge)]; [discriminate|].
      exists (t, SlotCount.ofType t (SlotManager.slots sm)). split.
      + apply (Permutation_in _ (Permutation_sym (forInEntries_Permutation _))).
        apply (JsMap_In_get _ _ _ Hnd). rewrite Hget.
        destruct (SlotCount.ofType t (SlotManager.slots sm)); [lia|reflexivity].
      + cbn [snd]. now apply Nat.leb_le. }
  split; [exact Hgen|].
  intros Hreach. destruct (SlotManager.isFull sm) eqn:Hfull; cbn [negb].
  - destruct (SlotManager.canContinue sm) eqn:Hc; [|reflexivity].
    destruct (proj1 Hgen eq_refl) as [Hf|(t & Hge)]; [discriminate|].
    pose proof (reachable_ofType sm Hreach t). lia.
  - apply Hgen. now left.
Qed.

(** * Further properties of the game listeners *)

Lemma elem_indicesOfType (t : Z) (sl : list (option SlotManager.CardData)) (i : nat) :
  In i (SlotCount.indicesOfType t sl) ->
  exists cd, sl !! i = Some (Some cd) /\ SlotManager.type cd = t.
Proof.
  unfold SlotCount.indicesOfType. rewrite in_map_iff.
  intros ([i' s] & Heq & Hin). cbn in Heq. subst i'.
  apply filter_In in Hin as [Hin Hty]. cbn [snd] in Hty.
  apply list_elem_of_In, elem_of_lookup_imap in Hin as (j & s' & Heq & Hj).
  inversion Heq; subst j s'. destruct s as [cd|]; [|discriminate].
  exists cd. split; [exact Hj|]. now apply Z.eqb_eq.
Qed.

(** While the loop runs, the slots named by the entries still to come are
    occupied; so each listener call sees at least one occupied slot, and
    what every such call preserves is preserved by the loop. *)
Lemma forIn_eliminateType_listener {X}
      (d : SlotManager.Eliminated -> SlotManager.SlotManager -> X -> X)
      (P : X -> Prop) :
  (forall e sm x,
      (exists i cd, SlotManager.slots sm !! i = Some (Some cd)) -> P x -> P (d e sm x)) ->
  forall (entries : list (Z * list nat)) (st : bool * SlotManager.SlotManager * X),
    List.NoDup (List.map fst entries) ->
    (forall t idxs i, In (t, idxs) entries -> In i idxs ->
                      exists cd, SlotManager.slots (snd (fst st)) !! i = Some (Some cd)
                                 /\ SlotManager.type cd = t) ->
    P (snd st) ->
    P (snd (fold_left (SlotManager.eliminateType d) entries st)).
Proof.
  intros Hd. induction entries as [|[t idxs] entries IH]; intros [[b sm] x] Hnd Hinv HP;
    [exact HP|].
  cbn [fold_left]. inversion Hnd as [|? ? Hnin Hnd']; subst.
  cbn [fst snd] in *. apply IH; [exact Hnd'| |].
  - intros t' idxs' i' Hin Hi'. unfold SlotManager.eliminateType. cbn [snd].
    destruct (Hinv t' idxs' i' (or_intror Hin) Hi') as (cd' & Hl & Hty).
    destruct (Nat.leb 3 (length idxs)); cbn [fst snd SlotManager.slots]; [|eauto].
    exists cd'. split; [|exact Hty]. rewrite lookup_fold_clear.
    destruct (decide (i' ∈ take 3 idxs)) as [Hrem|_]; [|exact Hl].
    exfalso. apply Hnin. apply in_map_iff. exists (t', idxs'). split; [|exact Hin].
    cbn. assert (Hi : In i' idxs).
    { apply list_elem_of_In. now apply (subseteq_take 3 idxs). }
    destruct (Hinv t idxs i' (or_introl eq_refl) Hi) as (cd & Hl' & Hty').
    rewrite Hl in Hl'. inversion Hl'; subst. reflexivity.
  - unfold SlotManager.eliminateType. cbn [snd].
    destruct (Nat.leb_spec 3 (length idxs)) as [Hge|]; cbn [snd]; [|exact HP].
    apply Hd; [|exact HP].
    destruct idxs as [|i0 idxs]; [cbn in Hge; lia|].
    destruct (Hinv t (i0 :: idxs) i0 (or_introl eq_refl) (or_introl eq_refl))
      as (cd & Hl & _).
    eauto.
Qed.

Lemma checkForElimination_listener {X}
      (d : SlotManager.Eliminated -> SlotManager.SlotManager -> X -> X)
      (P : X -> Prop) (sm : SlotManager.SlotManager) (x : X) :
  (forall e sm x,
      (exists i cd, SlotManager.slots sm !! i = Some (Some cd)) -> P x -> P (d e sm x)) ->
  P x -> P (snd (SlotManager.checkForElimination d sm x)).
Proof.
  intros Hd HP. unfold SlotManager.checkForElimination.
  pose proof (forIn_eliminateType_listener d P Hd
                (JsObject.forInEntries (SlotManager.typeCount (SlotManager.slots sm)))
                (false, sm, x)) as H.
  destruct (typeCount_spec (SlotManager.slots sm)) as [Hnd Hget].
  assert (HP' : P (snd (fold_left (SlotManager.eliminateType d)
                          (JsObject.forInEntries
                             (SlotManager.typeCount (SlotManager.slots sm)))
                          (false, sm, x)))).
  { apply H; [| |exact HP].
    - apply (Permutation_NoDup (l := List.map fst (SlotManager.typeCount (SlotManager.slots sm))));
        [|exact Hnd].
      apply Permutation_map. symmetry. apply forInEntries_Permutation.
    - intros t idxs i Hin Hi. cbn [fst snd].
      apply (Permutation_in _ (forInEntries_Permutation _)) in Hin.
      apply (JsMap_In_get _ _ _ Hnd) in Hin. rewrite Hget in Hin.
      destruct (SlotCount.indicesOfType t (SlotManager.slots sm)) eqn:E; [discriminate|].
      inversion Hin; subst idxs. apply elem_indicesOfType. now rewrite E. }
  destruct (fold_left _ _ _) as [[e sm1] x1]. now destruct e.
Qed.

Lemma getCardCount_occupied (sm : SlotManager.SlotManager) :
  (exists i cd, SlotManager.slots sm !! i = Some (Some cd)) ->
  Nat.eqb (SlotManager.getCardCount sm) 0 = false.
Proof.
  intros (i & cd & Hi). apply Nat.eqb_neq. unfold SlotManager.getCardCount.
  assert (Hin : In (Some cd)
                   (List.filter (fun slot => negb (SlotManager.isNull slot))
                                (SlotManager.slots sm))).
  { apply filter_In. split; [|reflexivity].
    apply list_elem_of_In, list_elem_of_lookup. eauto. }
  destruct (List.filter _ _); [destruct Hin|cbn; lia].
Qed.

Lemma gameOver_lost_keeps_level (host : Game.Host) (g : Game.Game) :
  Game.pendingNextLevel (Game.gameOver host false g) = Game.pendingNextLevel g
  /\ Game.levelManager (Game.gameOver host false g) = Game.levelManager g.
Proof.
  unfold Game.gameOver.
  destruct (LeaderboardManager.canEnterLeaderboard _ _); [|split; reflexivity].
  destruct (LeaderboardManager.addScore _ _ _ _ _) as [[b lb] st]. split; reflexivity.
Qed.

(** X13. A click never wins the game.  [checkWinCondition] runs only in
    the listener of [cardsEliminated], which is called before the three
    eliminated slots are emptied, so it never sees an empty slot queue: a
    [cardClicked] event never starts the [startNextLevel] timer and never
    changes the level. *)
Theorem cardClicked_never_wins (host : Game.Host) (cardId : Z) (g : Game.Game) :
  Game.pendingNextLevel (Game.cardClicked host cardId g) = Game.pendingNextLevel g
  /\ Game.levelManager (Game.cardClicked host cardId g) = Game.levelManager g.
Proof.
  set (P := fun x : Game.Game =>
              Game.pendingNextLevel x = Game.pendingNextLevel g
              /\ Game.levelManager x = Game.levelManager g).
  assert (Hd : forall e sm x,
             (exists i cd, SlotManager.slots sm !! i = Some (Some cd)) ->
             P x -> P (Game.onCardsEliminated host e sm x)).
  { intros e sm x Hocc HP. unfold Game.onCardsEliminated, Game.handleCardsEliminated.
    destruct (ScoreManager.addEliminationScore _ _ _) as [[pts sc] st].
    unfold Game.checkWinCondition.
    cbn [Game.set_cardManager Game.set_score Game.set_slotManager Game.slotManager].
    rewrite (getCardCount_occupied sm Hocc), andb_false_r. exact HP. }
  change (P (Game.cardClicked host cardId g)).
  assert (HP0 : P g) by (split; reflexivity).
  unfold Game.cardClicked.
  destruct (negb (Game.isPlaying g) || Game.isPaused g); [exact HP0|].
  destruct (CardManager.getCard cardId (Game.cardManager g)) as [card|]; [|exact HP0].
  destruct (negb (Card.isDisabled card)); [|exact HP0].
  unfold Game.handleCardClick, SlotManager.addCard.
  destruct (JsArray.findIndex SlotManager.isNull (SlotManager.slots (Game.slotManager g)))
    as [i|]; [|exact HP0].
  pose proof (checkForElimination_listener (Game.onCardsEliminated host) P
                (SlotManager.mk
                   (<[i := Some (SlotManager.mkCardData (Card.id card) (Card.type card))]>
                      (SlotManager.slots (Game.slotManager g)))
                   (SlotManager.initialized (Game.slotManager g)))
                g Hd HP0) as H.
  destruct (SlotManager.checkForElimination _ _ _) as [[e sm2] g1]. cbn [snd] in H.
  unfold Game.checkGameState.
  match goal with
  | |- P (if ?c then Game.gameOver host false ?g3 else ?g3) =>
      assert (H3 : P g3) by exact H;
      destruct c; [|exact H3];
      destruct (gameOver_lost_keeps_level host g3) as [Hp Hl];
      destruct H3 as [H3p H3l]; split; [now rewrite Hp|now rewrite Hl]
  end.
Qed.

(** * Further properties of the level manager *)

Lemma insert_pushes_out {A} (l : list A) (k : nat) (a b : A) :
  l !! k = Some b -> Permutation (a :: l) (b :: <[k := a]> l).
Proof.
  revert k. induction l as [|c l IH]; intros [|k] Hk; try discriminate.
  - cbn in Hk. inversion Hk; subst. cbn. apply perm_swap.
  - cbn in Hk. cbn [insert list_insert]. rewrite perm_swap.
    rewrite (IH k Hk). apply perm_swap.
Qed.

Lemma exchange_Permutation {A} (l : list A) (i j : nat) (a b : A) :
  (i < j)%nat -> l !! i = Some a -> l !! j = Some b ->
  Permutation (<[j := a]> (<[i := b]> l)) l.
Proof.
  revert i j. induction l as [|c l IH]; intros [|i] [|j] Hlt Hi Hj;
    try discriminate; try lia.
  - cbn in Hi, Hj. inversion Hi; subst. cbn.
    symmetry. now apply insert_pushes_out.
  - cbn in Hi, Hj. cbn. constructor. apply IH; [lia|assumption|assumption].
Qed.

Lemma swap_Permutation {A} (i j : nat) (array : list A) :
  Permutation (LevelManager.swap i j array) array.
Proof.
  unfold LevelManager.swap.
  destruct (array !! i) as [ai|] eqn:Hi; [|reflexivity].
  destruct (array !! j) as [aj|] eqn:Hj; [|reflexivity].
  destruct (Nat.lt_trichotomy i j) as [Hlt|[->|Hgt]].
  - now apply exchange_Permutation.
  - rewrite list_insert_insert_eq. rewrite Hi in Hj. inversion Hj; subst.
    now rewrite list_insert_id.
  - rewrite list_insert_insert_ne by lia. now apply exchange_Permutation.
Qed.

(** X14. [shuffleArray] only reorders: whatever the random draws, the
    shuffled array is a permutation of the given one (same length, same
    number of copies of every element), and one draw is made for each
    index from the last down to 1. *)
Theorem shuffleArray_Permutation {A} (rnd : Js.Random) (k : nat) (array : list A) :
  Permutation (fst (LevelManager.shuffleArray rnd k array)) array
  /\ snd (LevelManager.shuffleArray rnd k array) = (k + (length array - 1))%nat.
Proof.
  unfold LevelManager.shuffleArray.
  generalize (length array - 1)%nat as i. intros i. revert k array.
  induction i as [|i IH]; intros k array; cbn [LevelManager.shuffleFrom fst snd].
  - split; [reflexivity|lia].
  - destruct (IH (S k)
                (LevelManager.swap (S i)
                   (Z.to_nat (Qfloor (Js.random rnd k * inject_Z (Z.of_nat (S i) + 1))))
                   array)) as [Hp Hk].
    split; [|rewrite Hk; lia].
    rewrite Hp. apply swap_Permutation.
Qed.

Lemma count_occ_groups (t : nat) (groups : list nat) :
  count_occ Nat.eq_dec (flat_map (fun t => [t; t; t]) groups) t
  = (3 * count_occ Nat.eq_dec groups t)%nat.
Proof.
  induction groups as [|g groups IH]; [reflexivity|].
  cbn [flat_map app count_occ]. rewrite IH.
  destruct (Nat.eq_dec g t); lia.
Qed.

Lemma trimCardTypes_groups (config : LevelManager.LevelConfig) :
  exists groups,
    LevelManager.trimCardTypes config (LevelManager.buildCardTypes config)
    = flat_map (fun t => [t; t; t]) groups
    /\ (forall t, In t groups -> (t < LevelManager.cardTypes config)%nat)
    /\ (Nat.min (LevelManager.cardTypes config * LevelManager.cardsPerType config)
                (LevelManager.maxCards config / 3)
        <= length groups)%nat.
Proof.
  rewrite buildCardTypes_groups.
  set (all := flat_map (fun type => repeat type (LevelManager.cardsPerType config))
                       (seq 0 (LevelManager.cardTypes config))).
  assert (Hall : forall t, In t all -> (t < LevelManager.cardTypes config)%nat).
  { intros t Ht. apply in_flat_map in Ht as (ty & Hty & Hin).
    apply repeat_spec in Hin. subst t. apply in_seq in Hty. lia. }
  assert (Hlen : length all
                 = (LevelManager.cardTypes config * LevelManager.cardsPerType config)%nat).
  { subst all. clear Hall. generalize 0%nat as start.
    induction (LevelManager.cardTypes config) as [|n IH]; intros start; [reflexivity|].
    cbn [seq flat_map]. rewrite length_app, repeat_length, IH. lia. }
  unfold LevelManager.trimCardTypes. rewrite length_groups.
  destruct (Nat.ltb_spec (LevelManager.maxCards config) (3 * length all)) as [Hlt|Hge].
  - rewrite iter_pop3_take, length_groups.
    pose proof (ceilThird_bounds (3 * length all - LevelManager.maxCards config))
      as [Hlo Hhi].
    set (g := LevelManager.ceilThird (3 * length all - LevelManager.maxCards config)) in *.
    exists (take (length all - g) all).
    replace (3 * length all - 3 * g)%nat with (3 * (length all - g))%nat by lia.
    rewrite take_groups. split; [reflexivity|]. split.
    + intros t Ht. apply Hall. apply list_elem_of_In.
      apply (subseteq_take (length all - g) all). now apply list_elem_of_In.
    + rewrite length_take.
      pose proof (Nat.Div0.mul_div_le (LevelManager.maxCards config) 3).
      lia.
  - exists all. split; [reflexivity|]. split; [exact Hall|]. lia.
Qed.

(** X15. The type array handed to the card-creating loop is solvable and
    within range: after trimming and shuffling, every type occurs a
    multiple of 3 times, every type is below [cardTypes], and the array is
    a permutation of the trimmed one. *)
Theorem shuffled_types_in_triples (rnd : Js.Random) (k : nat)
        (config : LevelManager.LevelConfig) :
  let types :=
    fst (LevelManager.shuffleArray rnd k
           (LevelManager.trimCardTypes config (LevelManager.buildCardTypes config))) in
  (forall t, (count_occ Nat.eq_dec types t mod 3 = 0)%nat)
  /\ (forall t, In t types -> (t < LevelManager.cardTypes config)%nat)
  /\ length types
     = length (LevelManager.trimCardTypes config (LevelManager.buildCardTypes config)).
Proof.
  intros types.
  assert (Hp : Permutation types
                 (LevelManager.trimCardTypes config (LevelManager.buildCardTypes config))).
  { subst types. unfold LevelManager.shuffleArray.
    generalize (length (LevelManager.trimCardTypes config
                          (LevelManager.buildCardTypes config)) - 1)%nat as i.
    generalize (LevelManager.trimCardTypes config (LevelManager.buildCardTypes config))
      as array. intros array i. revert k array.
    induction i as [|i IH]; intros k array; cbn [LevelManager.shuffleFrom fst];
      [reflexivity|].
    rewrite IH. apply swap_Permutation. }
  destruct (trimCardTypes_groups config) as (groups & Hg & Hlt & _).
  split; [|split].
  - intros t. rewrite (Permutation_count_occ Nat.eq_dec) in Hp. rewrite Hp, Hg.
    rewrite count_occ_groups, Nat.mul_comm. apply Nat.Div0.mod_mul.
  - intros t Ht. apply (Permutation_in _ Hp) in Ht. rewrite Hg in Ht.
    apply in_flat_map in Ht as (g & Hin & Ht). apply Hlt.
    destruct Ht as [<-|[<-|[<-|[]]]]; exact Hin.
  - now apply Permutation_length.
Qed.

(** X16. The level configurations: whatever the level number, the
    configuration has 3 to 7 card types, at least 3 groups per type, 1 to
    5 layers and a cap of 15 to 50 cards; none of these decreases when the
    level grows; and [generateLevels] lists the configurations of the
    levels 1 to 10 in order. *)
Theorem levelConfig_bounds (level level' : nat) :
  let c := LevelManager.levelConfig level in
  let c' := LevelManager.levelConfig level' in
  (3 <= LevelManager.cardTypes c <= 7)%nat
  /\ (3 <= LevelManager.cardsPerType c)%nat
  /\ (1 <= LevelManager.layers c <= 5)%nat
  /\ (15 <= LevelManager.maxCards c <= 50)%nat
  /\ ((level <= level')%nat ->
      (LevelManager.cardTypes c <= LevelManager.cardTypes c')%nat
      /\ (LevelManager.cardsPerType c <= LevelManager.cardsPerType c')%nat
      /\ (LevelManager.layers c <= LevelManager.layers c')%nat
      /\ (LevelManager.maxCards c <= LevelManager.maxCards c')%nat)
  /\ LevelManager.generateLevels
     = List.map LevelManager.levelConfig [1; 2; 3; 4; 5; 6; 7; 8; 9; 10]%nat.
Proof.
  cbv zeta. unfold LevelManager.levelConfig.
  cbn [LevelManager.cardTypes LevelManager.cardsPerType LevelManager.layers
       LevelManager.maxCards].
  repeat split; try lia; try reflexivity.
  - pose proof (Nat.Div0.div_le_mono level level' 2 H). lia.
  - pose proof (Nat.Div0.div_le_mono level level' 3 H). lia.
  - pose proof (Nat.Div0.div_le_mono level level' 2 H). lia.
Qed.

(** X17. [getLevelConfig] answers for the levels 1 to 10 and for no
    other: it returns the configuration of the level inside that range and
    [null] outside. *)
Theorem getLevelConfig_range (level : nat) :
  LevelManager.getLevelConfig level
  = if Nat.leb 1 level && Nat.leb level 10
    then Some (LevelManager.levelConfig level) else None.
Proof.
  unfold LevelManager.getLevelConfig, LevelManager.maxLevel.
  destruct (Nat.ltb_spec level 1); [now destruct (Nat.leb_spec 1 level); [lia|]|].
  destruct (Nat.ltb_spec 10 level);
    [destruct (Nat.leb_spec 1 level), (Nat.leb_spec level 10); try lia; reflexivity|].
  destruct (Nat.leb_spec 1 level); [|lia].
  destruct (Nat.leb_spec level 10); [|lia]. cbn [orb andb].
  unfold LevelManager.generateLevels, LevelManager.maxLevel.
  rewrite list_lookup_fmap, lookup_seq_lt by lia. cbn. f_equal. f_equal. lia.
Qed.



(** X19. No level of the game can be laid out.  For every level number,
    every sequence of random draws, every card manager and every size of
    the card area, [generateLevelLayout] on that level's configuration
    stops on the [ReferenceError] of [generateCardPositions]; it leaves the
    card manager cleared, with [nextId] back at 0 and no card created. *)
Theorem generateLevelLayout_throws_every_level
        (level : nat) (rnd : Js.Random) (k : nat)
        (cardManager : CardManager.CardManager) (offsetWidth offsetHeight : Z) :
  LevelManager.generateLevelLayout Js.topLevel rnd k (LevelManager.levelConfig level)
    cardManager offsetWidth offsetHeight
  = (inl (Js.ReferenceError "effectiveWidth"), CardManager.mk [] 0).
Proof.
  unfold LevelManager.generateLevelLayout.
  pose proof (shuffleArray_length rnd k
                (LevelManager.trimCardTypes (LevelManager.levelConfig level)
                   (LevelManager.buildCardTypes (LevelManager.levelConfig level))))
    as Hlen.
  destruct (LevelManager.shuffleArray rnd k _) as [cardTypes k1]. cbn [fst] in Hlen.
  rewrite generateCardPositions_throws; [reflexivity| |].
  - rewrite Hlen.
    destruct (trimCardTypes_groups (LevelManager.levelConfig level))
      as (groups & -> & _ & Hmin).
    rewrite length_groups.
    unfold LevelManager.levelConfig in Hmin.
    cbn [LevelManager.cardTypes LevelManager.cardsPerType LevelManager.maxCards] in Hmin.
    assert (5 <= Nat.min 50 (15 + level * 5) / 3)%nat.
    { apply Nat.div_le_lower_bound; lia. }
    assert (1 <= Nat.min 7 (3 + level / 2) * (3 + level / 3))%nat by nia.
    lia.
  - unfold LevelManager.levelConfig. cbn [LevelManager.layers]. lia.
Qed.

(** X20. Every card of every level has an icon: the types built for a
    level are below 7, the length of the icon array, so [getIcon] never
    reads outside it. *)
Theorem generated_types_have_icons (level t : nat) (id : Z) (x y : Q) (layer : Z) :
  In t (LevelManager.trimCardTypes (LevelManager.levelConfig level)
          (LevelManager.buildCardTypes (LevelManager.levelConfig level))) ->
  exists icon, Card.getIcon (Card.new id (Z.of_nat t) x y layer) = Some icon.
Proof.
  intros Ht.
  destruct (trimCardTypes_groups (LevelManager.levelConfig level))
    as (groups & Hg & Hlt & _).
  rewrite Hg in Ht. apply in_flat_map in Ht as (g & Hin & Ht).
  assert (Hg7 : (t < 7)%nat).
  { specialize (Hlt g Hin). unfold LevelManager.levelConfig in Hlt.
    cbn [LevelManager.cardTypes] in Hlt.
    destruct Ht as [<-|[<-|[<-|[]]]]; lia. }
  unfold Card.getIcon, Card.new. cbn [Card.type].
  destruct (Z.ltb_spec (Z.of_nat t) 0); [lia|].
  rewrite Nat2Z.id. apply lookup_lt_is_Some_2. cbn. exact Hg7.
Qed.

Lemma generated_types_have_icons_witness :
  exists icon, Card.getIcon (Card.new 0 (Z.of_nat 1) 0 0 0) = Some icon.
Proof.
  apply (generated_types_have_icons 1 1 0 0 0 0).
  vm_compute. tauto.
Defined.

Lemma generateCardPositions_nothing_to_place (scope : Js.Scope) (rnd : Js.Random)
      (count layers cols rows areaWidth areaHeight cardSize gap offsetX offsetY : Z)
      (k : nat) :
  (count <= 0)%Z \/ (layers <= 0)%Z ->
  LevelManager.generateCardPositions scope rnd count layers cols rows
    areaWidth areaHeight cardSize gap offsetX offsetY k
  = inr ([], k).
Proof.
  intros Hedge. unfold LevelManager.generateCardPositions.
  destruct (Z.to_nat layers) as [|n] eqn:Hn; [reflexivity|].
  destruct Hedge as [Hc|Hl]; [|lia].
  cbn [LevelManager.layersLoop].
  assert (Hceil : (Qceiling (inject_Z count / inject_Z layers) <= 0)%Z).
  { change 0%Z with (Qceiling 0). apply Qceiling_resp_le.
    apply Qle_shift_div_r.
    - rewrite <- (Zlt_Qlt 0). lia.
    - rewrite Qmult_0_l. change (inject_Z count <= inject_Z 0)%Q.
      rewrite <- Zle_Qle. exact Hc. }
  replace (Z.to_nat (Qceiling (inject_Z count / inject_Z layers))) with 0%nat by lia.
  cbn. change (Z.of_nat 0) with 0%Z.
  destruct (Z.leb_spec count 0); [reflexivity|lia].
Qed.

(** X21. What [generateCardPositions] returns as the program runs it
    (with [effectiveWidth] unbound): the empty array when there is no card
    to place or no layer ([count <= 0] or [layers <= 0]), and a
    [ReferenceError] in every other case.  The empty result for no card or
    no layer holds whatever the scope. *)
Theorem generateCardPositions_cases (rnd : Js.Random)
        (count layers cols rows areaWidth areaHeight cardSize gap offsetX offsetY : Z)
        (k : nat) :
  LevelManager.generateCardPositions Js.topLevel rnd count layers cols rows
    areaWidth areaHeight cardSize gap offsetX offsetY k
  = (if Z.leb 1 count && Z.leb 1 layers
     then inl (Js.ReferenceError "effectiveWidth")
     else inr ([], k))
  /\ forall scope : Js.Scope,
       Z.leb 1 count && Z.leb 1 layers = false ->
       LevelManager.generateCardPositions scope rnd count layers cols rows
         areaWidth areaHeight cardSize gap offsetX offsetY k
       = inr ([], k).
Proof.
  split.
  - destruct (Z.leb_spec 1 count), (Z.leb_spec 1 layers); cbn [andb];
      try (apply generateCardPositions_nothing_to_place; lia).
    now apply generateCardPositions_throws.
  - intros scope H. apply generateCardPositions_nothing_to_place.
    destruct (Z.leb_spec 1 count), (Z.leb_spec 1 layers); cbn in H;
      try discriminate; lia.
Qed.

(** X22. The loops of [generateCardPositions] stop at [count]: once
    [effectiveWidth] and [effectiveHeight] resolve, for every count from 0
    on and every layer count from 1 on, the call returns normally with
    exactly [count] positions. *)
Theorem generateCardPositions_count (scope : Js.Scope) (rnd : Js.Random) (w h : Q)
        (count layers cols rows areaWidth areaHeight cardSize gap offsetX offsetY : Z)
        (k : nat) :
  scope "effectiveWidth"%string = Some w ->
  scope "effectiveHeight"%string = Some h ->
  (0 <= count)%Z -> (1 <= layers)%Z ->
  exists ps k',
    LevelManager.generateCardPositions scope rnd count layers cols rows
      areaWidth areaHeight cardSize gap offsetX offsetY k = inr (ps, k')
    /\ Z.of_nat (length ps) = count.
Proof. apply generateCardPositions_length. Qed.

Lemma generateCardPositions_count_witness :
  exists ps k',
    LevelManager.generateCardPositions (fun _ => Some 500%Q) (fun _ => 0%N)
      18 2 5 4 500 400 70 10 20 20 0 = inr (ps, k')
    /\ Z.of_nat (length ps) = 18%Z.
Proof.
  apply (generateCardPositions_count (fun _ => Some 500%Q) (fun _ => 0%N) 500 500
           18 2 5 4 500 400 70 10 20 20 0).
  - reflexivity.
  - reflexivity.
  - lia.
  - lia.
Defined.

(** * Further properties of the score tracker *)

Lemma updateHighScore_spec (sm : ScoreManager.ScoreManager) (st : LocalStorage.t) :
  let r := ScoreManager.updateHighScore sm st in
  ScoreManager.currentScore (fst r) = ScoreManager.currentScore sm
  /\ ScoreManager.highScore (fst r)
     = Z.max (ScoreManager.highScore sm) (ScoreManager.currentScore sm)
  /\ ScoreManager.combo (fst r) = ScoreManager.combo sm
  /\ ScoreManager.maxCombo (fst r) = ScoreManager.maxCombo sm
  /\ ScoreManager.eliminationCount (fst r) = ScoreManager.eliminationCount sm
  /\ LocalStorage.throws (snd r) = LocalStorage.throws st
  /\ (LocalStorage.throws st = false ->
      LocalStorage.tileGameHighScore (snd r)
      = if Z.ltb (ScoreManager.highScore sm) (ScoreManager.currentScore sm)
        then Some (ScoreManager.currentScore sm)
        else LocalStorage.tileGameHighScore st).
Proof.
  cbv zeta. unfold ScoreManager.updateHighScore, ScoreManager.saveHighScore.
  destruct (Z.ltb_spec (ScoreManager.highScore sm) (ScoreManager.currentScore sm));
    cbn [fst snd ScoreManager.currentScore ScoreManager.highScore ScoreManager.combo
         ScoreManager.maxCombo ScoreManager.eliminationCount];
    repeat apply conj; try reflexivity; try lia.
  - destruct (LocalStorage.throws st) eqn:E; cbn; now rewrite E.
  - intros Ht. rewrite Ht. reflexivity.
Qed.

(** What one call of a session does to the fields the invariants below
    read. *)
Lemma call_spec (c : ScoreSession.Call) (sm : ScoreManager.ScoreManager)
      (st : LocalStorage.t) :
  let r := ScoreSession.call c (sm, st) in
  ScoreManager.highScore (fst r)
  = Z.max (ScoreManager.highScore sm)
          (Z.min (ScoreManager.highScore (fst r)) (ScoreManager.currentScore (fst r)))
  /\ (0 <= ScoreManager.highScore sm ->
      ScoreManager.currentScore sm <= ScoreManager.highScore sm ->
      ScoreManager.currentScore (fst r) <= ScoreManager.highScore (fst r))%Z
  /\ (0 <= ScoreManager.combo sm <= ScoreManager.maxCombo sm ->
      0 <= ScoreManager.combo (fst r) <= ScoreManager.maxCombo (fst r))%Z
  /\ LocalStorage.throws (snd r) = LocalStorage.throws st
  /\ (LocalStorage.throws st = false ->
      LocalStorage.tileGameHighScore (snd r)
      = if Z.ltb (ScoreManager.highScore sm) (ScoreManager.highScore (fst r))
        then Some (ScoreManager.highScore (fst r))
        else LocalStorage.tileGameHighScore st).
Proof.
  cbv zeta.
  destruct c as [n| |level|]; cbn [ScoreSession.call fst snd].
  - unfold ScoreManager.addEliminationScore. cbv zeta.
    match goal with
    | |- context [ScoreManager.updateHighScore ?s st] =>
        pose proof (updateHighScore_spec s st) as H;
        destruct (ScoreManager.updateHighScore s st) as [sm' st']
    end.
    cbv zeta in H.
    cbn [fst snd ScoreManager.currentScore ScoreManager.highScore ScoreManager.combo
         ScoreManager.maxCombo ScoreManager.eliminationCount] in H |- *.
    destruct H as (Hc & Hh & Hco & Hm & He & Ht & Hs).
    rewrite Hc, Hh, Hco, Hm. repeat apply conj; try lia; try exact Ht.
    + destruct (Z.ltb_spec (ScoreManager.maxCombo sm) (ScoreManager.combo sm + 1)); lia.
    + intros Hth. rewrite (Hs Hth).
      match goal with
      | |- (if Z.ltb ?a ?b then _ else _) = (if Z.ltb ?a (Z.max ?a ?b) then _ else _) =>
          destruct (Z.ltb_spec a b), (Z.ltb_spec a (Z.max a b)); try lia;
          try reflexivity; f_equal; lia
      end.
  - cbn [ScoreManager.resetCombo ScoreManager.currentScore ScoreManager.highScore
         ScoreManager.combo ScoreManager.maxCombo].
    repeat apply conj; try reflexivity; try lia.
    intros _. now rewrite Z.ltb_irrefl.
  - unfold ScoreManager.getLevelCompletionBonus. cbv zeta.
    match goal with
    | |- context [ScoreManager.updateHighScore ?s st] =>
        pose proof (updateHighScore_spec s st) as H;
        destruct (ScoreManager.updateHighScore s st) as [sm' st']
    end.
    cbv zeta in H.
    cbn [fst snd ScoreManager.currentScore ScoreManager.highScore ScoreManager.combo
         ScoreManager.maxCombo ScoreManager.eliminationCount] in H |- *.
    destruct H as (Hc & Hh & Hco & Hm & He & Ht & Hs).
    rewrite Hc, Hh, Hco, Hm. repeat apply conj; try lia; try exact Ht.
    intros Hth. rewrite (Hs Hth).
    match goal with
    | |- (if Z.ltb ?a ?b then _ else _) = (if Z.ltb ?a (Z.max ?a ?b) then _ else _) =>
        destruct (Z.ltb_spec a b), (Z.ltb_spec a (Z.max a b)); try lia;
        try reflexivity; f_equal; lia
    end.
  - cbn [ScoreManager.reset ScoreManager.currentScore ScoreManager.highScore
         ScoreManager.combo ScoreManager.maxCombo].
    repeat apply conj; try reflexivity; try lia.
    intros _. now rewrite Z.ltb_irrefl.
Qed.

(** X23. Over every session of the tracker (eliminations, combo resets,
    level bonuses and resets, in any order) that starts with a high score
    that is not negative and not below the current score, and a combo
    between 0 and the best combo: the high score never goes down and is
    never below the current score, and the combo stays between 0 and the
    best combo. *)
Theorem session_high_score_on_top (calls : list ScoreSession.Call)
        (sm : ScoreManager.ScoreManager) (st : LocalStorage.t) :
  (0 <= ScoreManager.highScore sm)%Z ->
  (ScoreManager.currentScore sm <= ScoreManager.highScore sm)%Z ->
  (0 <= ScoreManager.combo sm <= ScoreManager.maxCombo sm)%Z ->
  let sm' := fst (ScoreSession.run calls (sm, st)) in
  (ScoreManager.highScore sm <= ScoreManager.highScore sm')%Z
  /\ (ScoreManager.currentScore sm' <= ScoreManager.highScore sm')%Z
  /\ (0 <= ScoreManager.combo sm' <= ScoreManager.maxCombo sm')%Z.
Proof.
  cbv zeta. unfold ScoreSession.run.
  revert sm st. induction calls as [|c calls IH]; intros sm st Hh Hc Hco;
    cbn [fold_left fst]; [lia|].
  pose proof (call_spec c sm st) as H. cbv zeta in H.
  destruct (ScoreSession.call c (sm, st)) as [sm1 st1]. cbn [fst snd] in H.
  destruct H as (Hmax & Hcur & Hcombo & _).
  specialize (Hcur Hh Hc). specialize (Hcombo Hco).
  specialize (IH sm1 st1). lia.
Qed.

Lemma session_high_score_on_top_witness :
  let sm' :=
    fst (ScoreSession.run
           [ScoreSession.addEliminationScore 3; ScoreSession.resetCombo;
            ScoreSession.getLevelCompletionBonus 2; ScoreSession.reset;
            ScoreSession.addEliminationScore 3]
           (ScoreManager.new LocalStorage.empty, LocalStorage.empty)) in
  (ScoreManager.highScore (ScoreManager.new LocalStorage.empty)
   <= ScoreManager.highScore sm')%Z
  /\ (ScoreManager.currentScore sm' <= ScoreManager.highScore sm')%Z
  /\ (0 <= ScoreManager.combo sm' <= ScoreManager.maxCombo sm')%Z.
Proof.
  apply (session_high_score_on_top
           [ScoreSession.addEliminationScore 3; ScoreSession.resetCombo;
            ScoreSession.getLevelCompletionBonus 2; ScoreSession.reset;
            ScoreSession.addEliminationScore 3]
           (ScoreManager.new LocalStorage.empty) LocalStorage.empty).
  - vm_compute. discriminate.
  - vm_compute. discriminate.
  - vm_compute. split; discriminate.
Defined.

(** X24. The stored high score is never stale.  On a store that does not
    throw, after every session of a tracker constructed on that store, a
    tracker constructed anew on the store as the session left it starts
    with the high score the session ended with.  (The store is typed:
    [toString] followed by [parseInt] is the identity on the integers it
    holds.) *)
Theorem session_high_score_reloaded (calls : list ScoreSession.Call)
        (st : LocalStorage.t) :
  LocalStorage.throws st = false ->
  let '(sm', st') := ScoreSession.run calls (ScoreManager.new st, st) in
  ScoreManager.highScore (ScoreManager.new st') = ScoreManager.highScore sm'.
Proof.
  intros Hth.
  set (inSync := fun s : ScoreManager.ScoreManager * LocalStorage.t =>
         LocalStorage.throws (snd s) = false
         /\ (LocalStorage.tileGameHighScore (snd s)
             = Some (ScoreManager.highScore (fst s))
             \/ (LocalStorage.tileGameHighScore (snd s) = None
                 /\ ScoreManager.highScore (fst s) = 0%Z))).
  assert (Hrun : forall s, inSync s -> inSync (ScoreSession.run calls s)).
  { unfold ScoreSession.run. induction calls as [|c calls IH]; intros s Hs; [exact Hs|].
    cbn [fold_left]. apply IH. destruct s as [sm st0].
    pose proof (call_spec c sm st0) as H. cbv zeta in H.
    destruct (ScoreSession.call c (sm, st0)) as [sm1 st1].
    unfold inSync in *. cbn [fst snd] in *.
    destruct Hs as [Ht0 Hs].
    destruct H as (Hmax & _ & _ & Ht & Hstore). specialize (Hstore Ht0).
    split; [congruence|]. rewrite Hstore.
    destruct (Z.ltb_spec (ScoreManager.highScore sm) (ScoreManager.highScore sm1))
      as [Hlt|Hge]; [now left|].
    assert (Heq : ScoreManager.highScore sm1 = ScoreManager.highScore sm) by lia.
    rewrite Heq. exact Hs. }
  assert (H0 : inSync (ScoreManager.new st, st)).
  { unfold inSync, ScoreManager.new, ScoreManager.loadHighScore. cbn [fst snd].
    rewrite Hth. split; [reflexivity|].
    destruct (LocalStorage.tileGameHighScore st); [left|right; split]; reflexivity. }
  specialize (Hrun _ H0).
  destruct (ScoreSession.run calls (ScoreManager.new st, st)) as [sm' st'].
  unfold inSync in Hrun. cbn [fst snd] in Hrun. destruct Hrun as [Ht' Hs].
  unfold ScoreManager.new, ScoreManager.loadHighScore. rewrite Ht'.
  destruct Hs as [->|[-> ->]]; reflexivity.
Qed.

Lemma session_high_score_reloaded_witness :
  let '(sm', st') :=
    ScoreSession.run
      [ScoreSession.addEliminationScore 3; ScoreSession.reset;
       ScoreSession.getLevelCompletionBonus 1]
      (ScoreManager.new LocalStorage.empty, LocalStorage.empty) in
  ScoreManager.highScore (ScoreManager.new st') = ScoreManager.highScore sm'.
Proof.
  apply (session_high_score_reloaded
           [ScoreSession.addEliminationScore 3; ScoreSession.reset;
            ScoreSession.getLevelCompletionBonus 1]
           LocalStorage.empty).
  reflexivity.
Defined.

(** X25. A chain of eliminations in closed form: [k] consecutive calls of
    [addEliminationScore(n)] from a combo [c] add
    [10*n*k + 20*c*k + 10*k*(k+1)] points to the current score, bring the
    combo to [c + k] and count [k] more eliminations. *)
Theorem addEliminationScore_chain (k : nat) (n : Z)
        (sm : ScoreManager.ScoreManager) (st : LocalStorage.t) :
  let sm' :=
    fst (ScoreSession.run (repeat (ScoreSession.addEliminationScore n) k) (sm, st)) in
  ScoreManager.currentScore sm'
  = (ScoreManager.currentScore sm + 10 * n * Z.of_nat k
     + 20 * ScoreManager.combo sm * Z.of_nat k
     + 10 * Z.of_nat k * (Z.of_nat k + 1))%Z
  /\ ScoreManager.combo sm' = (ScoreManager.combo sm + Z.of_nat k)%Z
  /\ ScoreManager.eliminationCount sm'
     = (ScoreManager.eliminationCount sm + Z.of_nat k)%Z.
Proof.
  cbv zeta. unfold ScoreSession.run.
  revert sm st. induction k as [|k IH]; intros sm st.
  - cbn. lia.
  - cbn [repeat fold_left ScoreSession.call fst snd].
    unfold ScoreManager.addEliminationScore. cbv zeta.
    match goal with
    | |- context [ScoreManager.updateHighScore ?s st] =>
        pose proof (updateHighScore_spec s st) as H;
        destruct (ScoreManager.updateHighScore s st) as [sm1 st1]
    end.
    cbv zeta in H.
    cbn [fst snd ScoreManager.currentScore ScoreManager.highScore ScoreManager.combo
         ScoreManager.maxCombo ScoreManager.eliminationCount] in H.
    destruct H as (Hc & _ & Hco & _ & He & _).
    specialize (IH sm1 st1). rewrite Hc, Hco, He in IH.
    destruct IH as (-> & -> & ->). lia.
Qed.

(** * Further properties of the leaderboard *)




Lemma StronglySorted_lookup_lt {A} (R : A -> A -> Prop) (l : list A) (i j : nat) (a b : A) :
  StronglySorted R l -> (i < j)%nat -> l !! i = Some a -> l !! j = Some b -> R a b.
Proof.
  revert i j. induction l as [|c l IH]; intros i j Hs Hij Hi Hj; [discriminate|].
  apply StronglySorted_inv in Hs as [Hs Hall].
  destruct j as [|j]; [lia|]. cbn in Hj.
  destruct i as [|i].
  - cbn in Hi. inversion Hi; subst c. rewrite List.Forall_forall in Hall.
    apply Hall. apply list_elem_of_In, list_elem_of_lookup. eauto.
  - cbn in Hi. apply (IH i j); [exact Hs|lia|exact Hi|exact Hj].
Qed.


(** X27. [canEnterLeaderboard] predicts what [addScore] keeps.  On a
    leaderboard of at most ten entries sorted by decreasing score, for a
    score [s] passed to both: when [canEnterLeaderboard(s)] is [false],
    [addScore] leaves the entries as they were (a score equal to the
    lowest of a full list does not enter); when it is [true], the list
    after [addScore] holds an entry with score [s] and the given date. *)
Theorem canEnterLeaderboard_predicts_addScore (now : string) (random : Q)
        (s lvl cmb : Z) (d : string)
        (lm : LeaderboardManager.LeaderboardManager) (st : LocalStorage.t) :
  let old := LeaderboardManager.leaderboard lm in
  let scoreData :=
    LeaderboardManager.mkScoreData (Some s) (Some lvl) (Some cmb) (Some d) None in
  let result :=
    LeaderboardManager.leaderboard
      (snd (fst (LeaderboardManager.addScore now random scoreData lm st))) in
  (length old <= LeaderboardManager.maxEntries)%nat ->
  StronglySorted (fun b a => LeaderboardManager.score_desc b a = true) old ->
  (LeaderboardManager.canEnterLeaderboard s lm = false ->
   List.map (LeaderboardEntry.set_rank 0) result
   = List.map (LeaderboardEntry.set_rank 0) old)
  /\ (LeaderboardManager.canEnterLeaderboard s lm = true ->
      exists e, In e result
                /\ LeaderboardEntry.score e = s
                /\ LeaderboardEntry.date e = LeaderboardManager.stringOr (Some d) now).
Proof.
  intros old scoreData result Hlen Hsorted.
  subst result. unfold LeaderboardManager.addScore.
  cbn [fst snd LeaderboardManager.leaderboard]. fold old.
  match goal with
  | |- context [JsArray.sort _ (old ++ [?e])] => set (entry := e)
  end.
  assert (Hscore : LeaderboardEntry.score entry = s).
  { subst entry scoreData. cbn. destruct (Z.eqb_spec s 0); congruence. }
  rewrite sort_snoc, (sort_sorted _ old Hsorted).
  unfold LeaderboardManager.canEnterLeaderboard. fold old.
  split.
  - intros Hno. rewrite map_unrank_imap.
    destruct (Nat.ltb_spec (length old) LeaderboardManager.maxEntries) as [|Hfull];
      [discriminate|].
    rewrite insert_sorted_last.
    + rewrite take_app_length'; [reflexivity|lia].
    + intros b Hb.
      destruct (old !! (length old - 1)%nat) as [lowest|] eqn:Elow.
      * apply Z.ltb_ge in Hno.
        unfold LeaderboardManager.score_desc. apply Z.leb_le. rewrite Hscore.
        apply list_elem_of_In, list_elem_of_lookup in Hb as [i Hi].
        assert (Hi' : (i < length old)%nat) by (apply lookup_lt_is_Some; eauto).
        destruct (decide (i = (length old - 1)%nat)) as [->|Hne].
        -- rewrite Elow in Hi. assert (b = lowest) as -> by congruence. lia.
        -- pose proof (StronglySorted_lookup_lt _ _ i (length old - 1) b lowest
                         Hsorted ltac:(lia) Hi Elow) as H.
           unfold LeaderboardManager.score_desc in H. apply Z.leb_le in H. lia.
      * apply lookup_ge_None in Elow. unfold LeaderboardManager.maxEntries in *. lia.
  - intros Hyes.
    assert (Hin : In entry (take LeaderboardManager.maxEntries
                              (JsArray.insert_sorted LeaderboardManager.score_desc
                                                     entry old))).
    { destruct (Nat.ltb_spec (length old) LeaderboardManager.maxEntries) as [Hlt|Hfull].
      - rewrite take_ge.
        + apply (Permutation_in _ (Permutation_sym (insert_sorted_Permutation _ _ _))).
          now left.
        + rewrite (Permutation_length (insert_sorted_Permutation _ _ _)). cbn. lia.
      - destruct (old !! (length old - 1)%nat) as [lowest|] eqn:Elow; [|discriminate].
        apply Z.ltb_lt in Hyes.
        destruct (insert_sorted_split LeaderboardManager.score_desc entry old)
          as (l1 & l2 & Hold & Hins & H1 & H2).
        rewrite Hins.
        assert (Hl1 : (length l1 < length old)%nat).
        { destruct l2 as [|c l2].
          - exfalso. rewrite app_nil_r in Hold. subst l1.
            assert (Hlow : In lowest old).
            { apply list_elem_of_In, list_elem_of_lookup. eauto. }
            specialize (H1 lowest Hlow). unfold LeaderboardManager.score_desc in H1.
            apply Z.leb_le in H1. lia.
          - rewrite Hold, length_app. cbn. lia. }
        apply list_elem_of_In, list_elem_of_lookup. exists (length l1).
        rewrite lookup_take_lt by lia.
        rewrite lookup_app_r by lia. now rewrite Nat.sub_diag. }
    apply list_elem_of_In, list_elem_of_lookup in Hin as [i Hi].
    exists (LeaderboardEntry.set_rank (Z.of_nat i + 1) entry).
    split; [|split; [exact Hscore|reflexivity]].
    apply list_elem_of_In, list_elem_of_lookup. exists i.
    rewrite list_lookup_imap, Hi. reflexivity.
Qed.

Lemma canEnterLeaderboard_predicts_addScore_witness :
  let old := LeaderboardManager.leaderboard Examples.fullLeaderboard in
  let scoreData :=
    LeaderboardManager.mkScoreData (Some 10%Z) (Some 3%Z) (Some 2%Z)
                                   (Some "2024-06-01T00:00:00.000Z"%string) None in
  let result :=
    LeaderboardManager.leaderboard
      (snd (fst (LeaderboardManager.addScore "2024-06-02T00:00:00.000Z" 0 scoreData
                   Examples.fullLeaderboard LocalStorage.empty))) in
  (LeaderboardManager.canEnterLeaderboard 10 Examples.fullLeaderboard = false ->
   List.map (LeaderboardEntry.set_rank 0) result
   = List.map (LeaderboardEntry.set_rank 0) old)
  /\ (LeaderboardManager.canEnterLeaderboard 10 Examples.fullLeaderboard = true ->
      exists e, In e result
                /\ LeaderboardEntry.score e = 10%Z
                /\ LeaderboardEntry.date e
                   = LeaderboardManager.stringOr
                       (Some "2024-06-01T00:00:00.000Z"%string)
                       "2024-06-02T00:00:00.000Z").
Proof.
  apply (canEnterLeaderboard_predicts_addScore
           "2024-06-02T00:00:00.000Z" 0 10 3 2 "2024-06-01T00:00:00.000Z"
           Examples.fullLeaderboard LocalStorage.empty).
  - vm_compute. lia.
  - vm_compute. repeat constructor.
Defined.

(** X28. [addScore] returns [true] for every argument, every leaderboard
    and every store: the returned flag does not tell whether the entry
    was kept. *)
Theorem addScore_always_true (now : string) (random : Q)
        (scoreData : LeaderboardManager.ScoreData)
        (lm : LeaderboardManager.LeaderboardManager) (st : LocalStorage.t) :
  fst (fst (LeaderboardManager.addScore now random scoreData lm st)) = true.
Proof. exact (addScore_returns_true now random scoreData lm st). Qed.

(** * Further properties of the game state *)

Lemma gameOver_lost_fields (host : Game.Host) (g : Game.Game) :
  Game.isGameOver (Game.gameOver host false g) = true
  /\ Game.isPlaying (Game.gameOver host false g) = false
  /\ Game.slotManager (Game.gameOver host false g) = Game.slotManager g
  /\ ScoreManager.combo (Game.scoreManager (Game.gameOver host false g)) = 0%Z.
Proof.
  unfold Game.gameOver.
  destruct (LeaderboardManager.canEnterLeaderboard _ _); [|repeat split; reflexivity].
  destruct (LeaderboardManager.addScore _ _ _ _ _) as [[b lb] st].
  repeat split; reflexivity.
Qed.

(** X29. A click ends the game only on a stuck slot queue.  In a game
    that is not over, if a [cardClicked] event leaves the game over, then
    the slot queue it leaves is full and cannot continue, the game is no
    longer playing, and the combo is reset to 0. *)
Theorem cardClicked_game_over_only_when_stuck (host : Game.Host) (cardId : Z)
        (g : Game.Game) :
  Game.isGameOver g = false ->
  Game.isGameOver (Game.cardClicked host cardId g) = true ->
  let g' := Game.cardClicked host cardId g in
  SlotManager.isFull (Game.slotManager g') = true
  /\ SlotManager.canContinue (Game.slotManager g') = false
  /\ Game.isPlaying g' = false
  /\ ScoreManager.combo (Game.scoreManager g') = 0%Z.
Proof.
  intros Hnot. cbv zeta.
  set (P := fun x : Game.Game => Game.isGameOver x = false).
  assert (Hd : forall e sm x,
             (exists i cd, SlotManager.slots sm !! i = Some (Some cd)) ->
             P x -> P (Game.onCardsEliminated host e sm x)).
  { intros e sm x Hocc HP. unfold Game.onCardsEliminated, Game.handleCardsEliminated.
    destruct (ScoreManager.addEliminationScore _ _ _) as [[pts sc] st].
    unfold Game.checkWinCondition.
    cbn [Game.set_cardManager Game.set_score Game.set_slotManager Game.slotManager].
    rewrite (getCardCount_occupied sm Hocc), andb_false_r. exact HP. }
  unfold Game.cardClicked.
  destruct (negb (Game.isPlaying g) || Game.isPaused g); [congruence|].
  destruct (CardManager.getCard cardId (Game.cardManager g)) as [card|]; [|congruence].
  destruct (negb (Card.isDisabled card)); [|congruence].
  unfold Game.handleCardClick, SlotManager.addCard.
  destruct (JsArray.findIndex SlotManager.isNull (SlotManager.slots (Game.slotManager g)))
    as [i|]; [|cbn; congruence].
  pose proof (checkForElimination_listener (Game.onCardsEliminated host) P
                (SlotManager.mk
                   (<[i := Some (SlotManager.mkCardData (Card.id card) (Card.type card))]>
                      (SlotManager.slots (Game.slotManager g)))
                   (SlotManager.initialized (Game.slotManager g)))
                g Hd Hnot) as H.
  destruct (SlotManager.checkForElimination _ _ _) as [[e sm2] g1]. cbn [snd] in H.
  unfold Game.checkGameState.
  match goal with
  | |- Game.isGameOver (if ?c then Game.gameOver host false ?g3 else ?g3) = true -> _ =>
      assert (H3 : P g3) by exact H;
      destruct c eqn:Hc;
      [|unfold P in H3; congruence];
      intros _;
      destruct (gameOver_lost_fields host g3) as (_ & Hplay & Hslots & Hcombo);
      rewrite Hslots;
      apply negb_true_iff in Hc
  end.
  repeat apply conj; try assumption.
  unfold SlotManager.canContinue in Hc.
  destruct (SlotManager.isFull _); [reflexivity|discriminate].
Qed.

Lemma cardClicked_game_over_only_when_stuck_witness :
  let g' := Game.cardClicked Examples.host 6 Examples.sixClicked in
  SlotManager.isFull (Game.slotManager g') = true
  /\ SlotManager.canContinue (Game.slotManager g') = false
  /\ Game.isPlaying g' = false
  /\ ScoreManager.combo (Game.scoreManager g') = 0%Z.
Proof.
  apply (cardClicked_game_over_only_when_stuck Examples.host 6 Examples.sixClicked).
  - vm_compute. reflexivity.
  - vm_compute. reflexivity.
Defined.

(** X30. Pausing.  [pauseGame] called twice gives back the game as it
    was; in a game that is over it changes nothing; and once it has paused
    a running game, the [cardClicked] listener ignores every click. *)
Theorem pauseGame_toggle (host : Game.Host) (cardId : Z) (g : Game.Game) :
  Game.pauseGame (Game.pauseGame g) = g
  /\ (Game.isGameOver g = true -> Game.pauseGame g = g)
  /\ (Game.isPlaying g = true -> Game.isGameOver g = false ->
      Game.isPaused g = false ->
      Game.isPaused (Game.pauseGame g) = true
      /\ Game.cardClicked host cardId (Game.pauseGame g) = Game.pauseGame g).
Proof.
  destruct g as [cm sm lv sc lb st paused over playing pending].
  unfold Game.pauseGame, Game.cardClicked. cbn.
  repeat apply conj.
  - destruct playing, over, paused; reflexivity.
  - intros ->. now rewrite orb_true_r.
  - intros -> -> ->. cbn. split; reflexivity.
Qed.
